(** * on-bored: the heuristic classification and aggregation pipeline

  A shallow embedding of the analyser script (bin/cli.js) and of the
  compliance score of the HTML generator (lib/generateHTML.js).

  Conventions of the embedding.
  - JavaScript strings are modelled by [string]; the text handled here
    (git and grep output, paths) is taken to be 7-bit ASCII, so that
    [toLowerCase], [trim] and the regular-expression classes [\s], [\d],
    [\w] are their ASCII restrictions.
  - JavaScript numbers that hold counts are modelled by [Z]; quotients
    are exact rationals ([Q]) rather than doubles, and [Math.round] is
    [floor (x + 1/2)].
  - A plain object used as a counter table ([filesTouched],
    [fileChurnMap]) is an association list in insertion order, which is
    the order [Object.entries] enumerates string keys in.
  - [execSync], [fs] and the top-level promise are modelled by a reader
    monad over a [World] of collaborator answers with three outcomes:
    a value, a thrown exception, or [process.exit].
  - What [JSON.parse] reads (the answer of [gh], the answer of the AI
    service) is a [Json.value]; [JSON.parse] itself and the numeric
    reading of text by [>] are answers of the [World], like the
    commands.  The text of the pages is not kept: a page generator is
    modelled by the property reads, calls and conversions it performs on
    such values, each of which may throw. *)

From Stdlib Require Import List String Ascii ZArith QArith Qround Lia Lqa Bool Arith.
From Stdlib Require Import Sorting.Sorted Sorting.Permutation.
Import ListNotations.

Local Open Scope string_scope.
Local Open Scope Z_scope.

(** ** JavaScript string primitives *)

Module JsString.

Definition is_upper (c : ascii) : bool :=
  let n := nat_of_ascii c in (65 <=? n)%nat && (n <=? 90)%nat.

Definition is_lower (c : ascii) : bool :=
  let n := nat_of_ascii c in (97 <=? n)%nat && (n <=? 122)%nat.

Definition is_digit (c : ascii) : bool :=
  let n := nat_of_ascii c in (48 <=? n)%nat && (n <=? 57)%nat.

(** [\s]: tab, line feed, vertical tab, form feed, carriage return, space. *)
Definition is_space (c : ascii) : bool :=
  let n := nat_of_ascii c in ((9 <=? n)%nat && (n <=? 13)%nat) || (n =? 32)%nat.

(** [\w]: letters, digits and the underscore. *)
Definition is_word (c : ascii) : bool :=
  is_upper c || is_lower c || is_digit c || (nat_of_ascii c =? 95)%nat.

Definition lower_char (c : ascii) : ascii :=
  if is_upper c then ascii_of_nat (nat_of_ascii c + 32) else c.

Fixpoint toLowerCase (s : string) : string :=
  match s with
  | EmptyString => EmptyString
  | String c r => String (lower_char c) (toLowerCase r)
  end.

Definition startsWith (s p : string) : bool := String.prefix p s.

(** [s.includes(sub)]: [sub] occurs in [s] at some offset. *)
Fixpoint includes (s sub : string) : bool :=
  startsWith s sub ||
  match s with
  | EmptyString => false
  | String _ r => includes r sub
  end.

Definition endsWith (s suf : string) : bool :=
  (String.length suf <=? String.length s)%nat &&
  String.eqb (substring (String.length s - String.length suf) (String.length suf) s) suf.

Fixpoint trimStart (s : string) : string :=
  match s with
  | String c r => if is_space c then trimStart r else s
  | EmptyString => EmptyString
  end.

Definition rev (s : string) : string :=
  string_of_list_ascii (List.rev (list_ascii_of_string s)).

Definition trim (s : string) : string := rev (trimStart (rev (trimStart s))).

(** A string is truthy when it is not empty. *)
Definition truthy (s : string) : bool :=
  match s with EmptyString => false | _ => true end.

(** [s.split(sep)] for a one-character separator: never the empty list. *)
Fixpoint split (sep : ascii) (s : string) : list string :=
  match s with
  | EmptyString => [EmptyString]
  | String c r =>
      if Ascii.eqb c sep then EmptyString :: split sep r
      else match split sep r with
           | h :: t => String c h :: t
           | [] => [String c EmptyString]
           end
  end.

Definition newline : ascii := ascii_of_nat 10.
Definition slash : ascii := ascii_of_nat 47.
Definition dot : ascii := ascii_of_nat 46.

(** [out.split('\n').filter(l => l.trim())] *)
Definition nonblank_lines (out : string) : list string :=
  filter (fun l => truthy (trim l)) (split newline out).

(** [arr.includes(x)] on an array of strings. *)
Definition mem (x : string) (l : list string) : bool :=
  existsb (String.eqb x) l.

End JsString.

(** ** Node's [path] module (POSIX flavour) *)

Module Path.
Import JsString.

Fixpoint dropWhile {A} (p : A -> bool) (l : list A) : list A :=
  match l with
  | x :: r => if p x then dropWhile p r else l
  | [] => []
  end.

Fixpoint takeWhile {A} (p : A -> bool) (l : list A) : list A :=
  match l with
  | x :: r => if p x then x :: takeWhile p r else []
  | [] => []
  end.

Definition is_slash (c : ascii) : bool := Ascii.eqb c slash.
Definition is_dot (c : ascii) : bool := Ascii.eqb c dot.

(** The last path segment: trailing slashes are dropped, then everything
    after the last remaining slash is kept.  This is the window
    [start, end) both [basename] and [extname] compute by scanning the
    path from its end. *)
Definition last_segment (p : string) : string :=
  string_of_list_ascii
    (List.rev (takeWhile (fun c => negb (is_slash c))
                 (dropWhile is_slash (List.rev (list_ascii_of_string p))))).

(** [path.basename(p)] *)
Definition basename (p : string) : string := last_segment p.

(** [path.extname(p)]: from the last dot of the last segment to its end;
    empty when there is no dot, when the only dot leads the segment, or
    when the segment is [..]. *)
Definition extname (p : string) : string :=
  let seg := List.rev (list_ascii_of_string (last_segment p)) in
  let ext_rev := takeWhile (fun c => negb (is_dot c)) seg in
  match dropWhile (fun c => negb (is_dot c)) seg with
  | [] => EmptyString
  | _ :: [] => EmptyString
  | _ :: _ =>
      if String.eqb (last_segment p) ".." then EmptyString
      else string_of_list_ascii (dot :: List.rev ext_rev)
  end.

(** [path.basename(p, ext)] for an [ext] obtained as [extname p], which is
    how the analyser always calls it: the last segment without the suffix
    [ext], unless [ext] is empty or is the whole segment. *)
Definition basename_ext (p ext : string) : string :=
  let b := last_segment p in
  if truthy ext && endsWith b ext && negb (String.eqb b ext)
  then substring 0 (String.length b - String.length ext) b
  else b.

End Path.

(** ** [Array.prototype.sort] with a numeric comparator

  The sort is stable; an element moves in front of another only when the
  comparator is positive for the pair in their current order. *)

Module JsArray.

Section Sort.
Context {A : Type}.
Variable cmp : A -> A -> Z.

Fixpoint insert (x : A) (l : list A) : list A :=
  match l with
  | [] => [x]
  | y :: r => if cmp x y <=? 0 then x :: l else y :: insert x r
  end.

Definition sort (l : list A) : list A := fold_right insert [] l.
End Sort.

(** [arr.slice(0, n)] *)
Definition slice0 {A} (n : nat) (l : list A) : list A := firstn n l.

(** Collecting what a loop body pushes, when it pushes at most one item
    per element; also [.filter(Boolean)] after a [map]. *)
Fixpoint filter_some {A} (l : list (option A)) : list A :=
  match l with
  | [] => []
  | Some a :: r => a :: filter_some r
  | None :: r => filter_some r
  end.

End JsArray.

(** ** Values read by [JSON.parse] *)

Module Json.
Import JsString.

(** A number: a double by its exact value, or an infinity ([JSON.parse]
    yields no NaN). *)
Inductive number :=
| Finite (q : Q)
| Infinite (negative : bool).

#[warnings="-register-all"] Inductive value :=
| JNull
| JBool (b : bool)
| JNum (n : number)
| JStr (s : string)
| JArr (items : list value)
| JObj (fields : list (string * value)).   (* the own properties *)

(** The length of a string or of an array, as a number. *)
Definition of_nat (n : nat) : value := JNum (Finite (inject_Z (Z.of_nat n))).

(** The own property [name], or [undefined]. *)
Fixpoint field (name : string) (fields : list (string * value)) : option value :=
  match fields with
  | [] => None
  | (k, v) :: r => if String.eqb k name then Some v else field name r
  end.

(** Truthiness: [null], [false], zero and the empty string are falsy. *)
Definition truthy_value (v : value) : bool :=
  match v with
  | JNull => false
  | JBool b => b
  | JNum (Finite q) => negb (Qeq_bool q 0)
  | JNum (Infinite _) => true
  | JStr s => truthy s
  | JArr _ | JObj _ => true
  end.

(** The conversion of [v] to a primitive does not throw.  A parsed
    object inherits [toString] from [Object.prototype] unless a property
    of its own, never callable, hides it; an array joins the conversions
    of its items. *)
Fixpoint stringable (v : value) : bool :=
  match v with
  | JArr items => forallb stringable items
  | JObj fields =>
      match field "toString" fields with
      | Some _ => false
      | None => true
      end
  | _ => true
  end.

(** [n > 0] *)
Definition number_positive (n : number) : bool :=
  match n with
  | Finite q => (0 <? Qnum q)%Z
  | Infinite negative => negb negative
  end.

End Json.

(** ** The host: child processes, the file system and process exit *)

Module Host.
Import JsString.

(** A command line handed to [execSync]. *)
Inductive command :=
| Git (args : string)     (* the template [git ${args}], run in the repository *)
| Sh (script : string)    (* a shell pipeline, by its text *)
| Site (name : string).   (* a shell pipeline whose output the embedding does
                             not interpret, by the variable that receives it *)

(** The two services [callAI] can send the prompt to. *)
Inductive backend := Ollama | OpenAI.

(** What the collaborators answer during one run.  [None] is a call that
    throws (non-zero exit status, missing tool, unreadable file, text
    that is not JSON, a request that fails or times out). *)
Record World := mkWorld {
  execSync : command -> option string;
  existsSync : string -> bool;
  readFileSync : string -> option string;
  readdirSync : string -> option (list string);
  writeFileSync : string -> bool;
  parseJSON : string -> option Json.value;   (* [JSON.parse(text)] *)
  positive : Json.value -> bool;             (* [v > 0] for a string, an array
                                                or an object [v] whose conversion
                                                to a primitive does not throw *)
  httpPost : backend -> option string;       (* the body of the answer to the
                                                request sent to the service *)
  openaiKey : bool                           (* [process.env.OPENAI_API_KEY]
                                                is set *)
}.

(** How a computation ends: with a value, with an exception that a
    [try]/[catch] can intercept, or with [process.exit], which nothing
    intercepts. *)
Inductive outcome (A : Type) :=
| Value (a : A)
| Thrown
| Exit (code : Z).
Arguments Value {A} a.
Arguments Thrown {A}.
Arguments Exit {A} code.

Definition M (A : Type) : Type := World -> outcome A.

Definition ret {A} (a : A) : M A := fun _ => Value a.

Definition bind {A B} (m : M A) (k : A -> M B) : M B :=
  fun w => match m w with
           | Value a => k a w
           | Thrown => Thrown
           | Exit c => Exit c
           end.

Definition throw {A} : M A := fun _ => Thrown.

Definition process_exit {A} (code : Z) : M A := fun _ => Exit code.

(** [try { m } catch (e) { h }] *)
Definition try_catch {A} (m : M A) (h : M A) : M A :=
  fun w => match m w with
           | Thrown => h w
           | o => o
           end.

(** [execSync(cmd, ...)]: the standard output, or an exception. *)
Definition exec (cmd : command) : M string :=
  fun w => match execSync w cmd with
           | Some out => Value out
           | None => Thrown
           end.

(** [fs.readFileSync(path, 'utf8')] *)
Definition readFile (path : string) : M string :=
  fun w => match readFileSync w path with
           | Some content => Value content
           | None => Thrown
           end.

(** [fs.writeFileSync(path, data)] *)
Definition writeFile (path : string) : M unit :=
  fun w => if writeFileSync w path then Value tt else Thrown.

(** [fs.readdirSync(path, ...)] *)
Definition readdir (path : string) : M (list string) :=
  fun w => match readdirSync w path with
           | Some names => Value names
           | None => Thrown
           end.

(** [JSON.parse(text)] *)
Definition parse (text : string) : M Json.value :=
  fun w => match parseJSON w text with
           | Some v => Value v
           | None => Thrown
           end.

(** The request to an AI service, up to the end of the answer. *)
Definition http (b : backend) : M string :=
  fun w => match httpPost w b with
           | Some body => Value body
           | None => Thrown
           end.

(** [process.env.OPENAI_API_KEY], as a condition. *)
Definition api_key : M bool := fun w => Value (openaiKey w).

(** [v > 0] on a value that converts to a primitive. *)
Definition compare_positive (v : Json.value) : M bool :=
  fun w => Value (positive w v).

(** [fs.existsSync(path)] never throws. *)
Definition exists_ (path : string) : M bool :=
  fun w => Value (existsSync w path).

(** The helper [git(cmd)] of [runAnalysis]: trimmed output, and the empty
    string when the command fails. *)
Definition git (args : string) : M string :=
  try_catch (bind (exec (Git args)) (fun out => ret (trim out)))
            (ret EmptyString).

(** [m] ends with a value in every world. *)
Definition total {A} (m : M A) : Prop := forall w, exists a, m w = Value a.

(** [m] never leaves through [process.exit]. *)
Definition no_exit {A} (m : M A) : Prop := forall w c, m w <> Exit c.

End Host.

Declare Scope host_scope.
Delimit Scope host_scope with host.
Notation "x <- c ;; k" := (Host.bind c (fun x => k))
  (at level 61, c at next level, right associativity) : host_scope.
Notation "c ;;; k" := (Host.bind c (fun _ => k))
  (at level 61, right associativity) : host_scope.

(** ** JavaScript numbers used by the pipeline *)

Module JsNumber.

(** [Math.round(x)]: the nearest integer, halves rounded up. *)
Definition Math_round (x : Q) : Z := Qfloor (x + (1 # 2))%Q.

(** [Math.round((a / b) * 100)] *)
Definition percent (a b : Z) : Z :=
  Math_round ((inject_Z a / inject_Z b) * inject_Z 100)%Q.

(** [x || d] on numbers: zero is falsy. *)
Definition or_default (x d : Z) : Z := if x =? 0 then d else x.

Definition sum (l : list Z) : Z := fold_left Z.add l 0.

End JsNumber.

(** ** Counter tables: [obj[k] = (obj[k] || 0) + 1] *)

Module Table.

Definition table : Type := list (string * Z).

Fixpoint lookup (k : string) (t : table) : option Z :=
  match t with
  | [] => None
  | (k', v) :: r => if String.eqb k k' then Some v else lookup k r
  end.

(** A new key is appended, so the keys stay in first-seen order. *)
Fixpoint bump (k : string) (t : table) : table :=
  match t with
  | [] => [(k, 1)]
  | (k', v) :: r =>
      if String.eqb k k' then (k', JsNumber.or_default v 0 + 1) :: r
      else (k', v) :: bump k r
  end.

(** [obj[k]] used as a condition: present and not zero. *)
Definition truthy_at (k : string) (t : table) : bool :=
  match lookup k t with
  | Some v => negb (v =? 0)
  | None => false
  end.

(** The comparator [(a, b) => b[1] - a[1]]. *)
Definition by_count_desc (a b : string * Z) : Z := snd b - snd a.

Definition sort_desc (t : table) : table := JsArray.sort by_count_desc t.

(** The order a stable descending sort establishes from a prior order
    [before]: larger count first; for equal counts, the prior order. *)
Definition sorted_rel (before : string * Z -> string * Z -> Prop)
                      (a b : string * Z) : Prop :=
  snd b < snd a \/ (snd b = snd a /\ before a b).

End Table.

(** ** Contributor aggregator *)

Module Contributors.
Import JsString Path JsArray JsNumber Table Host.
Local Open Scope host_scope.

Inductive category :=
| Frontend | Backend | Database | Auth | Devops | Testing | Docs.

(** The keys of [commitCategories] and of [categoryBreakdown], in order. *)
Definition categories : list category :=
  [Frontend; Backend; Database; Auth; Devops; Testing; Docs].

(** [commitCategories[cat].patterns] *)
Definition patterns (c : category) : list string :=
  match c with
  | Frontend => ["component"; "ui"; "style"; "css"; "layout"; "modal"; "button"; "form"; "page"]
  | Backend => ["api"; "server"; "handler"; "controller"; "route"; "endpoint"; "service"]
  | Database => ["database"; "db"; "schema"; "model"; "migration"; "query"; "prisma"]
  | Auth => ["auth"; "login"; "signup"; "session"; "jwt"; "oauth"; "password"; "security"]
  | Devops => ["ci"; "cd"; "docker"; "deploy"; "build"; "workflow"; "pipeline"; "config"]
  | Testing => ["test"; "spec"; "jest"; "vitest"; "cypress"; "e2e"]
  | Docs => ["doc"; "readme"; "changelog"; "comment"; "md"]
  end.

(** One number per category: the shape of both [categoryBreakdown] and
    [radarData]. *)
Record PerCategory := mkPerCategory {
  frontend : Z; backend : Z; database : Z; auth : Z;
  devops : Z; testing : Z; docs : Z
}.

Definition get (p : PerCategory) (c : category) : Z :=
  match c with
  | Frontend => frontend p | Backend => backend p | Database => database p
  | Auth => auth p | Devops => devops p | Testing => testing p | Docs => docs p
  end.

Definition set (c : category) (v : Z) (p : PerCategory) : PerCategory :=
  match c with
  | Frontend => mkPerCategory v (backend p) (database p) (auth p) (devops p) (testing p) (docs p)
  | Backend => mkPerCategory (frontend p) v (database p) (auth p) (devops p) (testing p) (docs p)
  | Database => mkPerCategory (frontend p) (backend p) v (auth p) (devops p) (testing p) (docs p)
  | Auth => mkPerCategory (frontend p) (backend p) (database p) v (devops p) (testing p) (docs p)
  | Devops => mkPerCategory (frontend p) (backend p) (database p) (auth p) v (testing p) (docs p)
  | Testing => mkPerCategory (frontend p) (backend p) (database p) (auth p) (devops p) v (docs p)
  | Docs => mkPerCategory (frontend p) (backend p) (database p) (auth p) (devops p) (testing p) v
  end.

(** [categoryBreakdown[cat]++] *)
Definition incr (c : category) (p : PerCategory) : PerCategory :=
  set c (get p c + 1) p.

Definition incr_if (b : bool) (c : category) (p : PerCategory) : PerCategory :=
  if b then incr c p else p.

Definition zero : PerCategory := mkPerCategory 0 0 0 0 0 0 0.

(** [Object.values(p)] *)
Definition values (p : PerCategory) : list Z := map (get p) categories.

(** The variables the [forEach] over [commitData] updates. *)
Record scan := mkScan {
  currentCommitMsg : string;
  filesTouched : table;
  areasTouched : table;
  categoryBreakdown : PerCategory
}.

Definition scan0 : scan := mkScan EmptyString [] [] zero.

Definition is_hex (c : ascii) : bool :=
  let n := nat_of_ascii c in is_digit c || ((97 <=? n)%nat && (n <=? 102)%nat).

(** [line.match(/^[a-f0-9]+\s/)] *)
Fixpoint hex_run_then_space (seen : bool) (s : string) : bool :=
  match s with
  | String c r => if is_hex c then hex_run_then_space true r else seen && is_space c
  | EmptyString => false
  end.

Definition is_commit_line (line : string) : bool := hex_run_then_space false line.

(** The commit-message branch: every category one of whose patterns occurs
    in the lower-cased line is incremented. *)
Definition on_commit_line (line : string) (st : scan) : scan :=
  let msg := toLowerCase line in
  mkScan msg (filesTouched st) (areasTouched st)
    (fold_left
       (fun p cat => incr_if (existsb (fun pat => includes msg pat) (patterns cat)) cat p)
       categories (categoryBreakdown st)).

(** [parts.find(p => !['src','app','lib','.'].includes(p) && p.length > 1)] *)
Definition find_area (parts : list string) : option string :=
  find (fun p => negb (mem p ["src"; "app"; "lib"; "."]) && (1 <? String.length p)%nat) parts.

(** The file-path branch. *)
Definition on_file_line (line : string) (st : scan) : scan :=
  let file := toLowerCase line in
  let ext := toLowerCase (extname file) in
  let ft := if truthy ext then bump ext (filesTouched st) else filesTouched st in
  let cb := categoryBreakdown st in
  let cb := incr_if (includes file "component" || includes file "/ui/"
                     || mem ext [".vue"; ".tsx"; ".jsx"; ".svelte"; ".css"; ".scss"]) Frontend cb in
  let cb := incr_if (includes file "/api/" || includes file "server"
                     || includes file "handler") Backend cb in
  let cb := incr_if (includes file "schema" || includes file "model"
                     || includes file "migration" || includes file "prisma") Database cb in
  let cb := incr_if (includes file "auth" || includes file "login"
                     || includes file "security") Auth cb in
  let cb := incr_if (includes file "docker" || includes file "ci"
                     || includes file "workflow" || mem ext [".yml"; ".yaml"]) Devops cb in
  let cb := incr_if (includes file "test" || includes file "spec"
                     || includes file ".test." || includes file ".spec.") Testing cb in
  let cb := incr_if (mem ext [".md"; ".mdx"; ".txt"] || includes file "readme"
                     || includes file "doc") Docs cb in
  let parts := split slash line in
  let at_ :=
    if (1 <? List.length parts)%nat then
      match find_area parts with
      | Some area => if truthy area then bump area (areasTouched st) else areasTouched st
      | None => areasTouched st
      end
    else areasTouched st in
  mkScan (currentCommitMsg st) ft at_ cb.

(** The body of [commitData.forEach(line => ...)]. *)
Definition on_line (st : scan) (line : string) : scan :=
  if is_commit_line line then on_commit_line line st
  else if truthy (trim line) then on_file_line line st
  else st.

Definition scan_lines (commitData : list string) : scan :=
  fold_left on_line commitData scan0.

(** The primary focus, from the extension touched most. *)
Definition focus_of (filesTouched : table) : string :=
  match sort_desc filesTouched with
  | [] => "general"
  | (topExt, _) :: _ =>
      if mem topExt [".vue"; ".tsx"; ".jsx"; ".svelte"; ".css"; ".scss"] then "frontend"
      else if mem topExt [".py"; ".go"; ".rs"; ".java"] then "backend"
      else if mem topExt [".ts"; ".js"] then
        (if truthy_at ".vue" filesTouched || truthy_at ".tsx" filesTouched
         then "frontend" else "fullstack")
      else if mem topExt [".md"; ".mdx"; ".txt"] then "docs"
      else if mem topExt [".yml"; ".yaml"; ".json"] then "config/devops"
      else "general"
  end.

(** [Object.values(categoryBreakdown).reduce((a, b) => a + b, 0) || 1] *)
Definition totalCatHits (cb : PerCategory) : Z := or_default (sum (values cb)) 1.

Definition radarData_of (cb : PerCategory) : PerCategory :=
  fold_left (fun r cat => set cat (percent (get cb cat) (totalCatHits cb)) r)
            categories zero.

(** An entry of [contributorsRaw]. *)
Record RawContributor := mkRaw { commits : Z; name : string }.

Record Contributor := mkContributor {
  raw : RawContributor;
  focus : string;
  topAreas : list string;
  expertise : string;
  breakdown : PerCategory;
  radarData : PerCategory
}.

(** The analysis of one contributor from the non-blank lines of their
    history.  Directory names that are array indices or names inherited
    from [Object.prototype] are outside what [areasTouched] models. *)
Definition analyse (c : RawContributor) (commitData : list string) : Contributor :=
  let st := scan_lines commitData in
  let top3 := map fst (slice0 3 (sort_desc (areasTouched st))) in
  let f := focus_of (filesTouched st) in
  mkContributor c f (slice0 2 top3)
    (match top3 with
     | a :: _ => if truthy a then a else f
     | [] => f
     end)
    (categoryBreakdown st)
    (radarData_of (categoryBreakdown st)).

Fixpoint digits_value (acc : Z) (ds : list ascii) : Z :=
  match ds with
  | [] => acc
  | d :: r => digits_value (10 * acc + (Z.of_nat (nat_of_ascii d) - 48)) r
  end.

(** [parseInt] of a run of decimal digits, as the exact integer.  The
    code's [parseInt] returns the nearest double, which is this integer
    as long as it does not exceed 2^53. *)
Definition parseInt (ds : list ascii) : Z := digits_value 0 ds.

Definition is_line_terminator (c : ascii) : bool :=
  let n := nat_of_ascii c in (n =? 10)%nat || (n =? 13)%nat.

(** [line.trim().match(/^\s*(\d+)\s+(.+)$/)] turned into a record: digits,
    white space, then a non-empty rest free of line terminators. *)
Definition parse_shortlog_line (line : string) : option RawContributor :=
  let t := dropWhile is_space (list_ascii_of_string (trim line)) in
  let ds := takeWhile is_digit t in
  let after := dropWhile is_digit t in
  let nm := dropWhile is_space after in
  match ds, takeWhile is_space after, nm with
  | _ :: _, _ :: _, _ :: _ =>
      if existsb is_line_terminator nm then None
      else Some (mkRaw (parseInt ds) (string_of_list_ascii nm))
  | _, _, _ => None
  end.

Definition contributorsRaw_of (shortlog : string) : list RawContributor :=
  filter_some (map parse_shortlog_line (slice0 10 (nonblank_lines shortlog))).

Definition dquote : string := String (ascii_of_nat 34) EmptyString.

Definition author_log_args (author : string) : string :=
  "log --author=" ++ dquote ++ author ++ dquote ++ " --oneline --name-only | head -500".

Fixpoint mapM {A B} (f : A -> M B) (l : list A) : M (list B) :=
  match l with
  | [] => ret []
  | a :: r => b <- f a ;; bs <- mapM f r ;; ret (b :: bs)
  end.

Definition contributorsRaw : M (list RawContributor) :=
  out <- git "shortlog -sn --all" ;; ret (contributorsRaw_of out).

Definition contributor (c : RawContributor) : M Contributor :=
  try_catch
    (out <- git (author_log_args (name c)) ;; ret (analyse c (nonblank_lines out)))
    (ret (analyse c [])).

Definition contributors : M (list Contributor) :=
  raws <- contributorsRaw ;; mapM contributor raws.

End Contributors.

(** ** What a counter table holds, said without the table *)

Module Tally.
Import Table.

(** The table after counting the keys [ks] one by one. *)
Definition tally (ks : list string) : table :=
  fold_left (fun t k => bump k t) ks [].

(** How many times [k] occurs in [ks]. *)
Fixpoint occurrences (k : string) (ks : list string) : Z :=
  match ks with
  | [] => 0
  | x :: r => (if String.eqb k x then 1 else 0) + occurrences k r
  end.

(** The position at which [k] is first encountered in [ks]
    ([length ks] when it never is). *)
Fixpoint first_index (k : string) (ks : list string) : nat :=
  match ks with
  | [] => O
  | x :: r => if String.eqb k x then O else S (first_index k r)
  end.

(** [k] is the key counted most often; among keys counted equally often
    it is the one encountered first. *)
Definition most_counted (ks : list string) (k : string) : Prop :=
  In k ks /\
  forall k', In k' ks ->
    occurrences k' ks <= occurrences k ks /\
    (occurrences k' ks = occurrences k ks ->
     (first_index k ks <= first_index k' ks)%nat).


End Tally.

Module ContributorSpec.
Import JsString Path JsArray Contributors.

(** The extension a history line adds to [filesTouched], if any. *)
Definition ext_of_line (line : string) : option string :=
  if is_commit_line line then None
  else if truthy (trim line) then
    let ext := toLowerCase (extname (toLowerCase line)) in
    if truthy ext then Some ext else None
  else None.

(** The extensions touched, one per file line, in history order. *)
Definition touched_exts (commitData : list string) : list string :=
  filter_some (map ext_of_line commitData).

(** What the helper [git] hands back for [args] in the world [w]. *)
Definition git_output (w : Host.World) (args : string) : string :=
  match Host.execSync w (Host.Git args) with
  | Some out => trim out
  | None => EmptyString
  end.

(** The non-blank lines of the author summary. *)
Definition shortlog_lines (w : Host.World) : list string :=
  nonblank_lines (git_output w "shortlog -sn --all").

(** The summary lists authors by decreasing number of commits, which is
    what the [-n] flag of [git shortlog] asks for. *)
Definition by_commits_desc (lines : list string) : Prop :=
  forall i j li lj a b,
    (i < j)%nat ->
    nth_error lines i = Some li -> parse_shortlog_line li = Some a ->
    nth_error lines j = Some lj -> parse_shortlog_line lj = Some b ->
    commits b <= commits a.

End ContributorSpec.

(** ** Churn ranker *)

Module Churn.
Import JsString Path JsArray JsNumber Table Host.
Local Open Scope host_scope.

(** The condition under which a line of the log is counted. *)
Definition counted (file : string) : bool :=
  truthy (trim file) &&
  (endsWith file ".js" || endsWith file ".ts" || endsWith file ".tsx"
   || endsWith file ".vue" || endsWith file ".py" || endsWith file ".go"
   || endsWith file ".rs" || endsWith file ".java").

(** [fileChurnMap] after the [forEach] over the lines. *)
Definition fileChurnMap (lines : list string) : table :=
  fold_left (fun t file => if counted file then bump file t else t) lines [].

Record FileChurn := mkFileChurn {
  file : string;
  fullPath : string;
  changes : Z
}.

(** Sort by count, keep fifteen, attach the base name. *)
Definition rank (lines : list string) : list FileChurn :=
  map (fun e => mkFileChurn (basename (fst e)) (fst e) (snd e))
      (slice0 15 (sort_desc (fileChurnMap lines))).

Definition topFiles : M (list FileChurn) :=
  fileChurnRaw <- git "log --name-only --pretty=format: --diff-filter=M" ;;
  ret (rank (split newline fileChurnRaw)).


End Churn.

(** ** Dead-code detector *)

Module DeadCode.
Import JsString Path JsArray Host.
Local Open Scope host_scope.

Definition dq : string := String (ascii_of_nat 34) EmptyString.

(** A shell word in double quotes. *)
Definition quoted (s : string) : string := dq ++ s ++ dq.

Record UnusedComponent := mkUnusedComponent {
  uc_path : string; uc_file : string; uc_component : string
}.

Record UnusedExport := mkUnusedExport {
  ue_path : string; ue_file : string; ue_export : string
}.

Record UnusedFile := mkUnusedFile {
  uf_path : string; uf_file : string
}.

Record DeadCodeReport := mkDeadCode {
  unusedComponents : list UnusedComponent;
  unusedFiles : list UnusedFile;
  unusedExports : list UnusedExport
}.

(** [s.replace(/([A-Z])/g, '-$1')] *)
Fixpoint dash_capitals (s : string) : string :=
  match s with
  | EmptyString => EmptyString
  | String c r =>
      if is_upper c then String "-" (String c (dash_capitals r))
      else String c (dash_capitals r)
  end.

(** [s.replace(/^-/, '')] *)
Definition drop_leading_dash (s : string) : string :=
  match s with
  | String "-" r => r
  | _ => s
  end.

(** The kebab-case variant of a component name. *)
Definition kebab (componentName : string) : string :=
  drop_leading_dash (toLowerCase (dash_capitals componentName)).

Section Scans.
(** The repository under analysis, and Node's [path.relative]. *)
Variable repoPath : string.
Variable relative : string -> string -> string.

(** The skip-list of the component scan. *)
Definition component_skipped (f : string) : bool :=
  let componentName := basename_ext f (extname f) in
  String.eqb (toLowerCase componentName) "index"
  || includes (relative repoPath f) "/pages/"
  || includes (relative repoPath f) "/layouts/".

(** Whether the usage excerpt mentions the component under either name. *)
Definition component_used (allUsages f : string) : bool :=
  let componentName := basename_ext f (extname f) in
  includes allUsages componentName || includes allUsages (kebab componentName).

(** The body of [componentFiles.forEach(f => ...)]: the finding pushed
    for [f], if any. *)
Definition component_finding (allUsages f : string) : option UnusedComponent :=
  let rel := relative repoPath f in
  let filename := basename f in
  let componentName := basename_ext f (extname f) in
  if String.eqb (toLowerCase componentName) "index" then None
  else if includes rel "/pages/" then None
  else if includes rel "/layouts/" then None
  else
    let kebabName := kebab componentName in
    if negb (includes allUsages componentName) && negb (includes allUsages kebabName)
    then Some (mkUnusedComponent rel filename componentName)
    else None.

Definition unusedComponents_of (componentFiles : list string) (allUsages : string)
  : list UnusedComponent :=
  slice0 25 (filter_some (map (component_finding allUsages) componentFiles)).

Definition find_components_cmd : command :=
  Sh ("find " ++ repoPath ++ " -type f -name " ++ quoted "*.vue" ++ " -path "
      ++ quoted "*/components/*"
      ++ " 2>/dev/null | grep -v node_modules | grep -v dist | head -100").

Definition grep_usages_cmd : command :=
  Sh ("grep -r -h -E " ++ quoted "(import.*from|<[A-Z])" ++ " " ++ repoPath
      ++ " 2>/dev/null | grep -v node_modules | head -1000").

Definition scan_components : M (list UnusedComponent) :=
  try_catch
    (out <- exec find_components_cmd ;;
     allUsages <- try_catch (exec grep_usages_cmd) (ret EmptyString) ;;
     ret (unusedComponents_of (nonblank_lines out) allUsages))
    (ret []).

(** *** Unused exports *)

Fixpoint strip_prefix (p s : list ascii) : option (list ascii) :=
  match p, s with
  | [], _ => Some s
  | a :: p', b :: s' => if Ascii.eqb a b then strip_prefix p' s' else None
  | _ :: _, [] => None
  end.

(** [(const|function|class)] at the head of [s]: the keyword and the rest. *)
Definition keyword_at (s : list ascii) : option (list ascii * list ascii) :=
  let try_kw (kw : string) :=
    match strip_prefix (list_ascii_of_string kw) s with
    | Some rest => Some (list_ascii_of_string kw, rest)
    | None => None
    end in
  match try_kw "const" with
  | Some r => Some r
  | None => match try_kw "function" with
            | Some r => Some r
            | None => try_kw "class"
            end
  end.

(** [/export\s+(const|function|class)\s+(\w+)/] anchored at the head of
    [s]: the text matched and the name captured last. *)
Definition export_at (s : list ascii) : option (list ascii * list ascii) :=
  match strip_prefix (list_ascii_of_string "export") s with
  | None => None
  | Some s1 =>
      match takeWhile is_space s1, keyword_at (dropWhile is_space s1) with
      | (_ :: _) as ws1, Some (kw, s3) =>
          match takeWhile is_space s3, takeWhile is_word (dropWhile is_space s3) with
          | (_ :: _) as ws2, (_ :: _) as nm =>
              Some ((list_ascii_of_string "export" ++ ws1 ++ kw ++ ws2 ++ nm)%list, nm)
          | _, _ => None
          end
      | _, _ => None
      end
  end.

(** [content.match(/.../g) || []]: the matches from left to right, each
    search resuming where the previous match ended. *)
Fixpoint export_matches_from (skip : nat) (s : list ascii) : list string :=
  match s with
  | [] => []
  | _ :: r =>
      match skip with
      | S k => export_matches_from k r
      | O =>
          match export_at s with
          | Some (m, _) =>
              string_of_list_ascii m :: export_matches_from (List.length m - 1) r
          | None => export_matches_from 0 r
          end
      end
  end.

Definition export_matches (content : string) : list string :=
  export_matches_from 0 (list_ascii_of_string content).

(** [exp.match(/export\s+(?:const|function|class)\s+(\w+)/)]: the name
    captured by the leftmost match. *)
Fixpoint export_name_in (s : list ascii) : option string :=
  match export_at s with
  | Some (_, nm) => Some (string_of_list_ascii nm)
  | None => match s with
            | [] => None
            | _ :: r => export_name_in r
            end
  end.

Definition export_name (exp : string) : option string :=
  export_name_in (list_ascii_of_string exp).

Definition entry_points : list string :=
  ["index"; "main"; "app"; "server"; "cli"; "config"; "env"; "types"; "constants"].

(** The body of [exportMatches.slice(0, 5).forEach(exp => ...)]. *)
Definition export_finding (allImports f exp : string) : option UnusedExport :=
  let base := basename_ext f (extname f) in
  match export_name exp with
  | Some exportName =>
      if startsWith exportName "use" then None
      else if (String.length exportName <? 4)%nat then None
      else if negb (includes allImports exportName) && negb (includes allImports base)
      then Some (mkUnusedExport (relative repoPath f) (basename f) exportName)
      else None
  | None => None
  end.

(** The body of [tsFiles.slice(0, 30).forEach(f => ...)]: the findings
    pushed for [f]; reading the file may fail, which pushes nothing. *)
Definition file_exports (allImports f : string) : M (list UnusedExport) :=
  let base := basename_ext f (extname f) in
  if mem (toLowerCase base) entry_points then ret []
  else
    try_catch
      (content <- readFile f ;;
       ret (filter_some (map (export_finding allImports f)
                      (slice0 5 (export_matches content)))))
      (ret []).

Fixpoint concatM {A B} (f : A -> M (list B)) (l : list A) : M (list B) :=
  match l with
  | [] => ret []
  | a :: r => bs <- f a ;; rest <- concatM f r ;; ret (bs ++ rest)%list
  end.

Definition find_ts_cmd : command :=
  Sh ("find " ++ repoPath ++ " -type f -name " ++ quoted "*.ts" ++ " -path "
      ++ quoted "*/src/*"
      ++ " 2>/dev/null | grep -v node_modules | grep -v dist | grep -v "
      ++ quoted ".d.ts" ++ " | grep -v " ++ quoted ".test." ++ " | grep -v "
      ++ quoted ".spec." ++ " | grep -v " ++ quoted "/pages/" ++ " | grep -v "
      ++ quoted "/api/" ++ " | head -50").

Definition grep_imports_cmd : command :=
  Sh ("grep -r -h " ++ dq ++ "^import\|from ['" ++ dq ++ "]" ++ dq ++ " " ++ repoPath
      ++ " 2>/dev/null | grep -v node_modules | head -500").

Definition scan_exports : M (list UnusedExport) :=
  try_catch
    (out <- exec find_ts_cmd ;;
     allImports <- try_catch (exec grep_imports_cmd) (ret EmptyString) ;;
     found <- concatM (file_exports allImports) (slice0 30 (nonblank_lines out)) ;;
     ret (slice0 20 found))
    (ret []).

(** *** Orphaned files *)

Definition orphan_skip : list string :=
  ["index"; "main"; "app"; "server"; "env"; "config"; "types"; "utils"].

Definition orphan_finding (allRefs f : string) : option UnusedFile :=
  let base := basename_ext f (extname f) in
  if mem (toLowerCase base) orphan_skip then None
  else if startsWith base "_" then None
  else if negb (includes allRefs base)
  then Some (mkUnusedFile (relative repoPath f) (basename f))
  else None.

Definition find_src_cmd : command :=
  Sh ("find " ++ repoPath ++ " -type f \( -name " ++ quoted "*.ts" ++ " -o -name "
      ++ quoted "*.js" ++ " \) -path " ++ quoted "*/src/*"
      ++ " 2>/dev/null | grep -v node_modules | grep -v dist | grep -v "
      ++ quoted ".d.ts" ++ " | grep -v " ++ quoted ".test." ++ " | grep -v "
      ++ quoted "/pages/" ++ " | grep -v " ++ quoted "/api/" ++ " | head -80").

Definition grep_refs_cmd : command :=
  Sh ("grep -r -h -E " ++ dq ++ "(from ['" ++ dq ++ "]|import |require\()" ++ dq
      ++ " " ++ repoPath ++ " 2>/dev/null | grep -v node_modules | head -800").

Definition scan_orphans : M (list UnusedFile) :=
  try_catch
    (out <- exec find_src_cmd ;;
     allRefs <- try_catch (exec grep_refs_cmd) (ret EmptyString) ;;
     ret (slice0 20 (filter_some (map (orphan_finding allRefs) (nonblank_lines out)))))
    (ret []).

(** The three scans, one after the other. *)
Definition deadCode : M DeadCodeReport :=
  comps <- scan_components ;;
  exps <- scan_exports ;;
  orphans <- scan_orphans ;;
  ret (mkDeadCode comps orphans exps).

End Scans.

End DeadCode.

Module DeadCodeSpec.
Import JsString Path JsArray Host DeadCode.

Section Spec.
Variable repoPath : string.
Variable relative : string -> string -> string.

(** The finding that reports the candidate [f]. *)
Definition finding_of (f : string) : UnusedComponent :=
  mkUnusedComponent (relative repoPath f) (basename f) (basename_ext f (extname f)).

(** [f] passes the skip-list and is absent from the usage excerpt under
    both of its names. *)
Definition qualifies (allUsages f : string) : bool :=
  negb (component_skipped repoPath relative f) && negb (component_used allUsages f).

(** What [execSync] printed for [cmd], with [dflt] standing for a failure
    that a [catch] absorbs. *)
Definition output_or (w : World) (cmd : command) (dflt : string) : string :=
  match execSync w cmd with
  | Some out => out
  | None => dflt
  end.

(** The candidate files a listing command produced; none when it failed. *)
Definition listed (w : World) (cmd : command) : list string :=
  match execSync w cmd with
  | Some out => nonblank_lines out
  | None => []
  end.

(** The findings one candidate file of the export scan contributes. *)
Definition file_findings (w : World) (allImports f : string) : list UnusedExport :=
  if mem (toLowerCase (basename_ext f (extname f))) entry_points then []
  else match readFileSync w f with
       | Some content =>
           filter_some (map (export_finding repoPath relative allImports f)
                            (slice0 5 (export_matches content)))
       | None => []
       end.

End Spec.

End DeadCodeSpec.

(** ** Compliance scorer *)

Module Compliance.
Import JsString Path JsArray JsNumber Host.
Local Open Scope host_scope.

(** The keys of the [compliance] object, in the order of the literal;
    [complianceItems] of the HTML generator lists the same keys in the
    same order. *)
Inductive key :=
| AgeVerification | ContentModeration | IdentityVerification
| ReportingMechanism | RecordKeeping | UserSafety | PaymentCompliance.

Definition keys : list key :=
  [AgeVerification; ContentModeration; IdentityVerification;
   ReportingMechanism; RecordKeeping; UserSafety; PaymentCompliance].

(** The substrings of the lower-cased path that attribute a matched file
    to a category. *)
Definition stems (k : key) : list string :=
  match k with
  | AgeVerification => ["age"; "sumsub"; "onfido"; "birth"]
  | ContentModeration => ["moderat"; "nsfw"; "safety"]
  | IdentityVerification => ["kyc"; "identity"; "verif"]
  | ReportingMechanism => ["report"; "flag"; "abuse"]
  | RecordKeeping => ["2257"; "record"]
  | UserSafety => ["block"; "mute"; "2fa"; "otp"; "security"]
  | PaymentCompliance => ["stripe"; "payout"; "payment"; "chargeback"]
  end.

Record Indicator := mkIndicator {
  found : bool;
  files : list string;
  notes : list string
}.

Record Compliance := mkCompliance {
  ageVerification : Indicator;
  contentModeration : Indicator;
  identityVerification : Indicator;
  reportingMechanism : Indicator;
  recordKeeping : Indicator;
  userSafety : Indicator;
  paymentCompliance : Indicator
}.

Definition get (c : Compliance) (k : key) : Indicator :=
  match k with
  | AgeVerification => ageVerification c
  | ContentModeration => contentModeration c
  | IdentityVerification => identityVerification c
  | ReportingMechanism => reportingMechanism c
  | RecordKeeping => recordKeeping c
  | UserSafety => userSafety c
  | PaymentCompliance => paymentCompliance c
  end.

Definition set (k : key) (i : Indicator) (c : Compliance) : Compliance :=
  match k with
  | AgeVerification =>
      mkCompliance i (contentModeration c) (identityVerification c)
        (reportingMechanism c) (recordKeeping c) (userSafety c) (paymentCompliance c)
  | ContentModeration =>
      mkCompliance (ageVerification c) i (identityVerification c)
        (reportingMechanism c) (recordKeeping c) (userSafety c) (paymentCompliance c)
  | IdentityVerification =>
      mkCompliance (ageVerification c) (contentModeration c) i
        (reportingMechanism c) (recordKeeping c) (userSafety c) (paymentCompliance c)
  | ReportingMechanism =>
      mkCompliance (ageVerification c) (contentModeration c) (identityVerification c)
        i (recordKeeping c) (userSafety c) (paymentCompliance c)
  | RecordKeeping =>
      mkCompliance (ageVerification c) (contentModeration c) (identityVerification c)
        (reportingMechanism c) i (userSafety c) (paymentCompliance c)
  | UserSafety =>
      mkCompliance (ageVerification c) (contentModeration c) (identityVerification c)
        (reportingMechanism c) (recordKeeping c) i (paymentCompliance c)
  | PaymentCompliance =>
      mkCompliance (ageVerification c) (contentModeration c) (identityVerification c)
        (reportingMechanism c) (recordKeeping c) (userSafety c) i
  end.

Definition blank : Indicator := mkIndicator false [] [].

Definition initial : Compliance :=
  mkCompliance blank blank blank blank blank blank blank.

(** The test that guards the update of category [k] for a matched file:
    one of the stems occurs in the lower-cased path. *)
Definition attributed (k : key) (file : string) : bool :=
  existsb (fun stem => includes (toLowerCase file) stem) (stems k).

(** [found = true; if (!files.includes(relFile)) files.push(relFile)] *)
Definition record_file (relFile : string) (i : Indicator) : Indicator :=
  mkIndicator true
    (if mem relFile (files i) then files i else (files i ++ [relFile])%list)
    (notes i).

Definition sumsub_note : string :=
  "SumSub integration detected (industry-standard KYC)".

Section Scan.
Variable repoPath : string.
Variable relative : string -> string -> string.

(** The body of [files.forEach(file => ...)]: seven tests in a row. *)
Definition on_file (c : Compliance) (file : string) : Compliance :=
  let relFile := relative repoPath file in
  fold_left
    (fun c k => if attributed k file then set k (record_file relFile (get c k)) c else c)
    keys c.

Definition scan_files (matched : list string) : Compliance :=
  fold_left on_file matched initial.

Definition add_notes (c : Compliance) : Compliance :=
  if existsb (fun f => includes (toLowerCase f) "sumsub") (files (ageVerification c))
  then set AgeVerification
         (mkIndicator (found (ageVerification c)) (files (ageVerification c))
                      (notes (ageVerification c) ++ [sumsub_note])%list) c
  else c.

(** What the [try] block makes of the output of the search. *)
Definition scan_output (out : string) : Compliance :=
  let allComplianceMatches := trim out in
  add_notes
    (if truthy allComplianceMatches
     then scan_files (nonblank_lines allComplianceMatches)
     else initial).

(** [compliance[key].files = compliance[key].files.slice(0, 8)] for every
    key. *)
Definition limit_files (c : Compliance) : Compliance :=
  fold_left
    (fun c k => set k (mkIndicator (found (get c k)) (slice0 8 (files (get c k)))
                                   (notes (get c k))) c)
    keys c.

Definition grep_compliance_cmd : command :=
  Sh ("grep -r -i -l -E "
      ++ DeadCode.quoted ("(ageverif|verifyage|sumsub|onfido|birthdate|kyc|moderat|nsfw|"
                 ++ "reportuser|reportcontent|blockuser|2257|stripe.*connect|payout|"
                 ++ "chargeback|2fa|otp|mfa)")
      ++ " " ++ repoPath
      ++ " 2>/dev/null | grep -v node_modules | grep -v dist | grep -v "
      ++ DeadCode.quoted ".git" ++ " | head -100").

Definition compliance : M Compliance :=
  c <- try_catch (out <- exec grep_compliance_cmd ;; ret (scan_output out))
                 (ret initial) ;;
  ret (limit_files c).

End Scan.

(** *** The score shown on the security page *)

(** [data.compliance || {}], looked up by key. *)
Definition compliance_object (data_compliance : option Compliance) (k : key)
  : option Indicator :=
  match data_compliance with
  | Some c => Some (get c k)
  | None => None
  end.

Definition complianceItems : list key := keys.

(** [(compliance[item.key] || {}).found] as a condition. *)
Definition item_found (compliance : key -> option Indicator) (k : key) : bool :=
  match compliance k with
  | Some i => found i
  | None => false
  end.

Definition totalChecks : Z := Z.of_nat (List.length complianceItems).

Definition passedChecks (compliance : key -> option Indicator) : Z :=
  Z.of_nat (List.length (filter (item_found compliance) complianceItems)).

Definition complianceScore (data_compliance : option Compliance) : Z :=
  percent (passedChecks (compliance_object data_compliance)) totalChecks.

(** The matched files the search hands to the scan; none when it fails. *)
Definition matched_files (repoPath : string) (w : World) : list string :=
  match execSync w (grep_compliance_cmd repoPath) with
  | Some out => nonblank_lines (trim out)
  | None => []
  end.

(** The indicators reported for a list of matched files. *)
Definition scan_result (repoPath : string) (relative : string -> string -> string)
           (matched : list string) : Compliance :=
  limit_files (add_notes (scan_files repoPath relative matched)).

(** The number of categories found in a scan result. *)
Definition found_count (c : Compliance) : Z :=
  passedChecks (compliance_object (Some c)).

(** The categories a file would newly mark as found. *)
Definition newly_found (c : Compliance) (file : string) : list key :=
  filter (fun k => attributed k file && negb (found (get c k))) keys.

End Compliance.

(** *** The score, as the specification words it *)

Module ComplianceSpec.
Import Compliance.

Definition flag (b : bool) : Z := if b then 1 else 0.

(** The number of categories marked as found, counted category by
    category over the seven categories of the taxonomy. *)
Definition categories_found (c : Compliance) : Z :=
  flag (found (ageVerification c)) + flag (found (contentModeration c)) +
  flag (found (identityVerification c)) + flag (found (reportingMechanism c)) +
  flag (found (recordKeeping c)) + flag (found (userSafety c)) +
  flag (found (paymentCompliance c)).

End ComplianceSpec.

(** ** The run: [runAnalysis], [runWithAI] and the top level of the script

    Steps whose result no claim depends on are kept for their effects
    only: which collaborators they call, in which order, and where their
    [try]/[catch] blocks stand.  Calls to [fs.existsSync] that merely pick
    a label cannot fail and are left out. *)

Module Run.
Import JsString Path JsArray Json Host.
Local Open Scope host_scope.

(** The command line, once parsed, and the two values the script takes
    from the clock and from its own location. *)
Record Config := mkConfig {
  helpFlag : bool;
  cloneUrl : option string;
  aiProvider : option string;
  repoArg : string;                       (* first plain argument, or [.] *)
  clonePath : string;                     (* [/tmp/on-bored-<name>-<now>] *)
  outputDir : string;
  monthWindows : list (string * string)   (* the six [--after]/[--before] pairs *)
}.

(** The part of [data] the embedding interprets.  The last three fields
    are [undefined] ([None]) until the AI enhancement sets them. *)
Record Report := mkReport {
  contributors : list Contributors.Contributor;
  topFiles : list Churn.FileChurn;
  readme : option string;
  deadCode : DeadCode.DeadCodeReport;
  compliance : Compliance.Compliance;
  openIssues : Json.value;
  aiSummary : option Json.value;
  aiKeyThings : option Json.value;
  aiGotchas : option Json.value
}.

(** [try { ... } catch (e) {}] around effects. *)
Definition attempt (m : M unit) : M unit := try_catch m (ret tt).

Definition ignore {A} (m : M A) : M unit := _ <- m ;; ret tt.

Fixpoint forEach {A} (l : list A) (f : A -> M unit) : M unit :=
  match l with
  | [] => ret tt
  | a :: r => f a ;;; forEach r f
  end.

(** *** Reading parsed values *)

(** [v.name] for a name that no prototype defines: a TypeError on
    [null], [undefined] on a primitive, on an array and on an object
    without that property. *)
Definition get (name : string) (v : Json.value) : M (option Json.value) :=
  match v with
  | JNull => throw
  | JObj fields => ret (field name fields)
  | _ => ret None
  end.

(** [x?.name], for such a name. *)
Definition get_opt (name : string) (x : option Json.value) : option Json.value :=
  match x with
  | Some (JObj fields) => field name fields
  | _ => None
  end.

(** [x?.[0]] *)
Definition first_opt (x : option Json.value) : option Json.value :=
  match x with
  | Some (JArr items) => hd_error items
  | Some (JStr (String c _)) => Some (JStr (String c EmptyString))
  | Some (JObj fields) => field "0" fields
  | _ => None
  end.

(** [x || ''] *)
Definition or_empty (x : option Json.value) : Json.value :=
  match x with
  | Some v => if truthy_value v then v else JStr EmptyString
  | None => JStr EmptyString
  end.

(** [x || s] for a string [s] of the analysis, which the embedding does
    not keep: the value when it is truthy, [None] for the string. *)
Definition or_string (x : option Json.value) : option Json.value :=
  match x with
  | Some v => if truthy_value v then Some v else None
  | None => None
  end.

(** [v.length] *)
Definition length_of (v : Json.value) : M (option Json.value) :=
  match v with
  | JNull => throw
  | JStr s => ret (Some (of_nat (String.length s)))
  | JArr items => ret (Some (of_nat (List.length items)))
  | JObj fields => ret (field "length" fields)
  | JBool _ | JNum _ => ret None
  end.

(** [x > 0] *)
Definition gt_zero (x : option Json.value) : M bool :=
  match x with
  | None | Some JNull => ret false
  | Some (JBool b) => ret b
  | Some (JNum n) => ret (number_positive n)
  | Some v => if stringable v then compare_positive v else throw
  end.

(** A value substituted in a template literal, [None] standing for
    [undefined] and for the strings of the analysis: its conversion to a
    string may throw. *)
Definition template (x : option Json.value) : M unit :=
  match x with
  | Some v => if stringable v then ret tt else throw
  | None => ret tt
  end.

(** [v.map(f)]: a TypeError unless [v] is an array. *)
Definition call_map (v : Json.value) (f : Json.value -> M unit) : M unit :=
  match v with
  | JArr items => forEach items f
  | _ => throw
  end.

(** *** The pages, as far as they read parsed values *)

(** [formatSummary(text)]: four calls of [replace] on a truthy text. *)
Definition formatSummary (text : option Json.value) : M unit :=
  match text with
  | Some (JStr _) | None => ret tt
  | Some _ => throw
  end.

(** [data.aiKeyThings ? ...data.aiKeyThings.map(t => `<li>${t}</li>`)... : ''],
    and the same for [data.aiGotchas]. *)
Definition ai_items (x : option Json.value) : M unit :=
  match x with
  | Some v => if truthy_value v then call_map v (fun t => template (Some t)) else ret tt
  | None => ret tt
  end.

(** [generateViewer(data)]: the summary box. *)
Definition generateViewer (data : Report) : M unit :=
  formatSummary (or_string (aiSummary data)) ;;;
  ai_items (aiKeyThings data) ;;;
  ai_items (aiGotchas data).

(** The callback of [data.openIssues.map]: [#${i.number}] and
    [${i.title}]. *)
Definition render_issue (i : Json.value) : M unit :=
  number <- get "number" i ;;
  template number ;;;
  title <- get "title" i ;;
  template title.

(** [generateHealthReport(data)]: [issuesHTML], then the count of open
    issues in the page. *)
Definition generateHealthReport (data : Report) : M unit :=
  len <- length_of (openIssues data) ;;
  some <- gt_zero len ;;
  (if some then call_map (openIssues data) render_issue else ret tt) ;;;
  count <- length_of (openIssues data) ;;
  template count.

(** [generateNewDevFlow(data)]: the welcome banner and the two lists. *)
Definition generateNewDevFlow (data : Report) : M unit :=
  template (or_string (aiSummary data)) ;;;
  ai_items (aiKeyThings data) ;;;
  ai_items (aiGotchas data).

(** [response.match(/\{[\s\S]*\}/)]: from the first opening brace to the
    last closing brace after it. *)
Definition braces (response : string) : option string :=
  match dropWhile (fun c => negb (Ascii.eqb c "{")) (list_ascii_of_string response) with
  | [] => None
  | lbrace :: rest =>
      match dropWhile (fun c => negb (Ascii.eqb c "}")) (List.rev rest) with
      | [] => None
      | closed => Some (string_of_list_ascii (lbrace :: List.rev closed))
      end
  end.

(** [data] with the three fields the enhancement assigns. *)
Definition with_ai (data : Report) (summary keyThings gotchas : option Json.value)
  : Report :=
  mkReport (contributors data) (topFiles data) (readme data) (deadCode data)
           (compliance data) (openIssues data) summary keyThings gotchas.

Section Analysis.
Variable cfg : Config.
(** Node's [path.join] and [path.relative]. *)
Variable join : string -> string -> string.
Variable relative : string -> string -> string.
(** The repository analysed: the argument, or the fresh clone. *)
Variable repoPath : string.

Definition checkFile (file : string) : M bool := exists_ (join repoPath file).

(** [scanPackageJson(pkgPath)]: reading and parsing sit in one [try]. *)
Definition scanPackageJson (pkgPath : string) : M unit :=
  attempt (ignore (readFile pkgPath)).

Definition basic_info : M unit :=
  ignore (git "remote get-url origin") ;;;
  ignore (git "branch --show-current") ;;;
  ignore (git "log --reverse --format=%ci | head -1") ;;;
  ignore (git "log -1 --format=%ci").

Definition commit_stats : M unit :=
  ignore (git "log --oneline") ;;;
  ignore (git "log --oneline --grep=fix").

Definition months : M unit :=
  forEach (monthWindows cfg) (fun win =>
    let range := "log --oneline --after=" ++ DeadCode.quoted (fst win)
                 ++ " --before=" ++ DeadCode.quoted (snd win) in
    ignore (git range) ;;; ignore (git (range ++ " --grep=fix"))).

(** The pattern lists of [categories]. *)
Definition category_patterns : list (list string) :=
  [["auth"; "login"; "signup"; "session"; "oauth"; "jwt"; "password"];
   ["ui"; "modal"; "style"; "css"; "component"; "layout"; "button"; "form"];
   ["api"; "endpoint"; "route"; "server"; "handler"; "controller"];
   ["database"; "db"; "migration"; "schema"; "model"; "query"; "sql"];
   ["test"; "spec"; "jest"; "vitest"; "cypress"; "playwright"];
   ["ci"; "cd"; "docker"; "deploy"; "build"; "pipeline"; "workflow"];
   ["doc"; "readme"; "comment"; "changelog"];
   ["dependency"; "package"; "upgrade"; "bump"; "npm"; "yarn"; "pnpm"]].

Definition category_stats : M unit :=
  forEach category_patterns (fun pats =>
    ignore (git ("log --oneline -E --grep=" ++ DeadCode.quoted (String.concat "|" pats)
                 ++ " -i"))).

Definition tech_stack : M unit :=
  (b <- checkFile "package.json" ;;
   if b then scanPackageJson (join repoPath "package.json") else ret tt) ;;;
  forEach ["website"; "app"; "frontend"; "backend"; "web"; "client"; "server";
           "packages/web"; "packages/app"]
    (fun subDir =>
       let pkgPath := join (join repoPath subDir) "package.json" in
       b <- exists_ pkgPath ;; if b then scanPackageJson pkgPath else ret tt) ;;;
  attempt (ignore (exec (Site "pyFiles"))) ;;;
  attempt (ignore (exec (Site "dockerFiles"))) ;;;
  attempt (ignore (exec (Site "flutterFiles"))).

(** The README loop: the first name that exists is read, outside any
    [try], and the loop stops there. *)
Fixpoint read_readme (readmePaths : list string) : M (option string) :=
  match readmePaths with
  | [] => ret None
  | readmePath :: rest =>
      b <- checkFile readmePath ;;
      if b then content <- readFile (join repoPath readmePath) ;; ret (Some content)
      else read_readme rest
  end.

Definition readmePaths : list string :=
  ["README.md"; "readme.md"; "README.MD"; "Readme.md"].

Definition api_endpoints : M unit :=
  attempt (ignore (exec (Site "jsApiFiles")) ;;; ignore (exec (Site "pyRoutes")) ;;;
           ignore (exec (Site "rsRoutes")) ;;; ignore (exec (Site "goRoutes"))).

Definition db_schemas : M unit := attempt (ignore (exec (Site "schemaFiles"))).

(** The entry-point files found, kept for the sample gathered at the
    end; none unless both listings succeed. *)
Definition pages : M (list string) :=
  try_catch
    (_ <- exec (Site "pageFiles") ;;
     entryPoints <- exec (Site "entryPoints") ;;
     ret (nonblank_lines entryPoints))
    (ret []).

Definition modules : M unit :=
  attempt (ignore (exec (Site "pyPackages")) ;;; ignore (exec (Site "rsModules")) ;;;
           ignore (exec (Site "goPackages"))).

Definition components : M unit :=
  attempt (ignore (exec (Site "compFiles")) ;;; ignore (exec (Site "pyClasses")) ;;;
           ignore (exec (Site "rsStructs"))).

Definition functions : M unit :=
  attempt
    (funcDirs <- exec (Site "funcDirs") ;;
     forEach (nonblank_lines funcDirs) (fun funcDir =>
       attempt (ignore (readdir funcDir))) ;;;
     ignore (exec (Site "pyFuncs")) ;;; ignore (exec (Site "rsFuncs")) ;;;
     ignore (exec (Site "goFuncs")) ;;; ignore (exec (Site "jsFuncs"))).

Definition env_vars : M unit :=
  attempt
    (envFiles <- exec (Site "envFiles") ;;
     forEach (nonblank_lines envFiles) (fun envFile => attempt (ignore (readFile envFile)))).

Definition secret_names : list string :=
  ["Hardcoded API Key"; "Hardcoded Secret"; "Hardcoded Password";
   "Hardcoded Private Key"; "Hardcoded Bearer Token"].

Definition injection_names : list string :=
  ["Potential SQL/NoSQL Injection"; "Eval Usage (Code Injection Risk)";
   "innerHTML Assignment (XSS Risk)"; "Dangerous HTML Injection"; "Vue v-html (XSS Risk)"].

Definition sensitiveFiles : list string :=
  [".env"; ".env.local"; ".env.production"; "credentials.json";
   "serviceAccount.json"; "private.key"].

Definition security : M unit :=
  attempt (forEach secret_names (fun name =>
             attempt (ignore (exec (Site ("secret: " ++ name)))))) ;;;
  attempt (forEach injection_names (fun name =>
             attempt (ignore (exec (Site ("injection: " ++ name)))))) ;;;
  attempt (forEach sensitiveFiles (fun file =>
             attempt (found <- exec (Site ("sensitive: " ++ file)) ;;
                      if truthy (trim found)
                      then ignore (git ("check-ignore "
                                        ++ DeadCode.quoted (relative repoPath (trim found))))
                      else ret tt))).

(** [openIssues]: what [JSON.parse] reads from the answer of [gh], and
    the empty list when [gh] fails or its answer is not JSON. *)
Definition open_issues : M Json.value :=
  try_catch (issuesRaw <- exec (Site "issuesRaw") ;; parse issuesRaw)
            (ret (JArr [])).

(** [sampleCode]: up to three entry files, each read under its own
    [try], and only when an AI provider was asked for. *)
Definition sample_code (entries : list string) : M unit :=
  match aiProvider cfg with
  | Some _ =>
      forEach (slice0 3 entries) (fun f =>
        attempt (let fullPath := join repoPath (relative repoPath f) in
                 b <- exists_ fullPath ;;
                 if b then ignore (readFile fullPath) else ret tt))
  | None => ret tt
  end.

Definition runAnalysis : M Report :=
  (* Ensure we're in a git repo *)
  try_catch (ignore (exec (Git "rev-parse --git-dir"))) (process_exit 1) ;;;
  basic_info ;;;
  commit_stats ;;;
  contributors <- Contributors.contributors ;;
  months ;;;
  topFiles <- Churn.topFiles ;;
  category_stats ;;;
  tech_stack ;;;
  readme <- read_readme readmePaths ;;
  api_endpoints ;;;
  db_schemas ;;;
  entries <- pages ;;
  modules ;;;
  components ;;;
  functions ;;;
  env_vars ;;;
  deadCode <- DeadCode.deadCode repoPath relative ;;
  security ;;;
  compliance <- Compliance.compliance repoPath relative ;;
  openIssues <- open_issues ;;
  sample_code entries ;;;
  ret (mkReport contributors topFiles readme deadCode compliance openIssues
                None None None).

(** [callOllama(prompt)]: [json.response || '']. *)
Definition callOllama : M Json.value :=
  body <- http Ollama ;;
  json <- parse body ;;
  response <- get "response" json ;;
  ret (or_empty response).

(** [callOpenAI(prompt)]: [json.choices?.[0]?.message?.content || '']. *)
Definition callOpenAI : M Json.value :=
  apiKey <- api_key ;;
  if negb apiKey then throw
  else
    body <- http OpenAI ;;
    json <- parse body ;;
    choices <- get "choices" json ;;
    ret (or_empty (get_opt "content" (get_opt "message" (first_opt choices)))).

(** [callAI(prompt)]; [None] is [null]. *)
Definition callAI : M (option Json.value) :=
  match aiProvider cfg with
  | None => ret None
  | Some provider =>
      try_catch
        (if String.eqb (toLowerCase provider) "ollama"
         then v <- callOllama ;; ret (Some v)
         else if String.eqb (toLowerCase provider) "openai"
         then v <- callOpenAI ;; ret (Some v)
         else ret None)
        (ret None)
  end.

(** [enhanceWithAI(data, sampleCode)]: the prompt is built from strings
    and lists of the analysis and cannot throw. *)
Definition enhanceWithAI (data : Report) : M Report :=
  match aiProvider cfg with
  | None => ret data
  | Some _ =>
      response <- callAI ;;
      match response with
      | Some v =>
          if truthy_value v then
            try_catch
              (match v with
               | JStr text =>
                   match braces text with
                   | Some jsonMatch =>
                       aiData <- parse jsonMatch ;;
                       summary <- get "summary" aiData ;;
                       keyThings <- get "keyThings" aiData ;;
                       gotchas <- get "gotchas" aiData ;;
                       ret (with_ai data summary keyThings gotchas)
                   | None => ret data
                   end
               | _ => throw
               end)
              (ret data)
          else ret data
      | None => ret data
      end
  end.

(** [generateHTML(data, outputDir)]: five pages, each generated and then
    written.  The flow page and the security page read only what the
    analysis built. *)
Definition generateHTML (data : Report) : M unit :=
  generateViewer data ;;;
  writeFile (join (outputDir cfg) "index.html") ;;;
  generateHealthReport data ;;;
  writeFile (join (outputDir cfg) "health-report.html") ;;;
  writeFile (join (outputDir cfg) "flow.html") ;;;
  writeFile (join (outputDir cfg) "security.html") ;;;
  generateNewDevFlow data ;;;
  writeFile (join (outputDir cfg) "new-dev.html").

(** [runWithAI] *)
Definition runWithAI : M Report :=
  data <- runAnalysis ;;
  enhancedData <- enhanceWithAI data ;;
  writeFile (join (outputDir cfg) "data.json") ;;;
  generateHTML enhancedData ;;;
  ret enhancedData.

End Analysis.

Definition clone_cmd (cfg : Config) (url : string) : command :=
  Sh ("git clone --depth=100 " ++ DeadCode.quoted url ++ " "
      ++ DeadCode.quoted (clonePath cfg)).

(** The script from top to bottom, up to the end of the first run: help,
    the clone handler, then [runWithAI().catch(...)]. *)
Definition main (cfg : Config) (join relative : string -> string -> string) : M Report :=
  if helpFlag cfg then process_exit 0
  else
    repoPath <- match cloneUrl cfg with
                | Some url =>
                    try_catch (_ <- exec (clone_cmd cfg url) ;; ret (clonePath cfg))
                              (process_exit 1)
                | None => ret (repoArg cfg)
                end ;;
    try_catch (runWithAI cfg join relative repoPath) (process_exit 1).

(** *** The conditions the outcome of a run depends on *)








(** One of the pages that read parsed values throws on [data]. *)
Definition pages_throw (data : Report) (w : World) : Prop :=
  generateViewer data w = Thrown \/ generateHealthReport data w = Thrown \/
  generateNewDevFlow data w = Thrown.


(** An entry of the issue list whose number and title can be printed. *)
Definition printable_issue (i : Json.value) : bool :=
  match i with
  | JNull => false
  | JObj fields =>
      match field "number" fields, field "title" fields with
      | Some n, Some t => stringable n && stringable t
      | Some n, None => stringable n
      | None, Some t => stringable t
      | None, None => true
      end
  | _ => true
  end.

(** The values of [aiSummary] on which [formatSummary] throws: the truthy
    ones that are not strings. *)
Definition summary_breaks (x : option Json.value) : bool :=
  match or_string x with
  | Some (JStr _) | None => false
  | Some _ => true
  end.

(** The values of [aiKeyThings] and of [aiGotchas] on which the viewer
    throws: the truthy ones that are not arrays, and the arrays with an
    item that cannot be converted to a string. *)
Definition items_break (x : option Json.value) : bool :=
  match x with
  | Some v =>
      truthy_value v &&
      match v with
      | JArr items => negb (forallb stringable items)
      | _ => true
      end
  | None => false
  end.

Definition breaks_viewer (data : Report) : bool :=
  summary_breaks (aiSummary data) || items_break (aiKeyThings data)
  || items_break (aiGotchas data).

(** The answers of [gh] on which the health page throws. *)
Definition breaks_health (w : World) (issues : Json.value) : bool :=
  match issues with
  | JNull => true
  | JBool _ | JNum _ => false
  | JStr s => truthy s
  | JArr items => existsb (fun i => negb (printable_issue i)) items
  | JObj fields =>
      match field "length" fields with
      | None | Some JNull => false
      | Some (JBool b) => b
      | Some (JNum n) => number_positive n
      | Some v => if stringable v then positive w v else true
      end
  end.

End Run.

(** ** Sample inputs *)

Module Samples.

Definition lf : string := String JsString.newline EmptyString.

(** One commit touching a single JavaScript file. *)
Definition history_js : list string :=
  ["1a2b3c4 add helper"; "src/util.js"].

(** JavaScript touched most, with one Vue component besides. *)
Definition history_js_vue : list string :=
  ["1a2b3c4 add helper"; "src/util.js"; "src/format.js"; "src/App.vue"].

(** Only workflow files. *)
Definition history_yml : list string :=
  ["5d6e7f8 pipeline"; ".github/workflows/build.yml"].

(** [path.relative] for a path [to] that lies under the directory [from]
    and is written with that prefix, as [find] prints it. *)
Definition under (from to : string) : string :=
  if JsString.startsWith to (from ++ "/")
  then substring (S (String.length from)) (String.length to - S (String.length from)) to
  else to.

(** Twenty-six component files, [Ca.vue] to [Cz.vue]. *)
Definition components26 : list string :=
  map (fun c => "/r/web/components/C" ++ String c ".vue")
      (list_ascii_of_string "abcdefghijklmnopqrstuvwxyz").

(** A search that matched two files, both on payment stems only. *)
Definition world_payments : Host.World :=
  Host.mkWorld
    (fun cmd =>
       if match cmd with
          | Host.Sh s =>
              match Compliance.grep_compliance_cmd "/r" with
              | Host.Sh s' => String.eqb s s'
              | _ => false
              end
          | _ => false
          end
       then Some ("/r/src/billing/stripe.ts" ++ lf ++ "/r/src/jobs/payout.ts" ++ lf)
       else None)
    (fun _ => false) (fun _ => None) (fun _ => None) (fun _ => true)
    (fun _ => None) (fun _ => false) (fun _ => None) false.

(** [path.join] for two operands that need no normalising. *)
Definition join_plain (a b : string) : string := a ++ "/" ++ b.







(** A world in which every command fails. *)
Definition world_down : Host.World :=
  Host.mkWorld (fun _ => None) (fun _ => false) (fun _ => None) (fun _ => None) (fun _ => true)
               (fun _ => None) (fun _ => false) (fun _ => None) false.

(** An author summary with twelve authors. *)
Definition shortlog12 : string :=
  "  40 Ada" ++ lf ++ "  31 Bob" ++ lf ++ "  29 Cy" ++ lf ++ "  25 Di" ++ lf ++
  "  22 Ed" ++ lf ++ "  19 Flo" ++ lf ++ "  15 Gus" ++ lf ++ "  12 Hal" ++ lf ++
  "   9 Ida" ++ lf ++ "   7 Jo" ++ lf ++ "   3 Kim" ++ lf ++ "   1 Lee" ++ lf.

(** Only the author summary answers. *)
Definition world_shortlog12 : Host.World :=
  Host.mkWorld
    (fun cmd => match cmd with
                | Host.Git "shortlog -sn --all" => Some shortlog12
                | _ => None
                end)
    (fun _ => false) (fun _ => None) (fun _ => None) (fun _ => true)
    (fun _ => None) (fun _ => false) (fun _ => None) false.




End Samples.

(** * More of the analyser and of the page generator *)

(** ** Contributors: areas, and the author summary as printed *)

Module ContributorMore.
Import JsString Path JsArray Contributors.

(** The area a history line adds to [areasTouched], if any. *)
Definition area_of_line (line : string) : option string :=
  if is_commit_line line then None
  else if truthy (trim line) then
    let parts := split slash line in
    if (1 <? List.length parts)%nat then
      match find_area parts with
      | Some area => if truthy area then Some area else None
      | None => None
      end
    else None
  else None.

(** The areas touched, one per file line that has one, in history order. *)
Definition touched_areas (commitData : list string) : list string :=
  filter_some (map area_of_line commitData).

(** The names every plain object inherits from [Object.prototype]:
    looking one of them up in an empty counter table does not give
    [undefined]. *)
Definition inherited_names : list string :=
  ["constructor"; "__proto__"; "__defineGetter__"; "__defineSetter__";
   "__lookupGetter__"; "__lookupSetter__"; "hasOwnProperty"; "isPrototypeOf";
   "propertyIsEnumerable"; "toLocaleString"; "toString"; "valueOf"].

(** A key that a counter table counts from nothing and lists in insertion
    order: it is not a run of digits, which [Object.entries] would list
    before the other keys, and it is not an inherited name. *)
Definition plain_key (k : string) : bool :=
  negb (forallb is_digit (list_ascii_of_string k)) && negb (mem k inherited_names).

(** A line of the author summary as [git shortlog -sn] lays it out:
    padding, the count in decimal digits, white space, the author. *)
Definition shortlog_line (pad digits sep author : list ascii) : string :=
  string_of_list_ascii (pad ++ digits ++ sep ++ author)%list.

(** Neither the first nor the last character is white space. *)
Definition no_outer_space (l : list ascii) : Prop :=
  dropWhile is_space l = l /\ dropWhile is_space (List.rev l) = List.rev l.

End ContributorMore.

(** ** Commit statistics and commit categories *)

Module Stats.
Import JsString JsArray JsNumber Table Host.
Local Open Scope host_scope.

(** [countLines(output)] *)
Definition countLines (output : string) : Z :=
  if truthy output then Z.of_nat (List.length (nonblank_lines output)) else 0.

Record CommitStats := mkCommitStats {
  totalCommits : Z;
  totalFixCommits : Z;
  fixRatio : Z
}.

(** [totalCommits > 0 ? Math.round((totalFixCommits / totalCommits) * 100) : 0] *)
Definition fixRatio_of (total fixes : Z) : Z :=
  if 0 <? total then percent fixes total else 0.

Definition commitStats : M CommitStats :=
  all <- git "log --oneline" ;;
  fixes <- git "log --oneline --grep=fix" ;;
  let totalCommits := countLines all in
  let totalFixCommits := countLines fixes in
  ret (mkCommitStats totalCommits totalFixCommits (fixRatio_of totalCommits totalFixCommits)).

(** The names of [categories], beside their pattern lists. *)
Definition category_names : list string :=
  ["Authentication"; "UI / Frontend"; "API / Backend"; "Database"; "Testing";
   "DevOps / CI"; "Documentation"; "Dependencies"].

Definition categories : list (string * list string) :=
  combine category_names Run.category_patterns.

(** [categories.map(cat => ...).sort((a, b) => b.count - a.count)]: a
    name and a count per category. *)
Definition categoryStats : M table :=
  stats <- Contributors.mapM
             (fun cat =>
                out <- git ("log --oneline -E --grep="
                            ++ DeadCode.quoted (String.concat "|" (snd cat)) ++ " -i") ;;
                ret (fst cat, countLines out))
             categories ;;
  ret (sort_desc stats).

(** The field of [data]: [categoryStats.filter(c => c.count > 0)]. *)
Definition data_categoryStats : M table :=
  stats <- categoryStats ;; ret (filter (fun c => 0 <? snd c) stats).

End Stats.

(** ** What the pages show: the values interpolated into the markup *)

Module Pages.
Import JsString JsArray JsNumber Table Contributors.

(** [arr.map((x, i) => ...)] *)
Fixpoint mapi_from {A B} (i : nat) (f : A -> nat -> B) (l : list A) : list B :=
  match l with
  | [] => []
  | x :: r => f x i :: mapi_from (S i) f r
  end.

Definition mapi {A B} (f : A -> nat -> B) (l : list A) : list B := mapi_from 0 f l.

(** [xs[0]?.count || 1] *)
Definition first_or_1 (counts : list Z) : Z :=
  match counts with
  | [] => 1
  | c :: _ => or_default c 1
  end.

(** A row of the category bars of the viewer. *)
Record Bar := mkBar {
  bar_label : string; bar_count : Z; bar_width : Z; bar_class : string
}.

Definition categoryBars (categoryStats : table) : list Bar :=
  let maxCat := first_or_1 (map snd categoryStats) in
  mapi (fun c i =>
          mkBar (fst c) (snd c) (percent (snd c) maxCat)
                (if (i <? 2)%nat then "critical" else if (i <? 4)%nat then "high"
                 else if (i <? 6)%nat then "medium" else "low"))
       (slice0 8 categoryStats).

(** A row of the hot-file table of the health report. *)
Record FileRow := mkFileRow {
  row_rank : nat; row_rankClass : string; row_file : string; row_changes : Z;
  row_severity : Z; row_severityClass : string
}.

Definition fileRows (topFiles : list Churn.FileChurn) : list FileRow :=
  let maxChanges := first_or_1 (map Churn.changes topFiles) in
  mapi (fun f i =>
          let severity := percent (Churn.changes f) maxChanges in
          mkFileRow (i + 1)
            (if (i <? 3)%nat then "top" else if (i <? 6)%nat then "high" else "med")
            (Churn.file f) (Churn.changes f) severity
            (if 70 <? severity then "critical" else if 40 <? severity then "high"
             else "medium"))
       (slice0 15 topFiles).

(** [s.replace(/\//g, '-')] *)
Fixpoint slashes_to_dashes (s : string) : string :=
  match s with
  | EmptyString => EmptyString
  | String c r =>
      String (if Ascii.eqb c slash then "-"%char else c) (slashes_to_dashes r)
  end.

(** The class of the focus badge; no badge for an empty label. *)
Definition focusBadge_class (focus : string) : option string :=
  if truthy focus then Some ("focus-" ++ slashes_to_dashes focus) else None.

(** The focus classes the stylesheet of the viewer defines. *)
Definition focus_styles : list string :=
  ["focus-frontend"; "focus-backend"; "focus-fullstack"; "focus-docs";
   "focus-config-devops"; "focus-general"].

(** [generateContributionBar]: a segment, with its width in percent, for
    every category whose share is positive. *)
Definition contributionBar (radarData : PerCategory) : list (category * Z) :=
  filter (fun seg => 0 <? snd seg)
         (map (fun cat => (cat, or_default (get radarData cat) 0)) categories).

(** [scoreClass] of the security page. *)
Definition scoreClass (complianceScore : Z) : string :=
  if 80 <=? complianceScore then "good"
  else if 50 <=? complianceScore then "moderate" else "poor".

End Pages.

(** ** The matches of the export pattern *)

Module ExportShape.
Import JsString.
Local Open Scope list_scope.

(** The three keywords the export pattern accepts. *)
Definition is_keyword (kw : list ascii) : Prop :=
  kw = list_ascii_of_string "const" \/ kw = list_ascii_of_string "function" \/
  kw = list_ascii_of_string "class".

(** The text of a match of [/export\s+(const|function|class)\s+(\w+)/]
    and the name it captures. *)
Definition export_shape (m nm : list ascii) : Prop :=
  exists ws1 kw ws2,
    m = list_ascii_of_string "export" ++ ws1 ++ kw ++ ws2 ++ nm /\
    ws1 <> [] /\ forallb is_space ws1 = true /\ is_keyword kw /\
    ws2 <> [] /\ forallb is_space ws2 = true /\
    nm <> [] /\ forallb is_word nm = true.

End ExportShape.

(** ** The command line *)

Module Args.
Import JsString JsArray.

(** [args.indexOf(x)], with [None] for -1. *)
Fixpoint indexOf (x : string) (args : list string) : option nat :=
  match args with
  | [] => None
  | a :: r => if String.eqb a x then Some O else option_map S (indexOf x r)
  end.

(** [idx !== -1 ? args[idx + 1] : null]: [None] stands for [null] and for
    the [undefined] of an index past the end. *)
Definition value_after (flag : string) (args : list string) : option string :=
  match indexOf flag args with
  | Some idx => nth_error args (S idx)
  | None => None
  end.

(** [new Set([cloneUrl, aiProvider].filter(Boolean))], by its members. *)
Definition flag_values (cloneUrl aiProvider : option string) : list string :=
  filter truthy (filter_some [cloneUrl; aiProvider]).

(** What the head of the script reads off [process.argv.slice(2)]; the
    interval of the watch mode, a float, is left out. *)
Record Parsed := mkParsed {
  watchFlag : bool;
  helpFlag : bool;
  cloneUrl : option string;
  aiProvider : option string;
  repoPath : string
}.

Definition parse (args : list string) : Parsed :=
  let cloneUrl := value_after "--clone" args in
  let aiProvider := value_after "--ai" args in
  let flagValues := flag_values cloneUrl aiProvider in
  let repoPath :=
    match find (fun a => negb (startsWith a "-") && negb (mem a flagValues)) args with
    | Some a => if truthy a then a else "."
    | None => "."
    end in
  mkParsed (mem "--watch" args || mem "-w" args)
           (mem "--help" args || mem "-h" args)
           cloneUrl aiProvider repoPath.

(** [if (cloneUrl)] and [if (aiProvider)]: an empty value counts as
    absent. *)
Definition given (v : option string) : option string :=
  match v with
  | Some s => if truthy s then Some s else None
  | None => None
  end.

(** The configuration of a run, from the parsed command line and the
    values taken from the clock and from the location of the script. *)
Definition config_of (p : Parsed) (clonePath outputDir : string)
           (monthWindows : list (string * string)) : Run.Config :=
  Run.mkConfig (helpFlag p) (given (cloneUrl p)) (given (aiProvider p)) (repoPath p)
               clonePath outputDir monthWindows.

End Args.

(** ** Escaping for the JSON view *)

Module Html.

(** [s.replace(/c/g, by)] for a one-character pattern. *)
Fixpoint replace_char (c : ascii) (by_ : string) (s : string) : string :=
  match s with
  | EmptyString => EmptyString
  | String x r =>
      if Ascii.eqb x c then by_ ++ replace_char c by_ r
      else String x (replace_char c by_ r)
  end.

Definition escapeHtml (str : string) : string :=
  replace_char ">" "&gt;" (replace_char "<" "&lt;" (replace_char "&" "&amp;" str)).

(** What becomes of one character. *)
Definition escape_char (c : ascii) : string :=
  if Ascii.eqb c "&" then "&amp;"
  else if Ascii.eqb c "<" then "&lt;"
  else if Ascii.eqb c ">" then "&gt;"
  else String c EmptyString.

(** [c] is one of the three characters [escapeHtml] rewrites. *)
Definition special (c : ascii) : bool :=
  Ascii.eqb c "&" || Ascii.eqb c "<" || Ascii.eqb c ">".

End Html.

(** ** The technology stack *)

Module Tech.
Import JsString JsArray.
Local Open Scope list_scope.

(** [techStack] with [foundTech], the set of the names already added,
    by its members. *)
Record TechState := mkTech {
  techStack : list (string * string);
  foundTech : list string
}.

Definition no_tech : TechState := mkTech [] [].

(** The helper [addTech(name, type)]. *)
Definition addTech (name type : string) (st : TechState) : TechState :=
  if negb (mem name (foundTech st))
  then mkTech (techStack st ++ [(name, type)]) (foundTech st ++ [name])
  else st.

(** The tests of [scanPackageJson], in order: the dependency keys looked
    up, and the technology added when one of them is set. *)
Definition dependency_rules : list (list string * (string * string)) :=
  [(["react"], ("React", "frontend"));
   (["vue"], ("Vue.js", "frontend"));
   (["svelte"], ("Svelte", "frontend"));
   (["next"], ("Next.js", "framework"));
   (["nuxt"], ("Nuxt", "framework"));
   (["astro"], ("Astro", "framework"));
   (["express"], ("Express", "backend"));
   (["fastify"], ("Fastify", "backend"));
   (["prisma"], ("Prisma", "database"));
   (["mongoose"], ("MongoDB", "database"));
   (["typescript"], ("TypeScript", "language"));
   (["tailwindcss"], ("Tailwind CSS", "styling"));
   (["stripe"], ("Stripe", "payments"));
   (["node-appwrite"; "appwrite"], ("Appwrite", "backend"));
   (["firebase"], ("Firebase", "backend"));
   (["supabase"; "@supabase/supabase-js"], ("Supabase", "backend"));
   (["pinia"], ("Pinia", "state"));
   (["zod"], ("Zod", "validation"));
   (["@tanstack/vue-query"; "@tanstack/react-query"], ("TanStack Query", "data"))].

(** The body of [scanPackageJson] once the file is parsed; [deps k] tells
    whether the merged dependencies hold a truthy value under [k]. *)
Definition scan_deps (deps : string -> bool) (st : TechState) : TechState :=
  fold_left
    (fun st rule =>
       if existsb deps (fst rule) then addTech (fst (snd rule)) (snd (snd rule)) st
       else st)
    dependency_rules st.

(** The package files of a repository, scanned one after the other; a
    file that cannot be read or parsed ([None]) adds nothing. *)
Definition scan_packages (pkgs : list (option (string -> bool))) (st : TechState)
  : TechState :=
  fold_left
    (fun st pkg => match pkg with Some deps => scan_deps deps st | None => st end)
    pkgs st.

(** The technologies the dependencies [deps] ask for. *)
Definition asked (deps : string -> bool) : list (string * string) :=
  map snd (filter (fun rule => existsb deps (fst rule)) dependency_rules).

(** A sequence of calls of [addTech]. *)
Definition add_all (requests : list (string * string)) (st : TechState) : TechState :=
  fold_left (fun st r => addTech (fst r) (snd r) st) requests st.

(** The set of names and the list stay in step, and no name is listed
    twice. *)
Definition in_step (st : TechState) : Prop :=
  foundTech st = map fst (techStack st) /\ NoDup (foundTech st).

(** The requests a list of package files makes, in order. *)
Definition requests_of (pkgs : list (option (string -> bool))) : list (string * string) :=
  flat_map (fun pkg => match pkg with Some deps => asked deps | None => [] end) pkgs.

End Tech.

(** ** Modules and environment variables, without repeats *)

Module Dedupe.
Import JsString JsArray.
Local Open Scope list_scope.

Record Module_ := mkModule { m_name : string; m_path : string; m_type : string }.

(** [Map.prototype.set]: a key already present keeps its place and takes
    the new value; a new key goes last. *)
Fixpoint map_set {A} (k : string) (v : A) (m : list (string * A)) : list (string * A) :=
  match m with
  | [] => [(k, v)]
  | (k', v') :: r => if String.eqb k' k then (k, v) :: r else (k', v') :: map_set k v r
  end.

(** [new Map(entries)] *)
Definition new_Map {A} (entries : list (string * A)) : list (string * A) :=
  fold_left (fun m e => map_set (fst e) (snd e) m) entries [].

(** [[...new Map(modules.map(m => [m.name, m])).values()]] *)
Definition by_name (modules : list Module_) : list Module_ :=
  map snd (new_Map (map (fun m => (m_name m, m)) modules)).

(** [modules = [...].slice(0, 20)] *)
Definition dedupe_modules (modules : list Module_) : list Module_ :=
  slice0 20 (by_name modules).

(** [[...new Set(items)]] *)
Definition new_Set (items : list string) : list string :=
  fold_left (fun s x => if mem x s then s else s ++ [x]) items [].

(** [envVars = [...new Set([...envVars, ...matches])].slice(0, 20)] *)
Definition add_env (envVars matches : list string) : list string :=
  slice0 20 (new_Set (envVars ++ matches)).

(** The loop over the environment files: the names matched in each file,
    or [None] for a file that cannot be read. *)
Definition envVars_of (files : list (option (list string))) : list string :=
  fold_left
    (fun envVars file => match file with
                         | Some matches => add_env envVars matches
                         | None => envVars
                         end)
    files [].

End Dedupe.

(** ** Sensitive files *)

Module Exposure.
Import JsString JsArray Host.
Local Open Scope host_scope.

Record Warning := mkWarning { w_name : string; w_file : string }.

Section Scan.
Variable repoPath : string.
Variable relative : string -> string -> string.

Definition check_ignore_args (found : string) : string :=
  "check-ignore " ++ DeadCode.quoted (relative repoPath found).

(** The body of [sensitiveFiles.forEach(file => ...)]: the warning
    pushed for [file], if any. *)
Definition exposure (file : string) : M (list Warning) :=
  try_catch
    (out <- exec (Site ("sensitive: " ++ file)) ;;
     let found := trim out in
     if truthy found then
       gitignored <- git (check_ignore_args found) ;;
       if negb (truthy gitignored)
       then ret [mkWarning (file ++ " may be committed to repo") (relative repoPath found)]
       else ret []
     else ret [])
    (ret []).

Definition warnings : M (list Warning) :=
  try_catch (DeadCode.concatM exposure Run.sensitiveFiles) (ret []).

(** [git check-ignore] printed nothing for [found], or failed. *)
Definition unignored (w : World) (found : string) : bool :=
  match execSync w (Git (check_ignore_args found)) with
  | Some out => negb (truthy (trim out))
  | None => true
  end.

(** The file the search for [file] found, if it found one. *)
Definition located (w : World) (file : string) : option string :=
  match execSync w (Site ("sensitive: " ++ file)) with
  | Some out => if truthy (trim out) then Some (trim out) else None
  | None => None
  end.

End Scan.

End Exposure.

(** ** More sample inputs *)

Module MoreSamples.
Import Host Samples.

Definition same_script (a b : command) : bool :=
  match a, b with
  | Sh s, Sh s' => String.eqb s s'
  | _, _ => false
  end.

(** The listing of source files under [/r] answers with two files; every
    other command fails, the search for references among them. *)
Definition world_no_index : World :=
  mkWorld
    (fun cmd =>
       if same_script cmd (DeadCode.find_src_cmd "/r")
       then Some ("/r/src/lib/money.ts" ++ lf ++ "/r/src/index.ts" ++ lf)
       else None)
    (fun _ => false) (fun _ => None) (fun _ => None) (fun _ => true)
    (fun _ => None) (fun _ => false) (fun _ => None) false.

End MoreSamples.

(** * Properties *)

(** ** String and path primitives on sample inputs *)

Module JsStringExamples.
Import JsString Path.

Example includes_mid : includes "src/components/Nav.vue" "component" = true.
Proof. reflexivity. Qed.

Example split_empty : split newline EmptyString = [EmptyString].
Proof. reflexivity. Qed.

Example trim_both : trim "  a b  " = "a b".
Proof. reflexivity. Qed.

Example extname_plain : extname "src/app.test.ts" = ".ts".
Proof. reflexivity. Qed.

Example extname_dotfile : extname "conf/.eslintrc" = EmptyString.
Proof. reflexivity. Qed.

Example extname_dir_dot : extname "v1.2/readme" = EmptyString.
Proof. reflexivity. Qed.

Example extname_trailing_dot : extname "a." = ".".
Proof. reflexivity. Qed.

Example extname_dotdot : extname "a/.." = EmptyString.
Proof. reflexivity. Qed.

Example basename_plain : basename "src/lib/a.js" = "a.js".
Proof. reflexivity. Qed.

Example basename_ext_vue : basename_ext "x/components/NavBar.vue" ".vue" = "NavBar".
Proof. reflexivity. Qed.

Example endsWith_js : endsWith "a.js" ".js" = true.
Proof. reflexivity. Qed.
End JsStringExamples.

(** ** Lists *)

Module ListFacts.
Import JsArray.
Local Open Scope list_scope.

Lemma filter_some_length {A} (l : list (option A)) :
  (List.length (filter_some l) <= List.length l)%nat.
Proof. induction l as [|[a|] l IH]; simpl; lia. Qed.

Lemma filter_some_In {A} (l : list (option A)) (a : A) :
  In a (filter_some l) <-> In (Some a) l.
Proof.
  induction l as [|[x|] l IH]; simpl; [tauto | |].
  - rewrite IH. split; intros [H|H]; auto; left; congruence.
  - rewrite IH. split; [auto | intros [H|H]; [discriminate | exact H]].
Qed.

Lemma In_firstn_nth {A} (n : nat) (l : list A) (x : A) :
  In x (firstn n l) -> exists i, (i < n)%nat /\ nth_error l i = Some x.
Proof.
  revert l. induction n as [|n IH]; intros [|y l]; simpl; try tauto.
  intros [->|H].
  - exists O. split; [lia | reflexivity].
  - destruct (IH _ H) as (i & Hi & E). exists (S i). split; [lia | exact E].
Qed.

(** Collecting optional results is mapping over the elements that yield
    one. *)
Lemma filter_some_map {A B} (f : A -> option B) (g : A -> B) (p : A -> bool) (l : list A) :
  (forall a, f a = if p a then Some (g a) else None) ->
  filter_some (map f l) = map g (filter p l).
Proof.
  intros H. induction l as [|a l IH]; [reflexivity|]. simpl.
  rewrite H. destruct (p a); simpl; now rewrite IH.
Qed.

End ListFacts.

(** ** Counter tables and the stable sort *)

Module TableFacts.
Import JsString JsArray JsNumber Table.
Local Open Scope list_scope.

Lemma or_default_0 (v : Z) : or_default v 0 = v.
Proof. unfold or_default. destruct (Z.eqb_spec v 0); congruence. Qed.

(** The entry that sorts first has the largest count, and every entry
    inserted before it has a strictly smaller one. *)
Lemma sort_desc_head (t : table) (e : string * Z) (rest : table) :
  sort_desc t = e :: rest ->
  exists pre post,
    t = pre ++ e :: post /\
    Forall (fun x => snd x < snd e) pre /\
    Forall (fun x => snd x <= snd e) post.
Proof.
  revert e rest. induction t as [|x t IH]; intros e rest H.
  - discriminate.
  - unfold sort_desc in *. simpl in H.
    destruct (sort by_count_desc t) as [|y ys] eqn:E.
    + simpl in H. injection H as <- <-.
      destruct t as [|z t'].
      * exists [], []. repeat split; constructor.
      * exfalso. simpl in E.
        destruct (sort by_count_desc t'); simpl in E;
          [discriminate | destruct (_ <=? _); discriminate].
    + destruct (IH y ys eq_refl) as (pre & post & -> & Hpre & Hpost).
      simpl in H. unfold by_count_desc at 1 in H.
      destruct (Z.leb_spec (snd y - snd x) 0) as [Hle|Hgt].
      * injection H as <- <-.
        exists [], (pre ++ y :: post). repeat split; [constructor|].
        apply Forall_app. split.
        -- eapply Forall_impl; [|exact Hpre]. simpl. intros; lia.
        -- constructor; [lia|].
           eapply Forall_impl; [|exact Hpost]. simpl. intros; lia.
      * injection H as <- <-.
        exists (x :: pre), post. repeat split; auto.
        constructor; [lia | exact Hpre].
Qed.

Lemma sort_desc_nil (t : table) : sort_desc t = [] -> t = [].
Proof.
  destruct t as [|x t]; [reflexivity|].
  unfold sort_desc. simpl.
  destruct (sort by_count_desc t); simpl;
    [discriminate | destruct (_ <=? _); discriminate].
Qed.

Lemma insert_perm (x : string * Z) (l : table) :
  Permutation (insert by_count_desc x l) (x :: l).
Proof.
  induction l as [|y l IH]; simpl; [reflexivity|].
  destruct (by_count_desc x y <=? 0); [reflexivity|].
  rewrite IH. apply perm_swap.
Qed.

(** Sorting rearranges the entries and loses none. *)
Lemma sort_desc_perm (t : table) : Permutation (sort_desc t) t.
Proof.
  induction t as [|x t IH]; [reflexivity|].
  unfold sort_desc in *. simpl. rewrite insert_perm. now constructor.
Qed.

Section Stability.
(** [before] is an order the entries stand in prior to sorting. *)
Variable before : string * Z -> string * Z -> Prop.

Lemma sorted_rel_count (l : table) (a : string * Z) :
  Forall (sorted_rel before a) l -> Forall (fun b => snd b <= snd a) l.
Proof. apply Forall_impl. unfold sorted_rel. intros b; lia. Qed.

Lemma insert_sorted (x : string * Z) (l : table) :
  StronglySorted (sorted_rel before) l ->
  Forall (before x) l ->
  StronglySorted (sorted_rel before) (insert by_count_desc x l).
Proof.
  induction 1 as [|y l Hl IH Hy]; intros Hx; simpl.
  - repeat constructor.
  - inversion Hx as [|? ? Hxy Hxl]; subst.
    unfold by_count_desc at 1.
    destruct (Z.leb_spec (snd y - snd x) 0) as [Hle|Hgt].
    + constructor; [now constructor|].
      constructor.
      * unfold sorted_rel. destruct (Z.eq_dec (snd y) (snd x)); [right; auto | left; lia].
      * apply sorted_rel_count in Hy. rewrite Forall_forall in *.
        intros b Hb. specialize (Hy _ Hb). specialize (Hxl _ Hb). simpl in Hy.
        unfold sorted_rel.
        destruct (Z.eq_dec (snd b) (snd x)); [right; auto | left; lia].
    + constructor; [now apply IH|].
      rewrite Forall_forall in *. intros b Hb.
      apply (Permutation_in _ (insert_perm x l)) in Hb as [<-|Hb].
      * left. lia.
      * now apply Hy.
Qed.

(** The sort is stable: entries with equal counts keep their order. *)
Lemma sort_desc_stable (t : table) :
  StronglySorted before t -> StronglySorted (sorted_rel before) (sort_desc t).
Proof.
  induction 1 as [|x t Ht IH Hx]; [constructor|].
  unfold sort_desc in *. simpl. apply insert_sorted; [exact IH|].
  rewrite Forall_forall in *. intros b Hb. apply Hx.
  now apply (Permutation_in _ (sort_desc_perm t)).
Qed.
End Stability.

Lemma StronglySorted_firstn {A} (R : A -> A -> Prop) (n : nat) (l : list A) :
  StronglySorted R l -> StronglySorted R (firstn n l).
Proof.
  intros H. revert n. induction H as [|a l Hl IH Ha]; intros [|n]; simpl; try constructor.
  - apply IH.
  - rewrite Forall_forall in *. intros b Hb. apply Ha.
    rewrite <- (firstn_skipn n l). apply in_or_app. now left.
Qed.



Lemma StronglySorted_map {A B} (R : A -> A -> Prop) (R' : B -> B -> Prop)
      (f : A -> B) (l : list A) :
  (forall a b, R a b -> R' (f a) (f b)) ->
  StronglySorted R l -> StronglySorted R' (map f l).
Proof.
  intros HR. induction 1 as [|a l Hl IH Ha]; simpl; constructor; [exact IH|].
  rewrite Forall_forall in *. intros b Hb.
  apply in_map_iff in Hb as (x & <- & Hx). now apply HR, Ha.
Qed.

End TableFacts.

Module TallyFacts.
Import JsString JsArray JsNumber Table Tally TableFacts.
Local Open Scope list_scope.

Lemma mem_In (k : string) (l : list string) : mem k l = true <-> In k l.
Proof.
  unfold mem. rewrite existsb_exists. split.
  - intros (x & Hin & E). apply String.eqb_eq in E. now subst.
  - intros H. exists k. split; [exact H | apply String.eqb_refl].
Qed.

Lemma mem_false (k : string) (l : list string) : mem k l = false <-> ~ In k l.
Proof.
  rewrite <- mem_In. destruct (mem k l); split; intros; congruence.
Qed.

Lemma tally_snoc (ks : list string) (k : string) :
  tally (ks ++ [k]) = bump k (tally ks).
Proof. unfold tally. now rewrite fold_left_app. Qed.

Lemma occurrences_app (k : string) (l1 l2 : list string) :
  occurrences k (l1 ++ l2) = occurrences k l1 + occurrences k l2.
Proof. induction l1 as [|x l1 IH]; simpl; [reflexivity | rewrite IH; lia]. Qed.

Lemma occurrences_nonneg (k : string) (l : list string) : 0 <= occurrences k l.
Proof. induction l as [|x l IH]; simpl; [lia | destruct (String.eqb k x); lia]. Qed.

Lemma occurrences_pos (k : string) (l : list string) : In k l -> 1 <= occurrences k l.
Proof.
  induction l as [|x l IH]; simpl; [tauto|]. intros [->|H].
  - rewrite String.eqb_refl. pose proof (occurrences_nonneg k l). lia.
  - specialize (IH H). destruct (String.eqb k x); lia.
Qed.

Lemma occurrences_zero (k : string) (l : list string) : ~ In k l -> occurrences k l = 0.
Proof.
  induction l as [|x l IH]; simpl; [reflexivity|]. intros H.
  destruct (String.eqb_spec k x) as [->|_]; [tauto|]. rewrite IH; tauto.
Qed.

Lemma lookup_bump (k k' : string) (t : table) :
  lookup k' (bump k t) =
  if String.eqb k' k
  then Some (match lookup k t with Some v => v | None => 0 end + 1)
  else lookup k' t.
Proof.
  induction t as [|[x v] t IH]; simpl.
  - destruct (String.eqb k' k); reflexivity.
  - destruct (String.eqb_spec k x) as [->|Hkx]; simpl.
    + rewrite or_default_0. destruct (String.eqb_spec k' x); reflexivity.
    + rewrite IH. destruct (String.eqb_spec k' x) as [E1|E1];
        destruct (String.eqb_spec k' k) as [E2|E2]; try reflexivity.
      congruence.
Qed.

Lemma keys_bump (k : string) (t : table) :
  map fst (bump k t) = if mem k (map fst t) then map fst t else map fst t ++ [k].
Proof.
  induction t as [|[x v] t IH]; simpl; [reflexivity|].
  destruct (String.eqb_spec k x) as [->|Hkx]; simpl; [reflexivity|].
  rewrite IH. now destruct (mem k (map fst t)).
Qed.

(** Each key of the table carries its number of occurrences. *)
Lemma lookup_tally (ks : list string) (k : string) :
  lookup k (tally ks) = if mem k ks then Some (occurrences k ks) else None.
Proof.
  induction ks as [|x ks IH] using rev_ind; [reflexivity|].
  rewrite tally_snoc, lookup_bump, occurrences_app. simpl.
  destruct (String.eqb_spec k x) as [->|Hkx].
  - rewrite IH.
    assert (Hm : mem x (ks ++ [x]) = true) by (apply mem_In, in_or_app; right; now left).
    rewrite Hm. f_equal.
    destruct (mem x ks) eqn:E; [lia|].
    apply mem_false in E. rewrite (occurrences_zero _ _ E). lia.
  - rewrite IH, Z.add_0_r.
    assert (Hm : mem k (ks ++ [x]) = mem k ks).
    { destruct (mem k ks) eqn:E.
      - apply mem_In, in_or_app. left. now apply mem_In.
      - apply mem_false. intros H. apply in_app_or in H as [H|[H|[]]].
        + now apply mem_false in E.
        + congruence. }
    now rewrite Hm.
Qed.

Lemma keys_tally_In (ks : list string) (k : string) :
  In k (map fst (tally ks)) <-> In k ks.
Proof.
  induction ks as [|x ks IH] using rev_ind; [simpl; tauto|].
  rewrite tally_snoc, keys_bump.
  destruct (mem x (map fst (tally ks))) eqn:E.
  - rewrite IH, in_app_iff. simpl. split; [tauto|].
    intros [H|[<-|[]]]; [exact H|]. apply IH. now apply mem_In.
  - rewrite !in_app_iff, IH. tauto.
Qed.

Lemma keys_tally_NoDup (ks : list string) : NoDup (map fst (tally ks)).
Proof.
  induction ks as [|x ks IH] using rev_ind; [constructor|].
  rewrite tally_snoc, keys_bump.
  destruct (mem x (map fst (tally ks))) eqn:E; [exact IH|].
  apply mem_false in E.
  apply NoDup_app; [exact IH | repeat constructor; simpl; tauto |].
  intros a Ha [<-|[]]. contradiction.
Qed.

Lemma first_index_lt (k : string) (l : list string) :
  In k l -> (first_index k l < List.length l)%nat.
Proof.
  induction l as [|x l IH]; simpl; [tauto|]. intros H.
  destruct (String.eqb_spec k x) as [->|Hkx]; [lia|].
  destruct H as [->|H]; [congruence|]. specialize (IH H). lia.
Qed.

Lemma first_index_app_l (k : string) (l1 l2 : list string) :
  In k l1 -> first_index k (l1 ++ l2) = first_index k l1.
Proof.
  induction l1 as [|x l1 IH]; simpl; [tauto|]. intros H.
  destruct (String.eqb_spec k x) as [->|Hkx]; [reflexivity|].
  destruct H as [->|H]; [congruence|]. now rewrite IH.
Qed.

Lemma first_index_app_r (k : string) (l1 l2 : list string) :
  ~ In k l1 -> first_index k (l1 ++ l2) = (List.length l1 + first_index k l2)%nat.
Proof.
  induction l1 as [|x l1 IH]; simpl; [reflexivity|]. intros H.
  destruct (String.eqb_spec k x) as [->|Hkx]; [tauto|].
  rewrite IH; tauto.
Qed.

Lemma StronglySorted_weaken {A} (R R' : A -> A -> Prop) (l : list A) :
  StronglySorted R l ->
  (forall a b, In a l -> In b l -> R a b -> R' a b) ->
  StronglySorted R' l.
Proof.
  induction 1 as [|a l Hl IHl Hall]; intros HR; constructor.
  - apply IHl. intros x y Hx Hy. apply HR; now right.
  - rewrite Forall_forall in *. intros b Hb.
    apply HR; [now left | now right | now apply Hall].
Qed.

Lemma StronglySorted_snoc {A} (R : A -> A -> Prop) (l : list A) (x : A) :
  StronglySorted R l -> Forall (fun a => R a x) l -> StronglySorted R (l ++ [x]).
Proof.
  induction 1 as [|a l Hl IHl Hall]; intros Hx; simpl.
  - repeat constructor.
  - inversion Hx; subst. constructor; [now apply IHl|].
    apply Forall_app. split; [exact Hall | now repeat constructor].
Qed.

(** The keys of the table stand in the order they were first encountered. *)
Lemma keys_tally_order (ks : list string) :
  StronglySorted (fun a b => (first_index a ks < first_index b ks)%nat)
                 (map fst (tally ks)).
Proof.
  induction ks as [|x ks IH] using rev_ind; [constructor|].
  rewrite tally_snoc, keys_bump.
  assert (Hmono : StronglySorted
            (fun a b => (first_index a (ks ++ [x]) < first_index b (ks ++ [x]))%nat)
            (map fst (tally ks))).
  { eapply StronglySorted_weaken; [exact IH|]. simpl. intros a b Ha Hb Hab.
    rewrite !first_index_app_l by (now apply keys_tally_In). exact Hab. }
  destruct (mem x (map fst (tally ks))) eqn:E; [exact Hmono|].
  apply mem_false in E. rewrite keys_tally_In in E.
  apply StronglySorted_snoc; [exact Hmono|].
  rewrite Forall_forall. intros a Ha. apply (proj1 (keys_tally_In _ _)) in Ha.
  rewrite first_index_app_l by exact Ha.
  rewrite first_index_app_r by exact E. simpl. rewrite String.eqb_refl.
  pose proof (first_index_lt a ks Ha). lia.
Qed.

Lemma In_lookup (t : table) (k : string) (v : Z) :
  NoDup (map fst t) -> In (k, v) t -> lookup k t = Some v.
Proof.
  induction t as [|[x u] t IH]; simpl; [tauto|]. intros Hnd [E|H].
  - injection E as -> ->. now rewrite String.eqb_refl.
  - inversion Hnd as [|? ? Hx Hnd']; subst.
    destruct (String.eqb_spec k x) as [->|_]; [|now apply IH].
    exfalso. apply Hx. change x with (fst (x, v)). now apply in_map.
Qed.

Lemma lookup_In (t : table) (k : string) (v : Z) :
  lookup k t = Some v -> In (k, v) t.
Proof.
  induction t as [|[x u] t IH]; simpl; [discriminate|].
  destruct (String.eqb_spec k x) as [->|_].
  - intros [= ->]. now left.
  - intros H. right. now apply IH.
Qed.

(** An entry of the table is a key that occurs, with its count. *)
Lemma In_tally (ks : list string) (k : string) (v : Z) :
  In (k, v) (tally ks) <-> In k ks /\ v = occurrences k ks.
Proof.
  split.
  - intros H. apply In_lookup in H; [|apply keys_tally_NoDup].
    rewrite lookup_tally in H. destruct (mem k ks) eqn:E; [|discriminate].
    injection H as <-. split; [now apply mem_In | reflexivity].
  - intros [H ->]. apply lookup_In. rewrite lookup_tally.
    apply mem_In in H. now rewrite H.
Qed.

Lemma sorted_app_order {A} (R : A -> A -> Prop) (pre post : list A) (e x : A) :
  StronglySorted R (pre ++ e :: post) -> In x post -> R e x.
Proof.
  induction pre as [|a pre IH]; simpl; intros H Hx.
  - inversion H as [|? ? _ Hall]; subst. rewrite Forall_forall in Hall. now apply Hall.
  - inversion H; subst. now apply IH.
Qed.

(** The entry the descending stable sort puts first is the most counted
    key, first encountered among equals. *)
Lemma sort_tally_head (ks : list string) (e : string * Z) (rest : table) :
  sort_desc (tally ks) = e :: rest ->
  most_counted ks (fst e) /\ snd e = occurrences (fst e) ks.
Proof.
  intros H. destruct (sort_desc_head _ _ _ H) as (pre & post & Ht & Hpre & Hpost).
  destruct e as [k v]. simpl in *.
  assert (Hk : In (k, v) (tally ks)) by (rewrite Ht; apply in_or_app; right; now left).
  apply In_tally in Hk as [Hk ->].
  split; [|reflexivity]. split; [exact Hk|].
  intros k' Hk'.
  assert (Hin : In (k', occurrences k' ks) (tally ks)) by (now apply In_tally).
  rewrite Ht in Hin. apply in_app_or in Hin as [Hin|[Hin|Hin]].
  - rewrite Forall_forall in Hpre. specialize (Hpre _ Hin). simpl in Hpre. lia.
  - injection Hin as -> _. split; [lia | intros _; lia].
  - rewrite Forall_forall in Hpost. pose proof (Hpost _ Hin) as Hle. simpl in Hle.
    split; [exact Hle|]. intros _.
    pose proof (keys_tally_order ks) as Hord. rewrite Ht, map_app in Hord. simpl in Hord.
    apply (sorted_app_order _ _ _ _ k') in Hord; [simpl in Hord; lia|].
    change k' with (fst (k', occurrences k' ks)). now apply in_map.
Qed.

Lemma most_counted_unique (ks : list string) (k1 k2 : string) :
  most_counted ks k1 -> most_counted ks k2 -> k1 = k2.
Proof.
  intros [H1 M1] [H2 M2].
  destruct (M1 _ H2) as [Ha Hb]. destruct (M2 _ H1) as [Hc Hd].
  assert (E : occurrences k1 ks = occurrences k2 ks) by lia.
  specialize (Hb (eq_sym E)). specialize (Hd E).
  assert (Hi : first_index k1 ks = first_index k2 ks) by lia.
  clear - H1 H2 Hi. induction ks as [|x ks IH]; simpl in *; [tauto|].
  destruct (String.eqb_spec k1 x) as [->|N1]; destruct (String.eqb_spec k2 x) as [->|N2];
    try congruence.
  apply IH; [destruct H1; congruence | destruct H2; congruence | lia].
Qed.

Lemma tally_nonempty (ks : list string) : ks <> [] -> sort_desc (tally ks) <> [].
Proof.
  intros Hne H. apply sort_desc_nil in H.
  destruct ks as [|k ks]; [congruence|].
  assert (Hk : In k (map fst (tally (k :: ks)))) by (apply keys_tally_In; now left).
  rewrite H in Hk. exact Hk.
Qed.

(** Conversely the most counted key is the one sorted first. *)
Lemma most_counted_head (ks : list string) (k : string) :
  most_counted ks k ->
  exists rest, sort_desc (tally ks) = (k, occurrences k ks) :: rest.
Proof.
  intros Hm.
  destruct (sort_desc (tally ks)) as [|e rest] eqn:E.
  - exfalso. apply (tally_nonempty ks); [|exact E].
    destruct Hm as [Hin _]. intros ->. exact Hin.
  - destruct (sort_tally_head _ _ _ E) as [Hm' Hv].
    pose proof (most_counted_unique _ _ _ Hm Hm') as ->.
    exists rest. destruct e as [k' v]. simpl in *. now subst.
Qed.

(** A computational test for [most_counted]. *)
Lemma most_counted_of_sort (ks : list string) (k : string) :
  hd_error (sort_desc (tally ks)) = Some (k, occurrences k ks) -> most_counted ks k.
Proof.
  destruct (sort_desc (tally ks)) as [|e rest] eqn:E; [discriminate|].
  intros [= ->]. exact (proj1 (sort_tally_head _ _ _ E)).
Qed.

End TallyFacts.

(** ** Rounding *)

Module RoundFacts.
Import JsNumber.

Lemma Math_round_lower (x : Q) : (inject_Z (Math_round x) <= x + (1 # 2))%Q.
Proof. apply Qfloor_le. Qed.

Lemma Math_round_upper (x : Q) : (x + (1 # 2) < inject_Z (Math_round x) + 1)%Q.
Proof.
  unfold Math_round.
  setoid_replace (inject_Z (Qfloor (x + (1 # 2))) + 1)%Q
    with (inject_Z (Qfloor (x + (1 # 2)) + 1)) by (rewrite inject_Z_plus; reflexivity).
  apply Qlt_floor.
Qed.

(** In integers: [percent a b] is [floor ((200 a + b) / (2 b))]. *)
Lemma percent_pos (a b : Z) : 0 < b -> percent a b = (200 * a + b) / (2 * b).
Proof.
  intros Hb. unfold percent, Math_round.
  assert (E : ((inject_Z a / inject_Z b) * inject_Z 100 + (1 # 2) ==
               (200 * a + b) # (Z.to_pos (2 * b)))%Q).
  { destruct b as [|p|p]; try lia.
    unfold Qeq, Qdiv, Qmult, Qplus, Qinv, inject_Z.
    cbn -[Z.mul Z.add Pos.mul]. lia. }
  rewrite E. unfold Qfloor. f_equal. lia.
Qed.

Lemma inject_Z_le_floor (n : Z) (x : Q) : (inject_Z n <= x)%Q -> n <= Qfloor x.
Proof.
  intros H. rewrite <- (Qfloor_Z n). now apply Qfloor_resp_le.
Qed.

Lemma floor_lt_inject_Z (n : Z) (x : Q) : (x < inject_Z n)%Q -> Qfloor x < n.
Proof.
  intros H. rewrite Zlt_Qlt.
  eapply Qle_lt_trans; [apply Qfloor_le | exact H].
Qed.

End RoundFacts.

(** ** Contributor aggregator *)

Module ContributorFacts.
Import JsString Path JsArray JsNumber Table Tally Host Contributors ContributorSpec.
Import ListFacts TableFacts TallyFacts RoundFacts.
Local Open Scope list_scope.

(** One line changes [filesTouched] by its extension, if it has one. *)
Lemma on_line_files (st : scan) (line : string) :
  filesTouched (on_line st line) =
  match ext_of_line line with
  | Some ext => bump ext (filesTouched st)
  | None => filesTouched st
  end.
Proof.
  unfold on_line, ext_of_line.
  destruct (is_commit_line line); [reflexivity|].
  destruct (truthy (trim line)); [|reflexivity].
  unfold on_file_line. cbn [filesTouched].
  now destruct (truthy (toLowerCase (extname (toLowerCase line)))).
Qed.

Lemma scan_files_from (ls : list string) (st : scan) :
  filesTouched (fold_left on_line ls st) =
  fold_left (fun t k => bump k t) (touched_exts ls) (filesTouched st).
Proof.
  revert st. induction ls as [|l ls IH]; intros st; [reflexivity|].
  cbn [fold_left]. rewrite IH, on_line_files.
  unfold touched_exts. cbn [map filter_some].
  now destruct (ext_of_line l).
Qed.

(** [filesTouched] is the tally of the extensions of the file lines. *)
Lemma scan_files (ls : list string) :
  filesTouched (scan_lines ls) = tally (touched_exts ls).
Proof. unfold scan_lines. now rewrite scan_files_from. Qed.

Lemma truthy_at_tally (ks : list string) (k : string) :
  truthy_at k (tally ks) = mem k ks.
Proof.
  unfold truthy_at. rewrite lookup_tally.
  destruct (mem k ks) eqn:E; [|reflexivity].
  apply mem_In, occurrences_pos in E.
  destruct (Z.eqb_spec (occurrences k ks) 0); [lia | reflexivity].
Qed.

Lemma radar_values (cb : PerCategory) :
  values (radarData_of cb) = map (fun c => percent (get cb c) (totalCatHits cb)) categories.
Proof. reflexivity. Qed.

Lemma radar_sum_tight (cb : PerCategory) :
  sum (values cb) <> 0 -> 97 <= sum (values (radarData_of cb)) <= 103.
Proof.
  intros HT. rewrite radar_values.
  unfold totalCatHits, or_default.
  destruct (Z.eqb_spec (sum (values cb)) 0) as [E|_]; [contradiction|].
  set (T := sum (values cb)) in *.
  destruct cb as [c1 c2 c3 c4 c5 c6 c7].
  cbn [map categories get frontend backend database auth devops testing docs].
  unfold sum. cbn [fold_left].
  assert (ET : T = c1 + c2 + c3 + c4 + c5 + c6 + c7).
  { subst T. unfold sum, values. cbn. lia. }
  assert (HTq : ~ (inject_Z T == 0)%Q).
  { intros H. apply HT. unfold Qeq in H. simpl in H. lia. }
  unfold percent.
  set (x := fun c : Z => ((inject_Z c / inject_Z T) * inject_Z 100)%Q).
  change (97 <= 0 + Math_round (x c1) + Math_round (x c2) + Math_round (x c3) + Math_round (x c4)
             + Math_round (x c5) + Math_round (x c6) + Math_round (x c7) <= 103).
  assert (Hsum : (x c1 + x c2 + x c3 + x c4 + x c5 + x c6 + x c7 == 100)%Q).
  { unfold x. rewrite ET in *. rewrite !inject_Z_plus in *. 
    change (inject_Z 100) with (100%Q). field. exact HTq. }
  remember (x c1) as q1. remember (x c2) as q2. remember (x c3) as q3. remember (x c4) as q4.
  remember (x c5) as q5. remember (x c6) as q6. remember (x c7) as q7.
  clear Heqq1 Heqq2 Heqq3 Heqq4 Heqq5 Heqq6 Heqq7 x.
  pose proof (Math_round_lower q1). pose proof (Math_round_upper q1).
  pose proof (Math_round_lower q2). pose proof (Math_round_upper q2).
  pose proof (Math_round_lower q3). pose proof (Math_round_upper q3).
  pose proof (Math_round_lower q4). pose proof (Math_round_upper q4).
  pose proof (Math_round_lower q5). pose proof (Math_round_upper q5).
  pose proof (Math_round_lower q6). pose proof (Math_round_upper q6).
  pose proof (Math_round_lower q7). pose proof (Math_round_upper q7).
  set (r1 := Math_round q1) in *. set (r2 := Math_round q2) in *.
  set (r3 := Math_round q3) in *. set (r4 := Math_round q4) in *.
  set (r5 := Math_round q5) in *. set (r6 := Math_round q6) in *.
  set (r7 := Math_round q7) in *.
  clearbody r1 r2 r3 r4 r5 r6 r7.
  assert (Hup : (inject_Z (0 + r1 + r2 + r3 + r4 + r5 + r6 + r7) <= 207 # 2)%Q).
  { rewrite !inject_Z_plus. change (inject_Z 0) with 0%Q. lra. }
  assert (Hlo : ((193 # 2) < inject_Z (0 + r1 + r2 + r3 + r4 + r5 + r6 + r7))%Q).
  { rewrite !inject_Z_plus. change (inject_Z 0) with 0%Q. lra. }
  split.
  - apply floor_lt_inject_Z in Hlo. change (Qfloor (193 # 2)) with 96 in Hlo. lia.
  - apply inject_Z_le_floor in Hup. change (Qfloor (207 # 2)) with 103 in Hup. lia.
Qed.

(** The slack of one unit per category also covers any other rounding
    of the exact percentages that errs by at most 1, such as rounding a
    quotient computed in double precision. *)
Lemma radar_sum_any_rounding (cb : PerCategory) (r : category -> Z) :
  sum (values cb) <> 0 ->
  (forall cat,
     (inject_Z (r cat) - 1 <=
      (inject_Z (get cb cat) / inject_Z (sum (values cb))) * inject_Z 100)%Q /\
     ((inject_Z (get cb cat) / inject_Z (sum (values cb))) * inject_Z 100 <=
      inject_Z (r cat) + 1)%Q) ->
  100 - 7 <= sum (map r categories) <= 100 + 7.
Proof.
  intros HT Hr.
  set (T := sum (values cb)) in *.
  destruct cb as [c1 c2 c3 c4 c5 c6 c7].
  assert (ET : T = c1 + c2 + c3 + c4 + c5 + c6 + c7).
  { subst T. unfold sum, values. cbn. lia. }
  assert (HTq : ~ (inject_Z T == 0)%Q).
  { intros H. apply HT. unfold Qeq in H. simpl in H. lia. }
  pose proof (Hr Frontend) as H1. pose proof (Hr Backend) as H2.
  pose proof (Hr Database) as H3. pose proof (Hr Auth) as H4.
  pose proof (Hr Devops) as H5. pose proof (Hr Testing) as H6.
  pose proof (Hr Docs) as H7. clear Hr.
  cbn [get frontend backend database auth devops testing docs] in *.
  set (x := fun c : Z => ((inject_Z c / inject_Z T) * inject_Z 100)%Q) in *.
  assert (Hsum : (x c1 + x c2 + x c3 + x c4 + x c5 + x c6 + x c7 == 100)%Q).
  { unfold x. rewrite ET in *. rewrite !inject_Z_plus in *.
    change (inject_Z 100) with (100%Q). field. exact HTq. }
  change ((inject_Z c1 / inject_Z T) * inject_Z 100)%Q with (x c1) in H1.
  change ((inject_Z c2 / inject_Z T) * inject_Z 100)%Q with (x c2) in H2.
  change ((inject_Z c3 / inject_Z T) * inject_Z 100)%Q with (x c3) in H3.
  change ((inject_Z c4 / inject_Z T) * inject_Z 100)%Q with (x c4) in H4.
  change ((inject_Z c5 / inject_Z T) * inject_Z 100)%Q with (x c5) in H5.
  change ((inject_Z c6 / inject_Z T) * inject_Z 100)%Q with (x c6) in H6.
  change ((inject_Z c7 / inject_Z T) * inject_Z 100)%Q with (x c7) in H7.
  remember (x c1) as q1. remember (x c2) as q2. remember (x c3) as q3. remember (x c4) as q4.
  remember (x c5) as q5. remember (x c6) as q6. remember (x c7) as q7.
  clear Heqq1 Heqq2 Heqq3 Heqq4 Heqq5 Heqq6 Heqq7 x.
  unfold sum, categories. cbn [map fold_left].
  set (r1 := r Frontend) in *. set (r2 := r Backend) in *. set (r3 := r Database) in *.
  set (r4 := r Auth) in *. set (r5 := r Devops) in *. set (r6 := r Testing) in *.
  set (r7 := r Docs) in *. clearbody r1 r2 r3 r4 r5 r6 r7.
  assert (Hup : (inject_Z (0 + r1 + r2 + r3 + r4 + r5 + r6 + r7) <= inject_Z 107)%Q).
  { rewrite !inject_Z_plus. change (inject_Z 0) with 0%Q.
    change (inject_Z 107) with 107%Q. lra. }
  assert (Hlo : (inject_Z 93 <= inject_Z (0 + r1 + r2 + r3 + r4 + r5 + r6 + r7))%Q).
  { rewrite !inject_Z_plus. change (inject_Z 0) with 0%Q.
    change (inject_Z 93) with 93%Q. lra. }
  rewrite <- Zle_Qle in Hup, Hlo. lia.
Qed.

Lemma focus_analyse (c : RawContributor) (commitData : list string) :
  focus (analyse c commitData) = focus_of (tally (touched_exts commitData)).
Proof. unfold analyse. cbn [focus]. now rewrite scan_files. Qed.

Lemma nonblank_lines_blank (out : string) :
  trim out = EmptyString -> nonblank_lines (trim out) = [].
Proof. intros ->. reflexivity. Qed.

Lemma git_value (args : string) (w : World) :
  git args w = Value (git_output w args).
Proof.
  unfold git, git_output, try_catch, bind, exec, ret.
  now destruct (execSync w (Git args)).
Qed.

(** The analysis of a contributor always yields a record. *)
Lemma contributor_value (c : RawContributor) (w : World) :
  contributor c w =
  Value (analyse c (nonblank_lines (git_output w (author_log_args (name c))))).
Proof.
  unfold contributor, try_catch, bind. now rewrite git_value.
Qed.

Lemma mapM_value {A B} (f : A -> M B) (g : A -> B) (w : World) (l : list A) :
  (forall a, f a w = Value (g a)) -> mapM f l w = Value (map g l).
Proof.
  intros H. induction l as [|a l IH]; [reflexivity|].
  cbn [mapM map]. unfold bind. now rewrite H, IH.
Qed.

Lemma contributors_value (w : World) :
  contributors w =
  Value (map (fun c => analyse c (nonblank_lines (git_output w (author_log_args (name c)))))
             (contributorsRaw_of (git_output w "shortlog -sn --all"))).
Proof.
  unfold contributors, contributorsRaw, bind. rewrite git_value. unfold ret.
  apply mapM_value. intros a. apply contributor_value.
Qed.

End ContributorFacts.

(** ** Churn ranker *)

Module ChurnFacts.
Import JsString Path JsArray JsNumber Table Tally Host Churn.
Import TableFacts TallyFacts.
Local Open Scope list_scope.

Lemma fileChurnMap_from (lines : list string) (t : table) :
  fold_left (fun t file => if counted file then bump file t else t) lines t =
  fold_left (fun t k => bump k t) (filter counted lines) t.
Proof.
  revert t. induction lines as [|l lines IH]; intros t; [reflexivity|].
  simpl. destruct (counted l); simpl; apply IH.
Qed.

(** [fileChurnMap] is the tally of the lines that pass the filter. *)
Lemma fileChurnMap_tally (lines : list string) :
  fileChurnMap lines = tally (filter counted lines).
Proof. apply fileChurnMap_from. Qed.



Lemma StronglySorted_unmap {A B} (R : B -> B -> Prop) (f : A -> B) (l : list A) :
  StronglySorted R (map f l) -> StronglySorted (fun a b => R (f a) (f b)) l.
Proof.
  induction l as [|a l IH]; simpl; intros H; [constructor|].
  inversion H as [|? ? Hl Ha]; subst. constructor; [now apply IH|].
  rewrite Forall_forall in *. intros b Hb. apply Ha. now apply in_map.
Qed.

Lemma NoDup_firstn' {A} (n : nat) (l : list A) : NoDup l -> NoDup (firstn n l).
Proof.
  intros H. revert n. induction H as [|a l Ha Hl IH]; intros [|n]; simpl; try constructor.
  - intros Hin. apply Ha. rewrite <- (firstn_skipn n l). apply in_or_app. now left.
  - apply IH.
Qed.


Lemma In_sorted_tally (ks : list string) (k : string) (v : Z) :
  In (k, v) (sort_desc (tally ks)) <-> In k ks /\ v = occurrences k ks.
Proof.
  rewrite <- In_tally. split; apply Permutation_in;
    [apply sort_desc_perm | symmetry; apply sort_desc_perm].
Qed.

End ChurnFacts.

(** ** Dead-code detector *)

Module DeadCodeFacts.
Import JsString Path JsArray Host DeadCode DeadCodeSpec.
Import ListFacts.
Local Open Scope list_scope.

Section Facts.
Variable repoPath : string.
Variable relative : string -> string -> string.

Lemma component_finding_spec (allUsages f : string) :
  component_finding repoPath relative allUsages f =
  if qualifies repoPath relative allUsages f
  then Some (finding_of repoPath relative f) else None.
Proof.
  unfold component_finding, qualifies, component_skipped, component_used, finding_of.
  destruct (String.eqb _ "index"); [reflexivity|].
  destruct (includes (relative repoPath f) "/pages/"); [reflexivity|].
  destruct (includes (relative repoPath f) "/layouts/"); [reflexivity|].
  cbn [orb negb andb].
  destruct (includes allUsages (basename_ext f (extname f)));
    destruct (includes allUsages (kebab (basename_ext f (extname f)))); reflexivity.
Qed.

(** The report lists, in scan order, the first 25 candidates that
    qualify. *)
Lemma unusedComponents_spec (files : list string) (allUsages : string) :
  unusedComponents_of repoPath relative files allUsages =
  firstn 25 (map (finding_of repoPath relative)
                 (filter (qualifies repoPath relative allUsages) files)).
Proof.
  unfold unusedComponents_of, slice0. f_equal.
  apply filter_some_map. intros f. apply component_finding_spec.
Qed.

(** Whether a candidate qualifies can be read off its finding. *)
Lemma qualifies_finding (allUsages f f' : string) :
  finding_of repoPath relative f = finding_of repoPath relative f' ->
  qualifies repoPath relative allUsages f = qualifies repoPath relative allUsages f'.
Proof.
  unfold finding_of, qualifies, component_skipped, component_used.
  intros [= -> _ ->]. reflexivity.
Qed.

Lemma scan_components_value (w : World) :
  scan_components repoPath relative w =
  Value (unusedComponents_of repoPath relative
           (listed w (find_components_cmd repoPath))
           (output_or w (grep_usages_cmd repoPath) EmptyString)).
Proof.
  unfold scan_components, try_catch, bind, exec, ret, listed, output_or.
  destruct (execSync w (find_components_cmd repoPath)); [|reflexivity].
  now destruct (execSync w (grep_usages_cmd repoPath)).
Qed.

Lemma scan_orphans_value (w : World) :
  scan_orphans repoPath relative w =
  Value (slice0 20 (filter_some
           (map (orphan_finding repoPath relative
                   (output_or w (grep_refs_cmd repoPath) EmptyString))
                (listed w (find_src_cmd repoPath))))).
Proof.
  unfold scan_orphans, try_catch, bind, exec, ret, listed, output_or.
  destruct (execSync w (find_src_cmd repoPath)); [|reflexivity].
  now destruct (execSync w (grep_refs_cmd repoPath)).
Qed.

Lemma file_exports_value (w : World) (allImports f : string) :
  file_exports repoPath relative allImports f w =
  Value (file_findings repoPath relative w allImports f).
Proof.
  unfold file_exports, file_findings.
  destruct (mem _ entry_points); [reflexivity|].
  unfold try_catch, bind, readFile, ret.
  now destruct (readFileSync w f).
Qed.

Lemma concatM_value {A B} (f : A -> M (list B)) (g : A -> list B) (w : World)
      (l : list A) :
  (forall a, f a w = Value (g a)) -> concatM f l w = Value (flat_map g l).
Proof.
  intros H. induction l as [|a l IH]; [reflexivity|].
  cbn [concatM flat_map]. unfold bind. now rewrite H, IH.
Qed.

Lemma scan_exports_value (w : World) :
  scan_exports repoPath relative w =
  Value (slice0 20
           (flat_map (file_findings repoPath relative w
                        (output_or w (grep_imports_cmd repoPath) EmptyString))
                     (slice0 30 (listed w (find_ts_cmd repoPath))))).
Proof.
  unfold scan_exports, try_catch, bind, exec, listed, output_or.
  destruct (execSync w (find_ts_cmd repoPath)) as [out|]; [|reflexivity].
  destruct (execSync w (grep_imports_cmd repoPath)) as [imports|];
    unfold ret at 1;
    rewrite (concatM_value _ _ w _ (fun f => file_exports_value w _ f)); reflexivity.
Qed.

Lemma deadCode_value (w : World) :
  deadCode repoPath relative w =
  Value (mkDeadCode
           (unusedComponents_of repoPath relative
              (listed w (find_components_cmd repoPath))
              (output_or w (grep_usages_cmd repoPath) EmptyString))
           (slice0 20 (filter_some
              (map (orphan_finding repoPath relative
                      (output_or w (grep_refs_cmd repoPath) EmptyString))
                   (listed w (find_src_cmd repoPath)))))
           (slice0 20
              (flat_map (file_findings repoPath relative w
                           (output_or w (grep_imports_cmd repoPath) EmptyString))
                        (slice0 30 (listed w (find_ts_cmd repoPath)))))).
Proof.
  unfold deadCode, bind.
  now rewrite scan_components_value, scan_exports_value, scan_orphans_value.
Qed.

Lemma file_findings_length (w : World) (allImports f : string) :
  (List.length (file_findings repoPath relative w allImports f) <= 5)%nat.
Proof.
  unfold file_findings. destruct (mem _ entry_points); [simpl; lia|].
  destruct (readFileSync w f); [|simpl; lia].
  etransitivity; [apply filter_some_length|].
  rewrite length_map. apply firstn_le_length.
Qed.

Lemma flat_map_length_le {A B} (g : A -> list B) (n : nat) (l : list A) :
  (forall a, List.length (g a) <= n)%nat ->
  (List.length (flat_map g l) <= List.length l * n)%nat.
Proof.
  intros H. induction l as [|a l IH]; simpl; [lia|].
  rewrite length_app. specialize (H a). lia.
Qed.

End Facts.

End DeadCodeFacts.

(** ** Compliance scorer *)

Module ComplianceFacts.
Import JsString Path JsArray JsNumber Host Compliance.
Import ListFacts RoundFacts.
Local Open Scope list_scope.

Section Facts.
Variable repoPath : string.
Variable relative : string -> string -> string.

(** A matched file marks exactly the categories it is attributed to. *)
Lemma found_on_file (c : Compliance) (file : string) (k : key) :
  found (get (on_file repoPath relative c file) k) =
  found (get c k) || attributed k file.
Proof.
  unfold on_file, keys. cbn [fold_left].
  destruct (attributed AgeVerification file) eqn:E1;
  destruct (attributed ContentModeration file) eqn:E2;
  destruct (attributed IdentityVerification file) eqn:E3;
  destruct (attributed ReportingMechanism file) eqn:E4;
  destruct (attributed RecordKeeping file) eqn:E5;
  destruct (attributed UserSafety file) eqn:E6;
  destruct (attributed PaymentCompliance file) eqn:E7;
  destruct k; cbn [get set record_file found ageVerification contentModeration
                   identityVerification reportingMechanism recordKeeping userSafety
                   paymentCompliance];
  rewrite ?E1, ?E2, ?E3, ?E4, ?E5, ?E6, ?E7;
  destruct (found _); reflexivity.
Qed.

Lemma found_fold (matched : list string) (c : Compliance) (k : key) :
  found (get (fold_left (on_file repoPath relative) matched c) k) =
  found (get c k) || existsb (attributed k) matched.
Proof.
  revert c. induction matched as [|f l IH]; intros c; simpl.
  - now rewrite orb_false_r.
  - rewrite IH, found_on_file. now rewrite orb_assoc.
Qed.

(** A category is found exactly when some matched file is attributed to
    it. *)
Lemma found_scan_files (matched : list string) (k : key) :
  found (get (scan_files repoPath relative matched) k) = existsb (attributed k) matched.
Proof. unfold scan_files. rewrite found_fold. now destruct k. Qed.

Lemma found_add_notes (c : Compliance) (k : key) :
  found (get (add_notes c) k) = found (get c k).
Proof.
  unfold add_notes. destruct (existsb _ _); [|reflexivity]. now destruct k.
Qed.

Lemma found_limit_files (c : Compliance) (k : key) :
  found (get (limit_files c) k) = found (get c k).
Proof. destruct k; reflexivity. Qed.

Lemma found_scan_result (matched : list string) (k : key) :
  found (get (scan_result repoPath relative matched) k) = existsb (attributed k) matched.
Proof.
  unfold scan_result. now rewrite found_limit_files, found_add_notes, found_scan_files.
Qed.

(** What the scan step returns: never an exception. *)
Lemma compliance_value (w : World) :
  compliance repoPath relative w =
  Value (scan_result repoPath relative (matched_files repoPath w)).
Proof.
  unfold compliance, try_catch, bind, exec, ret, matched_files, scan_result.
  destruct (execSync w (grep_compliance_cmd repoPath)) as [out|]; [|reflexivity].
  unfold scan_output. destruct (trim out) eqn:E; reflexivity.
Qed.

End Facts.

Lemma found_count_filter (c : Compliance) :
  found_count c = Z.of_nat (List.length (filter (fun k => found (get c k)) keys)).
Proof. reflexivity. Qed.

Lemma count_or (a b : key -> bool) (ks : list key) :
  List.length (filter (fun k => a k || b k) ks) =
  (List.length (filter a ks) + List.length (filter (fun k => b k && negb (a k)) ks))%nat.
Proof.
  induction ks as [|k ks IH]; [reflexivity|]. simpl.
  destruct (a k), (b k); simpl; lia.
Qed.

Lemma passedChecks_range (o : key -> option Indicator) : 0 <= passedChecks o <= 7.
Proof.
  unfold passedChecks. pose proof (filter_length_le (item_found o) complianceItems) as H.
  change (List.length complianceItems) with 7%nat in H. lia.
Qed.

(** The score for each possible number of categories found. *)
Lemma score_table (n : Z) :
  0 <= n <= 7 ->
  percent n 7 = nth (Z.to_nat n) [0; 14; 29; 43; 57; 71; 86; 100] 0.
Proof.
  intros H.
  assert (E : n = 0 \/ n = 1 \/ n = 2 \/ n = 3 \/ n = 4 \/ n = 5 \/ n = 6 \/ n = 7) by lia.
  repeat (destruct E as [->|E]; [reflexivity|]). now subst.
Qed.

Lemma score_nearest (n : Z) :
  0 <= n <= 7 -> 2 * Z.abs (7 * percent n 7 - 100 * n) < 7.
Proof.
  intros H.
  assert (E : n = 0 \/ n = 1 \/ n = 2 \/ n = 3 \/ n = 4 \/ n = 5 \/ n = 6 \/ n = 7) by lia.
  repeat (destruct E as [->|E]; [vm_compute; reflexivity|]). subst. vm_compute. reflexivity.
Qed.

Lemma score_step (n : Z) :
  0 <= n < 7 -> percent n 7 < percent (n + 1) 7.
Proof.
  intros H.
  assert (E : n = 0 \/ n = 1 \/ n = 2 \/ n = 3 \/ n = 4 \/ n = 5 \/ n = 6) by lia.
  repeat (destruct E as [->|E]; [vm_compute; reflexivity|]). subst. vm_compute. reflexivity.
Qed.

End ComplianceFacts.

(** ** The run *)

Module RunFacts.
Import JsString Path JsArray Json Host Run ContributorSpec.
Import ListFacts ContributorFacts DeadCodeFacts ComplianceFacts.
Local Open Scope list_scope.















Lemma no_exit_writeFile (p : string) : no_exit (writeFile p).
Proof. intros w c. unfold writeFile. destruct (writeFileSync w p); discriminate. Qed.







Section Steps.
Variable cfg : Config.
Variable join : string -> string -> string.
Variable relative : string -> string -> string.
Variable repoPath : string.


























Lemma forEach_template (items : list Json.value) (w : World) :
  forEach items (fun t => template (Some t)) w =
  if forallb stringable items then Value tt else Thrown.
Proof.
  induction items as [|i items IH]; [reflexivity|].
  cbn [forEach forallb]. unfold bind, template at 1.
  destruct (stringable i); [exact IH | reflexivity].
Qed.

Lemma ai_items_outcome (x : option Json.value) (w : World) :
  ai_items x w = if items_break x then Thrown else Value tt.
Proof.
  unfold ai_items, items_break. destruct x as [v|]; [|reflexivity].
  destruct (truthy_value v); [|reflexivity]. cbn [andb].
  destruct v; try reflexivity.
  cbn [call_map]. rewrite forEach_template. now destruct (forallb stringable items).
Qed.

Lemma formatSummary_outcome (x : option Json.value) (w : World) :
  formatSummary (or_string x) w = if summary_breaks x then Thrown else Value tt.
Proof.
  unfold summary_breaks, formatSummary. destruct (or_string x) as [[]|]; reflexivity.
Qed.

(** The viewer throws exactly on the AI fields that break it. *)
Lemma viewer_outcome (data : Report) (w : World) :
  generateViewer data w = if breaks_viewer data then Thrown else Value tt.
Proof.
  unfold generateViewer, breaks_viewer, bind.
  rewrite formatSummary_outcome.
  destruct (summary_breaks (aiSummary data)); [reflexivity|].
  rewrite !ai_items_outcome.
  destruct (items_break (aiKeyThings data)); [reflexivity|].
  now destruct (items_break (aiGotchas data)).
Qed.

(** The page for new developers throws only where the viewer does. *)
Lemma newdev_outcome (data : Report) (w : World) :
  breaks_viewer data = false -> generateNewDevFlow data w = Value tt.
Proof.
  unfold breaks_viewer, generateNewDevFlow, bind. intros H.
  apply orb_false_iff in H as [H H3]. apply orb_false_iff in H as [H1 H2].
  rewrite !ai_items_outcome, H2, H3.
  unfold summary_breaks in H1. unfold template.
  destruct (or_string (aiSummary data)) as [[]|]; try discriminate; reflexivity.
Qed.

Lemma render_issue_outcome (i : Json.value) (w : World) :
  render_issue i w = if printable_issue i then Value tt else Thrown.
Proof.
  unfold render_issue, printable_issue, bind, get, template, ret, throw.
  destruct i as [|b|n|s|items|fields]; try reflexivity.
  destruct (field "number" fields) as [n|], (field "title" fields) as [t|];
    try destruct (stringable n); try destruct (stringable t); reflexivity.
Qed.

Lemma forEach_issues (items : list Json.value) (w : World) :
  forEach items render_issue w =
  if existsb (fun i => negb (printable_issue i)) items then Thrown else Value tt.
Proof.
  induction items as [|i items IH]; [reflexivity|].
  cbn [forEach existsb]. unfold bind. rewrite render_issue_outcome.
  destruct (printable_issue i); [exact IH | reflexivity].
Qed.

(** The health page throws exactly on the answers of [gh] that break
    it. *)
Lemma health_outcome (data : Report) (w : World) :
  generateHealthReport data w =
  if breaks_health w (openIssues data) then Thrown else Value tt.
Proof.
  unfold generateHealthReport, breaks_health.
  destruct (openIssues data) as [|b|n|s|items|fields].
  - reflexivity.
  - reflexivity.
  - reflexivity.
  - destruct s; reflexivity.
  - unfold bind. cbn [length_of gt_zero ret of_nat number_positive call_map].
    destruct items as [|i items]; [reflexivity|].
    change (0 <? Qnum (inject_Z (Z.of_nat (List.length (i :: items))))) with true.
    cbn iota. rewrite forEach_issues.
    now destruct (existsb _ (i :: items)).
  - unfold bind. cbn [length_of ret].
    destruct (field "length" fields) as [[|b|n|s|items|fs]|]; cbn [gt_zero ret];
      try reflexivity.
    + now destruct b.
    + now destruct (number_positive n).
    + unfold compare_positive. cbn. now destruct (positive w (JStr s)).
    + unfold template, compare_positive, throw.
      destruct (stringable (JArr items)); [|reflexivity].
      now destruct (positive w (JArr items)).
    + unfold template, compare_positive, throw.
      destruct (stringable (JObj fs)); [|reflexivity].
      now destruct (positive w (JObj fs)).
Qed.

(** The pages throw exactly on data that break the viewer or the health
    page. *)
Lemma pages_throw_iff (data : Report) (w : World) :
  pages_throw data w <->
  breaks_viewer data = true \/ breaks_health w (openIssues data) = true.
Proof.
  unfold pages_throw. rewrite viewer_outcome, health_outcome.
  destruct (breaks_viewer data) eqn:Ev.
  - split; auto.
  - rewrite (newdev_outcome data w Ev).
    destruct (breaks_health w (openIssues data)); split; auto;
      intros [H|[H|H]] || intros [H|H]; discriminate.
Qed.

Lemma pages_throw_dec (data : Report) (w : World) :
  pages_throw data w \/ ~ pages_throw data w.
Proof.
  rewrite pages_throw_iff.
  destruct (breaks_viewer data), (breaks_health w (openIssues data)); auto.
  right. intros [H|H]; discriminate.
Qed.



End Steps.







End RunFacts.

(** ** Claims about contributors *)

Module ContributorClaims.
Import JsString Path JsArray JsNumber Table Tally Host Contributors ContributorSpec Samples.
Import ListFacts TableFacts TallyFacts RoundFacts ContributorFacts.
Local Open Scope list_scope.

(** C1, as stated, fails: with [.js] touched most and no front-end
    extension present the label is not [backend]; with [.js] touched most
    and a [.vue] file present it is not [fullstack]; and the label for a
    configuration extension is not spelled [config-devops]. *)
Lemma focus_claim_counterexample :
  (most_counted (touched_exts history_js) ".js" /\
   ~ In ".vue" (touched_exts history_js) /\
   ~ In ".tsx" (touched_exts history_js) /\
   focus (analyse (mkRaw 1 "dev") history_js) <> "backend") /\
  (most_counted (touched_exts history_js_vue) ".js" /\
   In ".vue" (touched_exts history_js_vue) /\
   focus (analyse (mkRaw 1 "dev") history_js_vue) <> "fullstack") /\
  (most_counted (touched_exts history_yml) ".yml" /\
   focus (analyse (mkRaw 1 "dev") history_yml) <> "config-devops").
Proof.
  split; [|split]; (split; [(apply most_counted_of_sort; reflexivity)|]);
    vm_compute; intuition discriminate.
Qed.

(** C1, amended.  The focus label follows the extension touched most
    (ties go to the extension encountered first): front-end extensions
    give [frontend]; [.py], [.go], [.rs], [.java] give [backend]; [.ts] and
    [.js] give [frontend] when a [.vue] or [.tsx] file was touched and
    [fullstack] otherwise; documentation extensions give [docs];
    [.yml], [.yaml], [.json] give [config/devops]; any other extension, or
    no extension at all, gives [general]. *)
Theorem focus_by_most_touched_extension (c : RawContributor) (commitData : list string) :
  let exts := touched_exts commitData in
  let f := focus (analyse c commitData) in
  (exts = [] -> f = "general") /\
  (forall e, most_counted exts e ->
     (In e [".vue"; ".tsx"; ".jsx"; ".svelte"; ".css"; ".scss"] -> f = "frontend") /\
     (In e [".py"; ".go"; ".rs"; ".java"] -> f = "backend") /\
     (In e [".ts"; ".js"] -> In ".vue" exts \/ In ".tsx" exts -> f = "frontend") /\
     (In e [".ts"; ".js"] -> ~ In ".vue" exts -> ~ In ".tsx" exts -> f = "fullstack") /\
     (In e [".md"; ".mdx"; ".txt"] -> f = "docs") /\
     (In e [".yml"; ".yaml"; ".json"] -> f = "config/devops") /\
     (~ In e [".vue"; ".tsx"; ".jsx"; ".svelte"; ".css"; ".scss";
              ".py"; ".go"; ".rs"; ".java"; ".ts"; ".js";
              ".md"; ".mdx"; ".txt"; ".yml"; ".yaml"; ".json"] -> f = "general")).
Proof.
  intros exts f. subst f. rewrite focus_analyse. fold exts. split.
  - intros ->. reflexivity.
  - intros e He. destruct (most_counted_head _ _ He) as [rest Hs].
    unfold focus_of. rewrite Hs, !truthy_at_tally.
    repeat split.
    + intros H. simpl in H. intuition (subst; reflexivity).
    + intros H. simpl in H. intuition (subst; reflexivity).
    + intros H Hv.
      assert (Hm : mem ".vue" exts || mem ".tsx" exts = true).
      { apply orb_true_iff. destruct Hv as [Hv|Hv]; [left|right]; now apply mem_In. }
      rewrite Hm. simpl in H. intuition (subst; reflexivity).
    + intros H Hv Ht. apply mem_false in Hv, Ht. rewrite Hv, Ht.
      simpl in H. intuition (subst; reflexivity).
    + intros H. simpl in H. intuition (subst; reflexivity).
    + intros H. simpl in H. intuition (subst; reflexivity).
    + intros H.
      assert (M1 : mem e [".vue"; ".tsx"; ".jsx"; ".svelte"; ".css"; ".scss"] = false)
        by (apply mem_false; intros Hin; apply H; simpl in *; tauto).
      assert (M2 : mem e [".py"; ".go"; ".rs"; ".java"] = false)
        by (apply mem_false; intros Hin; apply H; simpl in *; tauto).
      assert (M3 : mem e [".ts"; ".js"] = false)
        by (apply mem_false; intros Hin; apply H; simpl in *; tauto).
      assert (M4 : mem e [".md"; ".mdx"; ".txt"] = false)
        by (apply mem_false; intros Hin; apply H; simpl in *; tauto).
      assert (M5 : mem e [".yml"; ".yaml"; ".json"] = false)
        by (apply mem_false; intros Hin; apply H; simpl in *; tauto).
      now rewrite M1, M2, M3, M4, M5.
Qed.

(** The amended C1 at work: [.js] touched most, nothing from a front-end
    framework, hence [fullstack]. *)
Lemma focus_by_most_touched_extension_witness :
  focus (analyse (mkRaw 1 "dev") history_js) = "fullstack".
Proof.
  refine (proj1 (proj2 (proj2 (proj2
    (proj2 (focus_by_most_touched_extension (mkRaw 1 "dev") history_js) ".js" _)))) _ _ _).
  - (apply most_counted_of_sort; reflexivity).
  - simpl. tauto.
  - vm_compute. intuition discriminate.
  - vm_compute. intuition discriminate.
Defined.

(** C6.  A contributor whose history query fails or prints nothing but
    white space gets a result, with every count and every radar
    percentage zero and the focus [general]. *)
Theorem zero_history_contributor (w : World) (c : RawContributor) :
  (forall out, execSync w (Git (author_log_args (name c))) = Some out ->
               trim out = EmptyString) ->
  exists r, contributor c w = Value r /\
            breakdown r = zero /\
            radarData r = zero /\
            Forall (fun cat => get (radarData r) cat = 0) categories /\
            focus r = "general".
Proof.
  intros H. unfold contributor, try_catch, bind, git, try_catch, bind, exec, ret.
  destruct (execSync w (Git (author_log_args (name c)))) as [out|] eqn:E.
  - rewrite (nonblank_lines_blank out (H out eq_refl)).
    eexists. split; [reflexivity|]. repeat split. repeat constructor.
  - eexists. split; [reflexivity|]. repeat split. repeat constructor.
Qed.

Lemma zero_history_contributor_witness :
  exists r, contributor (mkRaw 4 "Ada") world_down = Value r /\
            breakdown r = zero /\
            radarData r = zero /\
            Forall (fun cat => get (radarData r) cat = 0) categories /\
            focus r = "general".
Proof.
  apply (zero_history_contributor world_down). intros out H. discriminate H.
Defined.

(** C7.  When the category counts do not sum to zero, the seven rounded
    percentages sum to a number between 100 - 7 and 100 + 7. *)
Theorem radar_sum_within_slack (cb : PerCategory) :
  sum (values cb) <> 0 ->
  100 - 7 <= sum (values (radarData_of cb)) <= 100 + 7.
Proof.
  intros H. pose proof (radar_sum_tight cb H). lia.
Qed.

Lemma radar_sum_within_slack_witness :
  100 - 7 <= sum (values (radarData_of (mkPerCategory 245 89 12 34 8 15 5))) <= 100 + 7.
Proof.
  apply radar_sum_within_slack. vm_compute. discriminate.
Defined.

(** C9.  The report holds at most ten contributors: each is analysed from
    one of the first ten non-blank lines of the author summary, nothing
    is derived for anyone else, and, the summary being ordered by
    decreasing commit count, no author left out has more commits than an
    author kept. *)
Theorem contributors_at_most_ten (w : World) :
  exists cs,
    contributors w = Value cs /\
    (List.length cs <= 10)%nat /\
    map raw cs = contributorsRaw_of (git_output w "shortlog -sn --all") /\
    (forall c, In c cs ->
       exists i line, (i < 10)%nat /\ nth_error (shortlog_lines w) i = Some line /\
                      parse_shortlog_line line = Some (raw c)) /\
    (by_commits_desc (shortlog_lines w) ->
     forall c j line a,
       In c cs -> (10 <= j)%nat ->
       nth_error (shortlog_lines w) j = Some line ->
       parse_shortlog_line line = Some a ->
       commits a <= commits (raw c)).
Proof.
  eexists. split; [apply contributors_value|].
  set (raws := contributorsRaw_of (git_output w "shortlog -sn --all")).
  assert (Hraw : forall c, In c raws ->
            exists i line, (i < 10)%nat /\ nth_error (shortlog_lines w) i = Some line /\
                           parse_shortlog_line line = Some c).
  { intros c Hc. unfold raws, contributorsRaw_of in Hc.
    apply filter_some_In, in_map_iff in Hc as (line & Hp & Hl).
    apply In_firstn_nth in Hl as (i & Hi & Hn). now exists i, line. }
  assert (Hmap : forall g : RawContributor -> list string,
            map raw (map (fun c => analyse c (g c)) raws) = raws).
  { intros g. rewrite map_map. cbn [raw analyse]. apply map_id. }
  repeat split.
  - rewrite length_map. unfold raws, contributorsRaw_of.
    etransitivity; [apply filter_some_length|].
    rewrite length_map. apply firstn_le_length.
  - apply Hmap.
  - intros c Hc. apply Hraw. rewrite <- (Hmap (fun c =>
      nonblank_lines (git_output w (author_log_args (name c))))).
    now apply in_map.
  - intros Hsorted c j line a Hc Hj Hn Hp.
    assert (Hr : In (raw c) raws).
    { rewrite <- (Hmap (fun c => nonblank_lines (git_output w (author_log_args (name c))))).
      now apply in_map. }
    destruct (Hraw _ Hr) as (i & li & Hi & Hni & Hpi).
    apply (Hsorted i j li line (raw c) a); auto. lia.
Qed.

Lemma contributors_at_most_ten_witness :
  by_commits_desc (shortlog_lines world_shortlog12) /\
  exists cs,
    contributors world_shortlog12 = Value cs /\
    List.length cs = 10%nat /\
    (forall c j line a,
       In c cs -> (10 <= j)%nat ->
       nth_error (shortlog_lines world_shortlog12) j = Some line ->
       parse_shortlog_line line = Some a ->
       commits a <= commits (raw c)).
Proof.
  assert (Hs : by_commits_desc (shortlog_lines world_shortlog12)).
  { intros i j li lj a b Hij Hi Hpi Hj Hpj.
    assert (Hj12 : (j < List.length (shortlog_lines world_shortlog12))%nat)
      by (apply nth_error_Some; rewrite Hj; discriminate).
    remember (shortlog_lines world_shortlog12) as L eqn:EL.
    vm_compute in EL. subst L. cbn [List.length] in Hj12.
    do 12 (destruct j as [|j]; [
      do 12 (destruct i as [|i]; [
        try (exfalso; lia);
        cbn [nth_error] in Hi, Hj; injection Hi as <-; injection Hj as <-;
        vm_compute in Hpi, Hpj; injection Hpi as <-; injection Hpj as <-;
        vm_compute; discriminate |]); exfalso; lia |]).
    exfalso; lia. }
  split; [exact Hs|].
  destruct (contributors_at_most_ten world_shortlog12) as (cs & Hv & Hlen & Hraw & _ & Hdom).
  exists cs. split; [exact Hv|]. split.
  - rewrite <- (length_map raw), Hraw. reflexivity.
  - exact (Hdom Hs).
Defined.

End ContributorClaims.

(** ** Claims about the churn ranking *)

Module ChurnClaims.
Import JsString Path JsArray JsNumber Table Tally Host Churn Samples.
Import TableFacts TallyFacts ChurnFacts.
Local Open Scope list_scope.


End ChurnClaims.

(** ** Claims about dead code *)

Module DeadCodeClaims.
Import JsString Path JsArray Host DeadCode DeadCodeSpec Samples.
Import ListFacts DeadCodeFacts.
Local Open Scope list_scope.

(** C4, as stated, fails: of twenty-six component files, none of them
    skipped and none mentioned in the (empty) usage excerpt, the last one
    is not reported. *)
Lemma unused_component_claim_counterexample :
  In "/r/web/components/Cz.vue" components26 /\
  component_skipped "/r" under "/r/web/components/Cz.vue" = false /\
  component_used EmptyString "/r/web/components/Cz.vue" = false /\
  ~ In (finding_of "/r" under "/r/web/components/Cz.vue")
       (unusedComponents_of "/r" under components26 EmptyString).
Proof.
  split; [|split; [|split]].
  - vm_compute. tauto.
  - reflexivity.
  - reflexivity.
  - vm_compute. intuition discriminate.
Qed.

(** C4, amended.  The unused-component findings are, in scan order, the
    first 25 candidates that pass the skip-list (name other than [index]
    in any letter case, relative path without [/pages/] and without
    [/layouts/]) and whose name and kebab-case variant both fail to occur
    in the usage excerpt.  So a reported candidate always has these
    properties, and when at most 25 candidates have them a candidate is
    reported if and only if it has them. *)
Theorem unused_component_reported
        (repoPath : string) (relative : string -> string -> string)
        (files : list string) (allUsages : string) :
  let out := unusedComponents_of repoPath relative files allUsages in
  let name f := basename_ext f (extname f) in
  (forall f, qualifies repoPath relative allUsages f = true <->
     toLowerCase (name f) <> "index" /\
     includes (relative repoPath f) "/pages/" = false /\
     includes (relative repoPath f) "/layouts/" = false /\
     includes allUsages (name f) = false /\
     includes allUsages (kebab (name f)) = false) /\
  out = firstn 25 (map (finding_of repoPath relative)
                       (filter (qualifies repoPath relative allUsages) files)) /\
  (forall f, In (finding_of repoPath relative f) out ->
     qualifies repoPath relative allUsages f = true) /\
  ((List.length (filter (qualifies repoPath relative allUsages) files) <= 25)%nat ->
   forall f, In f files ->
     (In (finding_of repoPath relative f) out <->
      qualifies repoPath relative allUsages f = true)).
Proof.
  intros out name. subst out.
  assert (Hsound : forall f,
            In (finding_of repoPath relative f)
               (unusedComponents_of repoPath relative files allUsages) ->
            qualifies repoPath relative allUsages f = true).
  { intros f H. rewrite unusedComponents_spec in H.
    assert (H' : In (finding_of repoPath relative f)
                    (map (finding_of repoPath relative)
                         (filter (qualifies repoPath relative allUsages) files))).
    { rewrite <- (firstn_skipn 25 (map _ _)). apply in_or_app. now left. }
    apply in_map_iff in H' as (f' & E & Hf').
    apply filter_In in Hf' as [_ Hq].
    now rewrite <- (qualifies_finding repoPath relative allUsages f' f E). }
  split; [|split; [|split]].
  - intros f. unfold qualifies, component_skipped, component_used. subst name.
    cbn beta.
    destruct (String.eqb_spec (toLowerCase (basename_ext f (extname f))) "index") as [E|E];
      destruct (includes (relative repoPath f) "/pages/");
      destruct (includes (relative repoPath f) "/layouts/");
      destruct (includes allUsages (basename_ext f (extname f)));
      destruct (includes allUsages (kebab (basename_ext f (extname f))));
      cbn [orb andb negb]; intuition congruence.
  - apply unusedComponents_spec.
  - exact Hsound.
  - intros Hlen f Hf. split; [apply Hsound|].
    intros Hq. rewrite unusedComponents_spec.
    rewrite firstn_all2 by (now rewrite length_map).
    apply in_map, filter_In. now split.
Qed.

(** The amended C4 at work: with three candidates, [NavBar] imported,
    [index] skipped, the report is exactly [Footer]. *)
Lemma unused_component_reported_witness :
  In (finding_of "/r" under "/r/web/components/Footer.vue")
     (unusedComponents_of "/r" under
        ["/r/web/components/NavBar.vue"; "/r/web/components/index.vue";
         "/r/web/components/Footer.vue"]
        "import NavBar from './NavBar.vue'").
Proof.
  apply (proj2 (proj2 (proj2 (unused_component_reported "/r" under
           ["/r/web/components/NavBar.vue"; "/r/web/components/index.vue";
            "/r/web/components/Footer.vue"]
           "import NavBar from './NavBar.vue'")))).
  - vm_compute. lia.
  - simpl. tauto.
  - reflexivity.
Defined.

(** C10.  The dead-code report always exists and is bounded: at most 25
    unused components, 20 unused exports and 20 orphaned files; the
    export findings are the first 20 of a list of at most 30 * 5, each
    drawn from one of the first 30 candidate files and one of the first 5
    export matches of that file. *)
Theorem dead_code_bounded
        (repoPath : string) (relative : string -> string -> string) (w : World) :
  exists r found,
    deadCode repoPath relative w = Value r /\
    (List.length (unusedComponents r) <= 25)%nat /\
    (List.length (unusedExports r) <= 20)%nat /\
    (List.length (unusedFiles r) <= 20)%nat /\
    unusedExports r = firstn 20 found /\
    (List.length found <= 30 * 5)%nat /\
    (forall e, In e found ->
       exists f content exp,
         In f (firstn 30 (listed w (find_ts_cmd repoPath))) /\
         readFileSync w f = Some content /\
         In exp (firstn 5 (export_matches content)) /\
         export_finding repoPath relative
           (output_or w (grep_imports_cmd repoPath) EmptyString) f exp = Some e).
Proof.
  set (imports := output_or w (grep_imports_cmd repoPath) EmptyString).
  set (found := flat_map (file_findings repoPath relative w imports)
                         (slice0 30 (listed w (find_ts_cmd repoPath)))).
  eexists. exists found. split.
  - apply deadCode_value.
  - cbn [unusedComponents unusedExports unusedFiles]. repeat split.
    + apply firstn_le_length.
    + apply firstn_le_length.
    + apply firstn_le_length.
    + unfold found. etransitivity.
      * apply flat_map_length_le. intros a. apply file_findings_length.
      * unfold slice0. pose proof (firstn_le_length 30 (listed w (find_ts_cmd repoPath))).
        lia.
    + intros e He. unfold found in He.
      apply in_flat_map in He as (f & Hf & He).
      unfold file_findings in He.
      destruct (mem _ entry_points); [contradiction|].
      destruct (readFileSync w f) as [content|] eqn:Hr; [|contradiction].
      apply filter_some_In, in_map_iff in He as (exp & Hexp & Hin).
      now exists f, content, exp.
Qed.

End DeadCodeClaims.

(** ** Claims about compliance *)

Module ComplianceClaims.
Import JsString Path JsArray JsNumber Host Compliance ComplianceSpec Samples.
Import ListFacts RoundFacts ComplianceFacts.
Local Open Scope list_scope.

(** C2.  The score is [Math.round] of 100 times the number of found
    categories over the 7 categories of the taxonomy: the scorer counts
    exactly the categories whose [found] flag is set, and the score is
    the integer nearest to 100 n / 7 for that count n; without
    compliance data it is 0.  A scan marks a category as found exactly
    when a matched file is attributed to it.  So when the search matched
    at least one file, every matched file bearing the stem [stripe] or
    [payout] in its path and no stem of another category, payment
    compliance is found, the six other categories are not, and the score
    is 14. *)
Theorem compliance_score_payment_only
        (repoPath : string) (relative : string -> string -> string) (w : World) :
  (forall c : Compliance,
     let n := categories_found c in
     0 <= n <= 7 /\
     totalChecks = 7 /\
     passedChecks (compliance_object (Some c)) = n /\
     complianceScore (Some c) = percent n 7 /\
     2 * Z.abs (7 * complianceScore (Some c) - 100 * n) < 7) /\
  complianceScore None = 0 /\
  (exists c,
     compliance repoPath relative w = Value c /\
     forall k, found (get c k) = existsb (attributed k) (matched_files repoPath w)) /\
  (matched_files repoPath w <> [] ->
   (forall f, In f (matched_files repoPath w) ->
      (includes (toLowerCase f) "stripe" = true \/
       includes (toLowerCase f) "payout" = true) /\
      (forall k, k <> PaymentCompliance -> attributed k f = false)) ->
   exists c,
     compliance repoPath relative w = Value c /\
     found (paymentCompliance c) = true /\
     (forall k, k <> PaymentCompliance -> found (get c k) = false) /\
     categories_found c = 1 /\
     found_count c = 1 /\
     complianceScore (Some c) = 14).
Proof.
  assert (Hcount : forall c, passedChecks (compliance_object (Some c)) = categories_found c).
  { intros c. unfold passedChecks, complianceItems, keys, item_found, compliance_object,
      categories_found.
    cbn [filter get].
    destruct (found (ageVerification c)), (found (contentModeration c)),
      (found (identityVerification c)), (found (reportingMechanism c)),
      (found (recordKeeping c)), (found (userSafety c)), (found (paymentCompliance c));
      reflexivity. }
  split; [|split; [|split]].
  - intros c n.
    pose proof (passedChecks_range (compliance_object (Some c))) as Hn.
    rewrite Hcount in Hn. fold n in Hn.
    unfold complianceScore. rewrite Hcount. fold n.
    change totalChecks with 7. repeat split; try lia.
    now apply score_nearest.
  - reflexivity.
  - eexists. split; [apply compliance_value|].
    intros k. apply found_scan_result.
  - intros Hne Hall. eexists. split; [apply compliance_value|].
    set (c := scan_result repoPath relative (matched_files repoPath w)).
    assert (Hpay : found (get c PaymentCompliance) = true).
    { unfold c. rewrite found_scan_result.
      destruct (matched_files repoPath w) as [|f l]; [congruence|].
      destruct (Hall f (or_introl eq_refl)) as [[H|H] _];
        cbn [existsb attributed stems]; rewrite H; now rewrite ?orb_true_r. }
    assert (Hother : forall k, k <> PaymentCompliance -> found (get c k) = false).
    { intros k Hk. unfold c. rewrite found_scan_result.
      apply not_true_is_false. intros H.
      apply existsb_exists in H as (f & Hf & Ha).
      destruct (Hall f Hf) as [_ Hno]. rewrite (Hno k Hk) in Ha. discriminate. }
    assert (Hfound : found_count c = 1).
    { rewrite found_count_filter. unfold keys. cbn [filter].
      rewrite Hpay, !Hother by discriminate. reflexivity. }
    split; [exact Hpay|]. split; [exact Hother|].
    split; [rewrite <- Hcount; exact Hfound|]. split; [exact Hfound|].
    unfold complianceScore. fold (found_count c). now rewrite Hfound.
Qed.

Lemma compliance_score_payment_only_witness :
  exists c,
    compliance "/r" under world_payments = Value c /\
    found (paymentCompliance c) = true /\
    (forall k, k <> PaymentCompliance -> found (get c k) = false) /\
    categories_found c = 1 /\
    found_count c = 1 /\
    complianceScore (Some c) = 14.
Proof.
  apply (proj2 (proj2 (proj2 (compliance_score_payment_only "/r" under world_payments)))).
  - vm_compute. discriminate.
  - intros f Hf. vm_compute in Hf.
    destruct Hf as [<-|[<-|[]]]; (split; [vm_compute; auto | intros [] Hk; try reflexivity; congruence]).
Defined.

(** C8, as stated, fails: a file can be attributed to two categories not
    found before, and then the number of found categories grows by 2. *)
Lemma compliance_monotonic_claim_counterexample :
  attributed IdentityVerification "/r/src/kyc/report.ts" = true /\
  found (get (scan_result "/r" under []) IdentityVerification) = false /\
  found_count (scan_result "/r" under ["/r/src/kyc/report.ts"]) =
  found_count (scan_result "/r" under []) + 2.
Proof. repeat split. Qed.

(** C8, amended.  Adding a matched file marks exactly the categories it
    is attributed to, so the number of found categories grows by the
    number of categories the file is attributed to that were not found
    before; when that is one category the count grows by exactly 1 and
    the score moves up to the rounded percentage of the new count; a file
    attributed only to categories already found, in particular a file
    matched already, changes no found flag and leaves the score as it
    was. *)
Theorem compliance_monotonic
        (repoPath : string) (relative : string -> string -> string)
        (before after : list string) (f : string) :
  let c0 := scan_result repoPath relative (before ++ after) in
  let c1 := scan_result repoPath relative (before ++ f :: after) in
  (forall k, found (get c1 k) = found (get c0 k) || attributed k f) /\
  found_count c1 = found_count c0 + Z.of_nat (List.length (newly_found c0 f)) /\
  (List.length (newly_found c0 f) = 1%nat ->
     found_count c1 = found_count c0 + 1 /\
     complianceScore (Some c1) = percent (found_count c0 + 1) 7 /\
     complianceScore (Some c0) < complianceScore (Some c1)) /\
  ((forall k, attributed k f = true -> found (get c0 k) = true) ->
     (forall k, found (get c1 k) = found (get c0 k)) /\
     complianceScore (Some c1) = complianceScore (Some c0)) /\
  (In f (before ++ after) ->
     (forall k, found (get c1 k) = found (get c0 k)) /\
     complianceScore (Some c1) = complianceScore (Some c0)).
Proof.
  intros c0 c1.
  assert (Hflag : forall k, found (get c1 k) = found (get c0 k) || attributed k f).
  { intros k. unfold c0, c1. rewrite !found_scan_result, !existsb_app. simpl.
    destruct (existsb (attributed k) before), (attributed k f),
             (existsb (attributed k) after); reflexivity. }
  assert (Hcount : found_count c1 =
                   found_count c0 + Z.of_nat (List.length (newly_found c0 f))).
  { rewrite !found_count_filter. unfold newly_found.
    rewrite (filter_ext _ (fun k => found (get c0 k) || attributed k f) Hflag).
    rewrite count_or. lia. }
  assert (Hsame : (forall k, attributed k f = true -> found (get c0 k) = true) ->
            (forall k, found (get c1 k) = found (get c0 k)) /\
            complianceScore (Some c1) = complianceScore (Some c0)).
  { intros Hold.
    assert (Hk : forall k, found (get c1 k) = found (get c0 k)).
    { intros k. rewrite Hflag. destruct (attributed k f) eqn:E.
      - rewrite (Hold k E). reflexivity.
      - apply orb_false_r. }
    split; [exact Hk|].
    unfold complianceScore. fold (found_count c1). fold (found_count c0).
    rewrite !found_count_filter. now rewrite (filter_ext _ _ Hk). }
  split; [exact Hflag|]. split; [exact Hcount|]. split; [|split].
  - intros Hone. rewrite Hone in Hcount.
    assert (Hc0 : 0 <= found_count c0 <= 7) by apply passedChecks_range.
    assert (Hc1 : 0 <= found_count c1 <= 7) by apply passedChecks_range.
    split; [exact Hcount|].
    unfold complianceScore. fold (found_count c1). fold (found_count c0).
    change totalChecks with 7. rewrite Hcount. split; [reflexivity|].
    apply score_step. lia.
  - exact Hsame.
  - intros Hin. apply Hsame. intros k Hk. unfold c0.
    rewrite found_scan_result. apply existsb_exists. now exists f.
Qed.

(** The amended C8 at work: a payout job joins a KYC report. *)
Lemma compliance_monotonic_witness :
  found_count (scan_result "/r" under ["/r/src/kyc/report.ts"; "/r/src/jobs/payout.ts"]) =
  found_count (scan_result "/r" under ["/r/src/kyc/report.ts"]) + 1 /\
  complianceScore (Some (scan_result "/r" under ["/r/src/kyc/report.ts"])) <
  complianceScore (Some (scan_result "/r" under
                           ["/r/src/kyc/report.ts"; "/r/src/jobs/payout.ts"])).
Proof.
  destruct (proj1 (proj2 (proj2
    (compliance_monotonic "/r" under ["/r/src/kyc/report.ts"] []
                          "/r/src/jobs/payout.ts"))) eq_refl) as (H1 & _ & H3).
  split; [exact H1 | exact H3].
Defined.

End ComplianceClaims.

(** ** Claims about the run *)

Module RunClaims.
Import JsString Path JsArray Json Host Run ContributorSpec Samples.
Import ListFacts ContributorFacts DeadCodeFacts ComplianceFacts RunFacts.
Local Open Scope list_scope.




End RunClaims.

(** * Properties of the rest of the code *)

(** ** Strings *)

Module StringFacts.
Import JsString Path.
Local Open Scope list_scope.

Lemma trimStart_list (s : string) :
  list_ascii_of_string (trimStart s) = dropWhile is_space (list_ascii_of_string s).
Proof.
  induction s as [|c s IH]; [reflexivity|]. simpl. destruct (is_space c); [exact IH | reflexivity].
Qed.

(** [trim] on the list of characters. *)
Lemma trim_list (s : string) :
  list_ascii_of_string (trim s) =
  List.rev (dropWhile is_space (List.rev (dropWhile is_space (list_ascii_of_string s)))).
Proof.
  unfold trim, JsString.rev.
  rewrite list_ascii_of_string_of_list_ascii, trimStart_list,
          list_ascii_of_string_of_list_ascii, trimStart_list.
  reflexivity.
Qed.

Lemma dropWhile_suffix {A} (p : A -> bool) (l : list A) :
  exists pre, l = pre ++ dropWhile p l.
Proof.
  induction l as [|x l [pre IH]]; [now exists []|]. simpl.
  destruct (p x); [exists (x :: pre); simpl; now f_equal | now exists []].
Qed.

Lemma dropWhile_head {A} (p : A -> bool) (l : list A) (x : A) (r : list A) :
  dropWhile p l = x :: r -> p x = false.
Proof.
  induction l as [|y l IH]; simpl; [discriminate|].
  destruct (p y) eqn:E; [exact IH | intros [= <- _]; exact E].
Qed.

Lemma dropWhile_id {A} (p : A -> bool) (l : list A) :
  match l with [] => True | x :: _ => p x = false end -> dropWhile p l = l.
Proof. destruct l as [|x l]; simpl; [reflexivity | now intros ->]. Qed.

Lemma dropWhile_all {A} (p : A -> bool) (l1 l2 : list A) :
  forallb p l1 = true -> dropWhile p (l1 ++ l2) = dropWhile p l2.
Proof.
  induction l1 as [|x l1 IH]; simpl; [reflexivity|].
  intros H. apply andb_true_iff in H as [-> H]. now apply IH.
Qed.

Lemma takeWhile_all {A} (p : A -> bool) (l1 l2 : list A) :
  forallb p l1 = true ->
  match l2 with [] => True | x :: _ => p x = false end ->
  takeWhile p (l1 ++ l2) = l1.
Proof.
  induction l1 as [|x l1 IH]; simpl; intros H1 H2.
  - destruct l2 as [|y l2]; simpl; [reflexivity | now rewrite H2].
  - apply andb_true_iff in H1 as [-> H1]. f_equal. now apply IH.
Qed.

Lemma takeWhile_dropWhile {A} (p : A -> bool) (l : list A) :
  l = takeWhile p l ++ dropWhile p l.
Proof.
  induction l as [|x l IH]; [reflexivity|]. simpl.
  destruct (p x); simpl; [now f_equal | reflexivity].
Qed.

Lemma takeWhile_forallb {A} (p : A -> bool) (l : list A) :
  forallb p (takeWhile p l) = true.
Proof.
  induction l as [|x l IH]; [reflexivity|]. simpl.
  destruct (p x) eqn:E; simpl; [now rewrite E | reflexivity].
Qed.

(** A trimmed list neither starts nor ends with white space. *)
Lemma trimmed_ends (l : list ascii) :
  let t := List.rev (dropWhile is_space (List.rev (dropWhile is_space l))) in
  dropWhile is_space t = t /\ dropWhile is_space (List.rev t) = List.rev t.
Proof.
  intros t. subst t.
  set (l' := dropWhile is_space l).
  set (r := dropWhile is_space (List.rev l')).
  rewrite rev_involutive.
  assert (Hr : dropWhile is_space r = r).
  { apply dropWhile_id. destruct r as [|x r'] eqn:E; [exact I|].
    exact (dropWhile_head _ _ _ _ E). }
  split; [|exact Hr].
  destruct (dropWhile_suffix is_space (List.rev l')) as [pre Hpre]. fold r in Hpre.
  assert (Hl' : l' = List.rev r ++ List.rev pre).
  { rewrite <- rev_app_distr, <- Hpre. now rewrite rev_involutive. }
  apply dropWhile_id.
  destruct (List.rev r) as [|x t] eqn:E; [exact I|].
  simpl in Hl'.
  exact (dropWhile_head is_space l x (t ++ List.rev pre) Hl').
Qed.

(** Trimming twice is trimming once. *)
Lemma trim_idempotent (s : string) : trim (trim s) = trim s.
Proof.
  rewrite <- (string_of_list_ascii_of_string (trim (trim s))).
  rewrite <- (string_of_list_ascii_of_string (trim s)) at 2.
  f_equal. rewrite (trim_list (trim s)), (trim_list s).
  destruct (trimmed_ends (list_ascii_of_string s)) as [H1 H2].
  cbv zeta in H1, H2. rewrite H1, H2. apply rev_involutive.
Qed.

End StringFacts.

(** ** Contributors, further *)

Module ContributorMoreFacts.
Import JsString Path JsArray JsNumber Table Tally Host Contributors ContributorSpec
       ContributorMore.
Import ListFacts TableFacts TallyFacts RoundFacts ContributorFacts ChurnFacts StringFacts.
Local Open Scope list_scope.

Lemma incr_if_get (b : bool) (c k : category) (p : PerCategory) :
  get p k <= get (incr_if b c p) k <= get p k + 1.
Proof. destruct b, c, k; destruct p; cbn; lia. Qed.

Lemma incr_if_other (b : bool) (c k : category) (p : PerCategory) :
  c <> k -> get (incr_if b c p) k = get p k.
Proof. destruct b, c, k; destruct p; cbn; congruence. Qed.

(** One history line raises each category by at most one. *)
Lemma on_line_counts (st : scan) (line : string) (k : category) :
  get (categoryBreakdown st) k <= get (categoryBreakdown (on_line st line)) k
  <= get (categoryBreakdown st) k + 1.
Proof.
  unfold on_line. destruct (is_commit_line line).
  - unfold on_commit_line. cbn [categoryBreakdown]. unfold categories.
    cbn [fold_left]. cbv beta.
    generalize (categoryBreakdown st). intros p.
    generalize (existsb (fun pat => includes (toLowerCase line) pat) (patterns Frontend)).
    generalize (existsb (fun pat => includes (toLowerCase line) pat) (patterns Backend)).
    generalize (existsb (fun pat => includes (toLowerCase line) pat) (patterns Database)).
    generalize (existsb (fun pat => includes (toLowerCase line) pat) (patterns Auth)).
    generalize (existsb (fun pat => includes (toLowerCase line) pat) (patterns Devops)).
    generalize (existsb (fun pat => includes (toLowerCase line) pat) (patterns Testing)).
    generalize (existsb (fun pat => includes (toLowerCase line) pat) (patterns Docs)).
    intros b7 b6 b5 b4 b3 b2 b1.
    destruct p, k, b1, b2, b3, b4, b5, b6, b7; cbn; lia.
  - destruct (truthy (trim line)); [|lia].
    unfold on_file_line. cbn [categoryBreakdown]. cbv zeta.
    generalize (categoryBreakdown st). intros p.
    match goal with |- context [incr_if ?b Docs _] => generalize b end.
    match goal with |- context [incr_if ?b Testing _] => generalize b end.
    match goal with |- context [incr_if ?b Devops _] => generalize b end.
    match goal with |- context [incr_if ?b Auth _] => generalize b end.
    match goal with |- context [incr_if ?b Database _] => generalize b end.
    match goal with |- context [incr_if ?b Backend _] => generalize b end.
    match goal with |- context [incr_if ?b Frontend _] => generalize b end.
    intros b1 b2 b3 b4 b5 b6 b7.
    destruct p, k, b1, b2, b3, b4, b5, b6, b7; cbn; lia.
Qed.

Lemma scan_counts_from (ls : list string) (st : scan) (k : category) :
  get (categoryBreakdown st) k <= get (categoryBreakdown (fold_left on_line ls st)) k
  <= get (categoryBreakdown st) k + Z.of_nat (List.length ls).
Proof.
  revert st. induction ls as [|l ls IH]; intros st; [simpl; lia|].
  cbn [fold_left List.length]. specialize (IH (on_line st l)).
  pose proof (on_line_counts st l k). lia.
Qed.

Lemma scan_counts (ls : list string) (k : category) :
  0 <= get (categoryBreakdown (scan_lines ls)) k <= Z.of_nat (List.length ls).
Proof.
  pose proof (scan_counts_from ls scan0 k) as H. unfold scan_lines.
  replace (get (categoryBreakdown scan0) k) with 0 in H by (now destruct k). lia.
Qed.

Lemma radar_get (cb : PerCategory) (k : category) :
  get (radarData_of cb) k = percent (get cb k) (totalCatHits cb).
Proof. destruct k; reflexivity. Qed.

(** A share of a positive whole is a percentage between 0 and 100. *)
Lemma percent_range (a b : Z) : 0 <= a <= b -> 0 < b -> 0 <= percent a b <= 100.
Proof.
  intros Ha Hb. rewrite percent_pos by exact Hb. split.
  - apply Z.div_pos; lia.
  - apply Z.lt_succ_r. apply Z.div_lt_upper_bound; lia.
Qed.

Lemma percent_mono (a a' b : Z) : 0 < b -> a <= a' -> percent a b <= percent a' b.
Proof.
  intros Hb H. rewrite !percent_pos by exact Hb. apply Z.div_le_mono; lia.
Qed.

Lemma percent_whole (b : Z) : 0 < b -> percent b b = 100.
Proof.
  intros Hb. rewrite percent_pos by exact Hb.
  symmetry. apply (Z.div_unique _ _ 100 b); lia.
Qed.

Lemma percent_zero (b : Z) : 0 < b -> percent 0 b = 0.
Proof.
  intros Hb. rewrite percent_pos by exact Hb. apply Z.div_small. lia.
Qed.

Lemma get_le_sum (cb : PerCategory) (k : category) :
  (forall c, 0 <= get cb c) -> get cb k <= sum (values cb).
Proof.
  intros H.
  pose proof (H Frontend). pose proof (H Backend). pose proof (H Database).
  pose proof (H Auth). pose proof (H Devops). pose proof (H Testing). pose proof (H Docs).
  destruct cb, k; unfold sum, values; cbn in *; lia.
Qed.

Lemma radar_range (cb : PerCategory) (k : category) :
  (forall c, 0 <= get cb c) -> 0 <= get (radarData_of cb) k <= 100.
Proof.
  intros H. rewrite radar_get. unfold totalCatHits, or_default.
  pose proof (get_le_sum cb k H) as Hle. pose proof (H k) as Hk.
  destruct (Z.eqb_spec (sum (values cb)) 0) as [E|E].
  - assert (get cb k = 0) as -> by lia. now rewrite percent_zero.
  - apply percent_range; lia.
Qed.

(** One line changes [areasTouched] by its area, if it has one. *)
Lemma on_line_areas (st : scan) (line : string) :
  areasTouched (on_line st line) =
  match area_of_line line with
  | Some area => bump area (areasTouched st)
  | None => areasTouched st
  end.
Proof.
  unfold on_line, area_of_line.
  destruct (is_commit_line line); [reflexivity|].
  destruct (truthy (trim line)); [|reflexivity].
  unfold on_file_line. cbn [areasTouched].
  destruct (1 <? List.length (split slash line))%nat; [|reflexivity].
  destruct (find_area (split slash line)) as [area|]; [|reflexivity].
  now destruct (truthy area).
Qed.

Lemma scan_areas_from (ls : list string) (st : scan) :
  areasTouched (fold_left on_line ls st) =
  fold_left (fun t k => bump k t) (touched_areas ls) (areasTouched st).
Proof.
  revert st. induction ls as [|l ls IH]; intros st; [reflexivity|].
  cbn [fold_left]. rewrite IH, on_line_areas.
  unfold touched_areas. cbn [map filter_some].
  now destruct (area_of_line l).
Qed.

(** [areasTouched] is the tally of the areas of the file lines. *)
Lemma scan_areas (ls : list string) :
  areasTouched (scan_lines ls) = tally (touched_areas ls).
Proof. unfold scan_lines. now rewrite scan_areas_from. Qed.

(** What makes a path segment an area. *)
Lemma area_of_line_spec (line area : string) :
  area_of_line line = Some area ->
  In area (split slash line) /\ (1 < String.length area)%nat /\
  ~ In area ["src"; "app"; "lib"; "."]%string.
Proof.
  unfold area_of_line.
  destruct (is_commit_line line); [discriminate|].
  destruct (truthy (trim line)); [|discriminate].
  destruct (1 <? List.length (split slash line))%nat; [|discriminate].
  destruct (find_area (split slash line)) as [a|] eqn:E; [|discriminate].
  destruct (truthy a); [|discriminate]. intros [= <-].
  unfold find_area in E. apply find_some in E as [Hin Hp].
  apply andb_true_iff in Hp as [Hstop Hlen].
  split; [exact Hin|]. split; [now apply Nat.ltb_lt|].
  apply negb_true_iff in Hstop. now apply mem_false.
Qed.

Lemma touched_areas_In (ls : list string) (a : string) :
  In a (touched_areas ls) -> exists line, In line ls /\ area_of_line line = Some a.
Proof.
  unfold touched_areas. intros H.
  apply filter_some_In, in_map_iff in H as (line & E & Hin). now exists line.
Qed.

Lemma is_digit_not_space (c : ascii) : is_digit c = true -> is_space c = false.
Proof.
  destruct c as [[] [] [] [] [] [] [] []]; vm_compute; congruence.
Qed.

Lemma is_space_not_digit (c : ascii) : is_space c = true -> is_digit c = false.
Proof.
  destruct c as [[] [] [] [] [] [] [] []]; vm_compute; congruence.
Qed.

End ContributorMoreFacts.

(** ** More about contributors *)

Module ContributorMoreClaims.
Import JsString Path JsArray JsNumber Table Tally Host Contributors ContributorSpec
       ContributorMore Samples.
Import ListFacts TableFacts TallyFacts RoundFacts ContributorFacts ChurnFacts StringFacts
       ContributorMoreFacts.
Local Open Scope list_scope.

(** X1.  Every radar value of every contributor is a percentage between
    0 and 100, whatever the history holds. *)
Theorem radar_values_are_percentages (c : RawContributor) (commitData : list string)
        (k : category) :
  0 <= get (radarData (analyse c commitData)) k <= 100.
Proof.
  unfold analyse. cbn [radarData]. apply radar_range.
  intros cat. apply scan_counts.
Qed.

(** X2.  A history line raises a category count by at most one, so every
    count lies between 0 and the number of lines read. *)
Theorem breakdown_bounded_by_history (c : RawContributor) (commitData : list string)
        (k : category) :
  0 <= get (breakdown (analyse c commitData)) k <= Z.of_nat (List.length commitData).
Proof. unfold analyse. cbn [breakdown]. apply scan_counts. Qed.

(** X3.  When no area touched is a run of digits or a name inherited
    from [Object.prototype]: the top areas of a contributor are at most
    two distinct path segments, each longer than one character and none
    of [src], [app], [lib], [.]; the first of them is the area touched
    most (first encountered among equals) and is the expertise; without
    any area the expertise is the focus label. *)
Theorem top_areas (c : RawContributor) (commitData : list string) :
  forallb plain_key (touched_areas commitData) = true ->
  let r := analyse c commitData in
  let areas := touched_areas commitData in
  (List.length (topAreas r) <= 2)%nat /\
  NoDup (topAreas r) /\
  (forall a, In a (topAreas r) ->
     (exists line, In line commitData /\ In a (split slash line)) /\
     (1 < String.length a)%nat /\
     ~ In a ["src"; "app"; "lib"; "."]%string) /\
  (areas = [] -> topAreas r = [] /\ expertise r = focus r) /\
  (forall a, most_counted areas a -> hd_error (topAreas r) = Some a /\ expertise r = a).
Proof.
  intros _ r areas. subst r. unfold analyse. cbn [topAreas expertise focus].
  rewrite scan_areas. fold areas.
  set (s := sort_desc (tally areas)).
  assert (Hkeys : forall a, In a (map fst s) -> In a areas).
  { intros a Ha. apply keys_tally_In.
    eapply Permutation_in; [|exact Ha]. apply Permutation_map, sort_desc_perm. }
  assert (Hsub : forall a, In a (slice0 2 (map fst (slice0 3 s))) -> In a areas).
  { intros a Ha. apply Hkeys. unfold slice0 in Ha.
    apply (In_firstn_nth 2) in Ha as (i & _ & Ha). apply nth_error_In in Ha.
    rewrite <- firstn_map in Ha.
    apply (In_firstn_nth 3) in Ha as (j & _ & Ha). now apply nth_error_In in Ha. }
  split; [apply firstn_le_length|]. split; [|split; [|split]].
  - unfold slice0. rewrite <- firstn_map. apply NoDup_firstn', NoDup_firstn'.
    apply (Permutation_NoDup (l := map fst (tally areas))).
    + apply Permutation_map. symmetry. apply sort_desc_perm.
    + apply keys_tally_NoDup.
  - intros a Ha. apply Hsub, touched_areas_In in Ha as (line & Hin & E).
    apply area_of_line_spec in E as (H1 & H2 & H3).
    split; [now exists line|]. now split.
  - intros E. unfold s. rewrite E. cbn. split; reflexivity.
  - intros a Ha. destruct (most_counted_head _ _ Ha) as [rest Hs].
    unfold s. rewrite Hs. cbn [slice0 firstn map fst hd_error].
    split; [now destruct rest|].
    destruct Ha as [Hin _]. apply touched_areas_In in Hin as (line & _ & E).
    apply area_of_line_spec in E as (_ & Hlen & _).
    destruct a as [|ch a']; [simpl in Hlen; lia | reflexivity].
Qed.

Lemma top_areas_witness :
  hd_error (topAreas (analyse (mkRaw 2 "dev")
    ["1a2b3c4 add pages"; "src/web/Home.vue"; "src/web/About.vue"; "docs/intro.md"]))
  = Some "web"%string.
Proof.
  refine (proj1 (proj2 (proj2 (proj2 (proj2 (top_areas (mkRaw 2 "dev")
    ["1a2b3c4 add pages"; "src/web/Home.vue"; "src/web/About.vue"; "docs/intro.md"]%string
    _)))) "web"%string _)).
  - reflexivity.
  - apply most_counted_of_sort. reflexivity.
Defined.

(** X4.  A line of the author summary laid out as padding, decimal
    digits that denote a count of at most 2^53, white space and an
    author (without line terminators and without white space at either
    end) is read back as that count and that author. *)
Theorem shortlog_line_parsed (pad digits sep author : list ascii) :
  forallb is_space pad = true ->
  digits <> [] -> forallb is_digit digits = true ->
  parseInt digits <= 2 ^ 53 ->
  sep <> [] -> forallb is_space sep = true ->
  author <> [] -> no_outer_space author ->
  existsb is_line_terminator author = false ->
  parse_shortlog_line (shortlog_line pad digits sep author) =
  Some (mkRaw (parseInt digits) (string_of_list_ascii author)).
Proof.
  intros Hpad Hd0 Hd _ Hs0 Hs Ha0 [Ha1 Ha2] Hterm.
  destruct digits as [|d ds]; [congruence|]. destruct sep as [|sp sps]; [congruence|].
  destruct author as [|a au]; [congruence|].
  pose proof Hd as Hd'. cbn [forallb] in Hd'. apply andb_true_iff in Hd' as [Hdd _].
  pose proof Hs as Hs'. cbn [forallb] in Hs'. apply andb_true_iff in Hs' as [Hsp _].
  assert (Hahead : is_space a = false).
  { cbn [dropWhile] in Ha1. destruct (is_space a) eqn:E; [|reflexivity].
    exfalso. destruct (dropWhile_suffix is_space au) as [pre Hpre].
    rewrite Ha1 in Hpre. apply (f_equal (@List.length ascii)) in Hpre.
    rewrite length_app in Hpre. simpl in Hpre. lia. }
  set (body := (d :: ds) ++ (sp :: sps) ++ a :: au).
  assert (Htrim : list_ascii_of_string (trim (shortlog_line pad (d :: ds) (sp :: sps) (a :: au)))
                  = body).
  { rewrite trim_list. unfold shortlog_line.
    rewrite list_ascii_of_string_of_list_ascii.
    rewrite (dropWhile_all is_space pad _ Hpad).
    assert (E1 : dropWhile is_space body = body).
    { unfold body. cbn [app dropWhile]. now rewrite (is_digit_not_space d Hdd). }
    fold body. rewrite E1.
    assert (E2 : dropWhile is_space (List.rev body) = List.rev body).
    { unfold body. rewrite !rev_app_distr.
      assert (Hne : List.rev (a :: au) <> []).
      { intros H. apply (f_equal (@List.rev ascii)) in H.
        rewrite rev_involutive in H. discriminate. }
      destruct (List.rev (a :: au)) as [|z zs] eqn:Er; [congruence|].
      cbn [app dropWhile]. cbn [dropWhile] in Ha2.
      destruct (is_space z) eqn:Ez; [|reflexivity].
      exfalso. destruct (dropWhile_suffix is_space zs) as [pre Hpre].
      rewrite Ha2 in Hpre. apply (f_equal (@List.length ascii)) in Hpre.
      rewrite length_app in Hpre. simpl in Hpre. lia. }
    rewrite E2. apply rev_involutive. }
  unfold parse_shortlog_line. rewrite Htrim.
  assert (E1 : dropWhile is_space body = body).
  { unfold body. cbn [app dropWhile]. now rewrite (is_digit_not_space d Hdd). }
  rewrite E1. unfold body.
  rewrite (takeWhile_all is_digit (d :: ds) _ Hd)
    by (cbn [app]; now apply is_space_not_digit).
  assert (E3 : dropWhile is_digit ((d :: ds) ++ (sp :: sps) ++ a :: au)
               = (sp :: sps) ++ a :: au).
  { rewrite (dropWhile_all is_digit (d :: ds) _ Hd). cbn [app dropWhile].
    now rewrite (is_space_not_digit sp Hsp). }
  rewrite E3.
  rewrite (takeWhile_all is_space (sp :: sps) _ Hs) by exact Hahead.
  rewrite (dropWhile_all is_space (sp :: sps) _ Hs).
  cbn [dropWhile]. rewrite Hahead. now rewrite Hterm.
Qed.

Lemma shortlog_line_parsed_witness :
  parse_shortlog_line
    (shortlog_line (list_ascii_of_string "   ") (list_ascii_of_string "390")
                   (list_ascii_of_string " ") (list_ascii_of_string "Zach Handley"))
  = Some (mkRaw 390 "Zach Handley").
Proof.
  apply (shortlog_line_parsed (list_ascii_of_string "   ") (list_ascii_of_string "390")
           (list_ascii_of_string " ") (list_ascii_of_string "Zach Handley"));
    try reflexivity; try discriminate.
  split; reflexivity.
Defined.

End ContributorMoreClaims.

(** ** Statistics and page values *)

Module PageFacts.
Import JsString Path JsArray JsNumber Table Tally Host Contributors ContributorSpec
       Stats Pages.
Import ListFacts TableFacts TallyFacts RoundFacts ContributorFacts ChurnFacts StringFacts
       ContributorMoreFacts.
Local Open Scope list_scope.

Lemma mapi_from_map {A B C} (f : A -> nat -> B) (g : B -> C) (h : A -> C) (i : nat)
      (l : list A) :
  (forall x j, g (f x j) = h x) -> map g (mapi_from i f l) = map h l.
Proof.
  intros H. revert i. induction l as [|x l IH]; intros i; [reflexivity|].
  simpl. now rewrite H, IH.
Qed.

Lemma mapi_from_length {A B} (f : A -> nat -> B) (i : nat) (l : list A) :
  List.length (mapi_from i f l) = List.length l.
Proof.
  revert i. induction l as [|x l IH]; intros i; [reflexivity|]. simpl. now rewrite IH.
Qed.

Lemma mapi_from_index {A B} (f : A -> nat -> B) (g : B -> nat) (k i : nat) (l : list A) :
  (forall x j, g (f x j) = (j + k)%nat) ->
  map g (mapi_from i f l) = seq (i + k) (List.length l).
Proof.
  intros H. revert i. induction l as [|x l IH]; intros i; [reflexivity|].
  simpl. rewrite H. f_equal. apply (IH (S i)).
Qed.

Lemma StronglySorted_filter {A} (R : A -> A -> Prop) (p : A -> bool) (l : list A) :
  StronglySorted R l -> StronglySorted R (filter p l).
Proof.
  induction 1 as [|a l Hl IH Ha]; simpl; [constructor|].
  destruct (p a); [|exact IH]. constructor; [exact IH|].
  rewrite Forall_forall in *. intros b Hb. apply filter_In in Hb as [Hb _]. now apply Ha.
Qed.

Lemma StronglySorted_True {A} (l : list A) : StronglySorted (fun _ _ => True) l.
Proof.
  induction l as [|a l IH]; constructor; [exact IH|].
  rewrite Forall_forall. intros; exact I.
Qed.

(** The descending sort puts larger counts first. *)
Lemma sort_desc_sorted (t : table) :
  StronglySorted (fun a b => snd b <= snd a) (sort_desc t).
Proof.
  eapply StronglySorted_weaken.
  - apply (sort_desc_stable (fun _ _ => True)). apply StronglySorted_True.
  - intros a b _ _ [H|[H _]]; lia.
Qed.

(** Widths taken relative to the first of a descending list of positive
    counts: the first is 100, none exceeds 100, and they descend. *)
Lemma relative_widths (n : nat) (counts : list Z) :
  Forall (fun c => 0 < c) counts ->
  StronglySorted (fun a b => b <= a) counts ->
  let widths := map (fun c => percent c (first_or_1 counts)) (firstn n counts) in
  Forall (fun w => 0 <= w <= 100) widths /\
  StronglySorted (fun a b => b <= a) widths /\
  (forall w, hd_error widths = Some w -> w = 100).
Proof.
  intros Hpos Hsorted widths. subst widths.
  destruct counts as [|c0 r]; [destruct n; simpl; repeat split; try constructor; discriminate|].
  inversion Hpos as [|? ? Hc0 Hr]; subst.
  inversion Hsorted as [|? ? Hsr Hle]; subst.
  cbn [first_or_1]. unfold or_default.
  destruct (Z.eqb_spec c0 0) as [E|_]; [lia|].
  assert (Hall : Forall (fun c => 0 < c <= c0) (c0 :: r)).
  { constructor; [lia|]. rewrite Forall_forall in *. intros c Hc.
    specialize (Hr c Hc). specialize (Hle c Hc). simpl in Hle. lia. }
  assert (Hfirst : Forall (fun c => 0 < c <= c0) (firstn n (c0 :: r))).
  { rewrite Forall_forall in *. intros c Hc. apply Hall.
    rewrite <- (firstn_skipn n (c0 :: r)). apply in_or_app. now left. }
  split; [|split].
  - rewrite Forall_forall in *. intros w Hw.
    apply in_map_iff in Hw as (c & <- & Hc). specialize (Hfirst c Hc).
    apply percent_range; lia.
  - apply (StronglySorted_map (fun a b => b <= a)).
    + intros a b Hab. now apply percent_mono.
    + now apply StronglySorted_firstn.
  - destruct n; simpl; [discriminate|]. intros w [= <-]. now apply percent_whole.
Qed.

Lemma countLines_nonneg (s : string) : 0 <= countLines s.
Proof. unfold countLines. destruct (truthy s); lia. Qed.

End PageFacts.

(** ** More about statistics and pages *)

Module PageClaims.
Import JsString Path JsArray JsNumber Table Tally Host Contributors ContributorSpec
       Stats Pages Samples.
Import ListFacts TableFacts TallyFacts RoundFacts ContributorFacts ChurnFacts StringFacts
       ContributorMoreFacts PageFacts ComplianceFacts.
Local Open Scope list_scope.

(** X5.  The helper [git] never throws and never exits: it returns the
    trimmed output of the command, which trimming again leaves alone, and
    the empty string when the command fails. *)
Theorem git_returns_trimmed (args : string) (w : World) :
  exists out,
    git args w = Value out /\
    trim out = out /\
    (execSync w (Git args) = None -> out = EmptyString) /\
    (forall raw, execSync w (Git args) = Some raw -> out = trim raw).
Proof.
  exists (git_output w args). split; [apply git_value|].
  unfold git_output. destruct (execSync w (Git args)) as [raw|].
  - split; [apply trim_idempotent|]. split; [discriminate | now intros ? [= <-]].
  - split; [reflexivity|]. split; [reflexivity | discriminate].
Qed.

(** X6.  The commit statistics always come back: both counts are
    non-negative, each is 0 when its log query fails (so both are 0 when
    the log cannot be read, and the fix ratio is 0 as soon as the first
    query fails), the fix ratio is 0 when there is no commit, and it is
    a percentage between 0 and 100 whenever the fix commits are among
    the commits counted. *)
Theorem commit_stats_bounds (w : World) :
  exists s,
    commitStats w = Value s /\
    0 <= totalCommits s /\ 0 <= totalFixCommits s /\
    (execSync w (Git "log --oneline") = None -> totalCommits s = 0 /\ fixRatio s = 0) /\
    (execSync w (Git "log --oneline --grep=fix") = None -> totalFixCommits s = 0) /\
    ((forall args, execSync w (Git args) = None) ->
     totalCommits s = 0 /\ totalFixCommits s = 0 /\ fixRatio s = 0) /\
    (totalCommits s = 0 -> fixRatio s = 0) /\
    (totalFixCommits s <= totalCommits s -> 0 <= fixRatio s <= 100).
Proof.
  eexists. split.
  - unfold commitStats, bind. rewrite !git_value. reflexivity.
  - cbn [totalCommits totalFixCommits fixRatio].
    set (total := countLines (git_output w "log --oneline")).
    set (fixes := countLines (git_output w "log --oneline --grep=fix")).
    pose proof (countLines_nonneg (git_output w "log --oneline")) as Ht. fold total in Ht.
    pose proof (countLines_nonneg (git_output w "log --oneline --grep=fix")) as Hf.
    fold fixes in Hf.
    split; [exact Ht|]. split; [exact Hf|]. split; [|split; [|split; [|split]]].
    + intros E. unfold total, git_output. rewrite E. split; reflexivity.
    + intros E. unfold fixes, git_output. rewrite E. reflexivity.
    + intros E. unfold total, fixes, git_output. rewrite !E. repeat split.
    + intros E. unfold fixRatio_of. rewrite E. reflexivity.
    + intros Hle. unfold fixRatio_of. destruct (Z.ltb_spec 0 total); [|lia].
      apply percent_range; lia.
Qed.

Lemma commit_stats_bounds_witness :
  exists s,
    commitStats world_down = Value s /\
    totalCommits s = 0 /\ totalFixCommits s = 0 /\ fixRatio s = 0.
Proof.
  destruct (commit_stats_bounds world_down) as (s & Hs & _ & _ & _ & _ & Hdown & _).
  exists s. split; [exact Hs|]. apply Hdown. reflexivity.
Defined.

(** X7.  The category bars of the viewer: at most eight, one per commit
    category with a positive count, none cut off; bars descend in count
    and in width, every width is a percentage between 0 and 100, and the
    first bar is 100 wide and of class [critical]. *)
Theorem category_bars (w : World) :
  exists stats,
    data_categoryStats w = Value stats /\
    (List.length stats <= 8)%nat /\
    Forall (fun c => 0 < snd c /\ In (fst c) category_names) stats /\
    StronglySorted (fun a b => snd b <= snd a) stats /\
    map bar_label (categoryBars stats) = map fst stats /\
    map bar_count (categoryBars stats) = map snd stats /\
    Forall (fun b => 0 <= bar_width b <= 100) (categoryBars stats) /\
    StronglySorted (fun a b => bar_width b <= bar_width a) (categoryBars stats) /\
    (forall b, hd_error (categoryBars stats) = Some b ->
       bar_width b = 100 /\ bar_class b = "critical"%string).
Proof.
  set (g := fun cat : string * list string =>
              (fst cat, countLines (git_output w
                 ("log --oneline -E --grep="
                  ++ DeadCode.quoted (String.concat "|" (snd cat)) ++ " -i")%string))).
  set (stats := filter (fun c : string * Z => 0 <? snd c) (sort_desc (map g categories))).
  exists stats. split.
  - unfold data_categoryStats, categoryStats, bind.
    rewrite (mapM_value _ g w categories); [reflexivity|].
    intros cat. unfold bind. now rewrite git_value.
  - assert (Hlen : (List.length stats <= 8)%nat).
    { unfold stats. etransitivity; [apply filter_length_le|].
      rewrite (Permutation_length (sort_desc_perm _)), length_map. reflexivity. }
    assert (Hsorted : StronglySorted (fun a b => snd b <= snd a) stats).
    { apply StronglySorted_filter, sort_desc_sorted. }
    assert (Hpos : Forall (fun c => 0 < snd c) stats).
    { rewrite Forall_forall. intros c Hc. apply filter_In in Hc as [_ Hc].
      now apply Z.ltb_lt. }
    assert (Hslice : slice0 8 stats = stats) by (apply firstn_all2; exact Hlen).
    assert (Hw : map bar_width (categoryBars stats) =
                 map (fun c => percent c (first_or_1 (map snd stats)))
                     (firstn 8 (map snd stats))).
    { unfold categoryBars, mapi.
      rewrite (mapi_from_map _ bar_width
                 (fun c => percent (snd c) (first_or_1 (map snd stats)))) by reflexivity.
      unfold slice0. now rewrite firstn_map, map_map. }
    destruct (relative_widths 8 (map snd stats)) as (W1 & W2 & W3).
    { now apply Forall_map. }
    { apply (StronglySorted_map (fun a b : string * Z => snd b <= snd a)); auto. }
    cbv zeta in W1, W2, W3. rewrite <- Hw in W1, W2, W3.
    split; [exact Hlen|]. split; [|split; [exact Hsorted|]].
    { rewrite Forall_forall in *. intros c Hc. split; [now apply Hpos|].
      apply filter_In in Hc as [Hc _].
      apply (Permutation_in _ (sort_desc_perm _)) in Hc.
      apply in_map_iff in Hc as ([nm pats] & <- & Hcat). cbn [g fst].
      unfold categories in Hcat. apply in_combine_l in Hcat. exact Hcat. }
    split; [|split; [|split; [|split]]].
    + unfold categoryBars, mapi. rewrite Hslice.
      now apply mapi_from_map.
    + unfold categoryBars, mapi. rewrite Hslice.
      now apply mapi_from_map.
    + now apply Forall_map in W1.
    + now apply StronglySorted_unmap in W2.
    + intros b Hb. split.
      * apply W3. destruct (categoryBars stats); [discriminate|].
        injection Hb as ->. reflexivity.
      * unfold categoryBars, mapi in Hb. destruct (slice0 8 stats); [discriminate|].
        cbn in Hb. injection Hb as <-. reflexivity.
Qed.

(** X8.  The hot-file table of the health report, fed with the ranking
    of any sequence of log lines: rows are numbered from 1, severities
    are percentages between 0 and 100 that descend down the table, and
    the first row has severity 100, class [critical] and rank class
    [top]. *)
Theorem file_rows_severity (lines : list string) :
  let rows := fileRows (Churn.rank lines) in
  map row_rank rows = seq 1 (List.length (Churn.rank lines)) /\
  map row_changes rows = map Churn.changes (Churn.rank lines) /\
  Forall (fun r => 0 <= row_severity r <= 100) rows /\
  StronglySorted (fun a b => row_severity b <= row_severity a) rows /\
  (forall r, hd_error rows = Some r ->
     row_severity r = 100 /\ row_severityClass r = "critical"%string /\
     row_rankClass r = "top"%string).
Proof.
  intros rows. subst rows.
  set (top := Churn.rank lines).
  assert (Hlen : (List.length top <= 15)%nat).
  { unfold top, Churn.rank. rewrite length_map. apply firstn_le_length. }
  assert (Hslice : slice0 15 top = top) by (apply firstn_all2; exact Hlen).
  assert (Hrank : top = map (fun e => Churn.mkFileChurn (basename (fst e)) (fst e) (snd e))
                            (slice0 15 (sort_desc (tally (filter Churn.counted lines))))).
  { unfold top, Churn.rank. now rewrite fileChurnMap_tally. }
  assert (Hchanges : map Churn.changes top =
                     map snd (firstn 15 (sort_desc (tally (filter Churn.counted lines))))).
  { rewrite Hrank, map_map. reflexivity. }
  assert (Hpos : Forall (fun c => 0 < c) (map Churn.changes top)).
  { rewrite Hchanges, Forall_forall. intros c Hc.
    apply in_map_iff in Hc as ([k v] & <- & Hin).
    assert (Hin' : In (k, v) (sort_desc (tally (filter Churn.counted lines)))).
    { rewrite <- (firstn_skipn 15 (sort_desc _)). apply in_or_app. now left. }
    apply In_sorted_tally in Hin' as [Hk ->]. simpl.
    pose proof (occurrences_pos _ _ Hk). lia. }
  assert (Hsorted : StronglySorted (fun a b => b <= a) (map Churn.changes top)).
  { rewrite Hchanges.
    apply (StronglySorted_map (fun a b : string * Z => snd b <= snd a)); [auto|].
    apply StronglySorted_firstn, sort_desc_sorted. }
  assert (Hw : map row_severity (fileRows top) =
               map (fun c => percent c (first_or_1 (map Churn.changes top)))
                   (firstn 15 (map Churn.changes top))).
  { unfold fileRows, mapi.
    rewrite (mapi_from_map _ row_severity
               (fun f => percent (Churn.changes f) (first_or_1 (map Churn.changes top))))
      by reflexivity.
    unfold slice0. now rewrite firstn_map, map_map. }
  destruct (relative_widths 15 (map Churn.changes top) Hpos Hsorted) as (W1 & W2 & W3).
  cbv zeta in W1, W2, W3. rewrite <- Hw in W1, W2, W3.
  split; [|split; [|split; [|split]]].
  - unfold fileRows, mapi. rewrite Hslice.
    apply (mapi_from_index _ row_rank 1 0). reflexivity.
  - unfold fileRows, mapi. rewrite Hslice. now apply mapi_from_map.
  - now apply Forall_map in W1.
  - now apply StronglySorted_unmap in W2.
  - intros r Hr.
    assert (Hsev : row_severity r = 100).
    { apply W3. destruct (fileRows top); [discriminate|]. injection Hr as ->. reflexivity. }
    split; [exact Hsev|].
    unfold fileRows, mapi in Hr. destruct (slice0 15 top) as [|f fs]; [discriminate|].
    cbn [mapi_from hd_error] in Hr. injection Hr as <-.
    cbn [row_severity row_severityClass row_rankClass] in *. rewrite Hsev.
    split; reflexivity.
Qed.

(** X9.  Lines that are not counted (blank lines, paths without one of
    the eight source suffixes) never affect the ranking, wherever they
    stand in the log. *)
Theorem rank_ignores_uncounted (before junk after : list string) :
  forallb (fun l => negb (Churn.counted l)) junk = true ->
  Churn.rank (before ++ junk ++ after) = Churn.rank (before ++ after).
Proof.
  intros H. unfold Churn.rank. rewrite !fileChurnMap_tally.
  rewrite !filter_app.
  assert (E : filter Churn.counted junk = []).
  { induction junk as [|j junk IH]; [reflexivity|]. simpl in *.
    apply andb_true_iff in H as [Hj H]. apply negb_true_iff in Hj. rewrite Hj. now apply IH. }
  now rewrite E.
Qed.

Lemma rank_ignores_uncounted_witness :
  Churn.rank (["a.js"%string] ++ [EmptyString; "README.md"%string; "logo.png"%string]
                ++ ["b.js"%string; "a.js"%string])%list =
  Churn.rank (["a.js"%string] ++ ["b.js"%string; "a.js"%string])%list.
Proof. apply rank_ignores_uncounted. reflexivity. Defined.

(** X10.  The contribution bar of a contributor has a segment for each
    category with a positive share and no other; every segment is
    between 1 and 100 wide; the widths add up to 0 when the history
    yields no category hit and to a number between 97 and 103
    otherwise. *)
Theorem contribution_bar_widths (c : RawContributor) (commitData : list string) :
  let r := analyse c commitData in
  let bar := contributionBar (radarData r) in
  (forall cat, In cat (map fst bar) <-> 0 < get (radarData r) cat) /\
  Forall (fun seg => snd seg = get (radarData r) (fst seg) /\ 1 <= snd seg <= 100) bar /\
  (sum (values (breakdown r)) = 0 -> bar = []) /\
  (sum (values (breakdown r)) <> 0 -> 97 <= sum (map snd bar) <= 103).
Proof.
  intros r bar.
  assert (Hrange : forall k, 0 <= get (radarData r) k <= 100)
    by (intros k; apply radar_range; intros cat; apply scan_counts).
  assert (Hseg : forall seg, In seg bar <->
            (snd seg = get (radarData r) (fst seg) /\ 0 < snd seg)).
  { intros [cat v]. unfold bar, contributionBar. rewrite filter_In, in_map_iff.
    cbn [fst snd]. split.
    - intros [(k & [= <- <-] & _) Hpos]. rewrite or_default_0.
      split; [reflexivity | now apply Z.ltb_lt in Hpos; rewrite or_default_0 in Hpos].
    - intros [-> Hpos]. split.
      + exists cat. split; [now rewrite or_default_0 | destruct cat; simpl; tauto].
      + now apply Z.ltb_lt. }
  split; [|split; [|split]].
  - intros cat. rewrite in_map_iff. split.
    + intros ([k v] & <- & Hin). apply Hseg in Hin as [E Hpos]. simpl in *. lia.
    + intros Hpos. exists (cat, get (radarData r) cat). split; [reflexivity|].
      apply Hseg. simpl. split; [reflexivity | exact Hpos].
  - rewrite Forall_forall. intros seg Hin. apply Hseg in Hin as [E Hpos].
    split; [exact E|]. specialize (Hrange (fst seg)). lia.
  - intros Hz.
    assert (Hzero : forall k, get (radarData r) k = 0).
    { unfold r, analyse in Hz. cbn [breakdown] in Hz.
      intros k. unfold r, analyse. cbn [radarData]. rewrite radar_get.
      assert (Hk : get (categoryBreakdown (scan_lines commitData)) k = 0).
      { pose proof (get_le_sum (categoryBreakdown (scan_lines commitData)) k
                      (fun cat => proj1 (scan_counts commitData cat))) as Hle.
        pose proof (proj1 (scan_counts commitData k)).
        lia. }
      rewrite Hk. apply percent_zero.
      unfold totalCatHits, or_default. rewrite Hz. reflexivity. }
    destruct bar as [|seg rest]; [reflexivity|].
    destruct (proj1 (Hseg seg) (or_introl eq_refl)) as [E1 Hpos].
    rewrite Hzero in E1. lia.
  - intros Hnz.
    assert (Hsum : sum (map snd bar) = sum (values (radarData r))).
    { unfold bar, contributionBar, values, Contributors.categories. cbn [map].
      rewrite !or_default_0.
      pose proof (Hrange Frontend). pose proof (Hrange Backend).
      pose proof (Hrange Database). pose proof (Hrange Auth).
      pose proof (Hrange Devops). pose proof (Hrange Testing). pose proof (Hrange Docs).
      cbn [filter snd].
      destruct (Z.ltb_spec 0 (get (radarData r) Frontend));
      destruct (Z.ltb_spec 0 (get (radarData r) Backend));
      destruct (Z.ltb_spec 0 (get (radarData r) Database));
      destruct (Z.ltb_spec 0 (get (radarData r) Auth));
      destruct (Z.ltb_spec 0 (get (radarData r) Devops));
      destruct (Z.ltb_spec 0 (get (radarData r) Testing));
      destruct (Z.ltb_spec 0 (get (radarData r) Docs));
      unfold sum; cbn [map snd fold_left]; lia. }
    rewrite Hsum. unfold r, analyse. cbn [radarData]. apply radar_sum_tight.
    exact Hnz.
Qed.

Lemma contribution_bar_widths_witness :
  97 <= sum (map snd (contributionBar (radarData (analyse (mkRaw 1 "dev") history_js_vue))))
  <= 103.
Proof.
  apply (proj2 (proj2 (proj2 (contribution_bar_widths (mkRaw 1 "dev") history_js_vue)))).
  vm_compute. discriminate.
Defined.

Lemma focus_of_labels (ft : table) :
  In (focus_of ft) ["general"; "frontend"; "backend"; "fullstack"; "docs"; "config/devops"]%string.
Proof.
  unfold focus_of. destruct (sort_desc ft) as [|[topExt n] rest]; [simpl; tauto|].
  repeat match goal with
         | |- context [if ?b then _ else _] => destruct b
         end; simpl; tauto.
Qed.

(** X11.  Every contributor gets a focus badge, and the class of the
    badge is one the stylesheet of the viewer defines. *)
Theorem focus_badge_styled (c : RawContributor) (commitData : list string) :
  exists cls,
    focusBadge_class (focus (analyse c commitData)) = Some cls /\ In cls focus_styles.
Proof.
  unfold analyse. cbn [focus].
  pose proof (focus_of_labels (filesTouched (scan_lines commitData))) as H.
  simpl in H.
  destruct H as [<-|[<-|[<-|[<-|[<-|[<-|[]]]]]]]; eexists; (split; [reflexivity|]);
    simpl; tauto.
Qed.

(** X12.  The score banner of the security page is [good] exactly when
    at least six of the seven categories are found, [moderate] when four
    or five are, and [poor] otherwise, also when the report carries no
    compliance data. *)
Theorem score_class_by_count (c : Compliance.Compliance) :
  let n := Compliance.found_count c in
  scoreClass (Compliance.complianceScore (Some c)) =
    (if 6 <=? n then "good"%string else if 4 <=? n then "moderate"%string
     else "poor"%string) /\
  scoreClass (Compliance.complianceScore None) = "poor"%string.
Proof.
  intros n. split; [|reflexivity].
  unfold Compliance.complianceScore. fold (Compliance.found_count c). fold n.
  change Compliance.totalChecks with 7.
  assert (Hn : 0 <= n <= 7) by apply passedChecks_range.
  clearbody n.
  assert (E : n = 0 \/ n = 1 \/ n = 2 \/ n = 3 \/ n = 4 \/ n = 5 \/ n = 6 \/ n = 7) by lia.
  repeat (destruct E as [->|E]; [reflexivity|]). now subst.
Qed.

End PageClaims.

(** ** The evidence lists of the compliance scan *)

Module EvidenceFacts.
Import JsString Path JsArray JsNumber Host Compliance.
Import ListFacts TallyFacts ChurnFacts ComplianceFacts.
Local Open Scope list_scope.

Section Facts.
Variable repoPath : string.
Variable relative : string -> string -> string.

(** A matched file is pushed on the lists of the categories it is
    attributed to, once. *)
Lemma files_on_file (c : Compliance) (file : string) (k : key) :
  files (get (on_file repoPath relative c file) k) =
  if attributed k file
  then files (record_file (relative repoPath file) (get c k))
  else files (get c k).
Proof.
  unfold on_file, keys. cbn [fold_left].
  destruct (attributed AgeVerification file) eqn:E1;
  destruct (attributed ContentModeration file) eqn:E2;
  destruct (attributed IdentityVerification file) eqn:E3;
  destruct (attributed ReportingMechanism file) eqn:E4;
  destruct (attributed RecordKeeping file) eqn:E5;
  destruct (attributed UserSafety file) eqn:E6;
  destruct (attributed PaymentCompliance file) eqn:E7;
  destruct k; cbn [get set ageVerification contentModeration
                   identityVerification reportingMechanism recordKeeping userSafety
                   paymentCompliance];
  rewrite ?E1, ?E2, ?E3, ?E4, ?E5, ?E6, ?E7; reflexivity.
Qed.

Lemma notes_on_file (c : Compliance) (file : string) (k : key) :
  notes (get (on_file repoPath relative c file) k) = notes (get c k).
Proof.
  unfold on_file, keys. cbn [fold_left].
  destruct (attributed AgeVerification file);
  destruct (attributed ContentModeration file);
  destruct (attributed IdentityVerification file);
  destruct (attributed ReportingMechanism file);
  destruct (attributed RecordKeeping file);
  destruct (attributed UserSafety file);
  destruct (attributed PaymentCompliance file);
  destruct k; reflexivity.
Qed.

Lemma files_record_In (rel f : string) (i : Indicator) :
  In f (files (record_file rel i)) <-> In f (files i) \/ rel = f.
Proof.
  unfold record_file. cbn [files].
  destruct (mem rel (files i)) eqn:E.
  - apply mem_In in E. split; [tauto|]. intros [H| <-]; assumption.
  - rewrite in_app_iff. simpl. tauto.
Qed.

Lemma files_record_NoDup (rel : string) (i : Indicator) :
  NoDup (files i) -> NoDup (files (record_file rel i)).
Proof.
  intros H. unfold record_file. cbn [files].
  destruct (mem rel (files i)) eqn:E; [exact H|].
  apply mem_false in E.
  apply (Permutation_NoDup (Permutation_cons_append (files i) rel)).
  now constructor.
Qed.

Lemma files_fold_In (matched : list string) (c : Compliance) (k : key) (f : string) :
  In f (files (get (fold_left (on_file repoPath relative) matched c) k)) <->
  In f (files (get c k)) \/
  exists file, In file matched /\ attributed k file = true /\ relative repoPath file = f.
Proof.
  revert c. induction matched as [|m l IH]; intros c; cbn [fold_left].
  - split; [tauto|]. intros [H|(file & [] & _)]. exact H.
  - rewrite IH, files_on_file. destruct (attributed k m) eqn:E.
    + rewrite files_record_In. split.
      * intros [[H|H]|(file & Hin & Ha & Hf)]; [now left| |].
        -- right. exists m. simpl. auto.
        -- right. exists file. simpl. auto.
      * intros [H|(file & [<-|Hin] & Ha & Hf)]; [tauto|tauto|].
        right. now exists file.
    + split.
      * intros [H|(file & Hin & Ha & Hf)]; [now left|].
        right. exists file. simpl. auto.
      * intros [H|(file & [<-|Hin] & Ha & Hf)]; [tauto|congruence|].
        right. now exists file.
Qed.

Lemma files_fold_NoDup (matched : list string) (c : Compliance) (k : key) :
  NoDup (files (get c k)) ->
  NoDup (files (get (fold_left (on_file repoPath relative) matched c) k)).
Proof.
  revert c. induction matched as [|m l IH]; intros c H; cbn [fold_left]; [exact H|].
  apply IH. rewrite files_on_file. destruct (attributed k m); [|exact H].
  now apply files_record_NoDup.
Qed.

Lemma notes_fold (matched : list string) (c : Compliance) (k : key) :
  notes (get (fold_left (on_file repoPath relative) matched c) k) = notes (get c k).
Proof.
  revert c. induction matched as [|m l IH]; intros c; cbn [fold_left]; [reflexivity|].
  now rewrite IH, notes_on_file.
Qed.

Lemma files_add_notes (c : Compliance) (k : key) :
  files (get (add_notes c) k) = files (get c k).
Proof.
  unfold add_notes. destruct (existsb _ _); [|reflexivity]. now destruct k.
Qed.

Lemma notes_add_notes (c : Compliance) (k : key) :
  k <> AgeVerification -> notes (get (add_notes c) k) = notes (get c k).
Proof.
  intros Hk. unfold add_notes. destruct (existsb _ _); [|reflexivity].
  destruct k; try congruence; reflexivity.
Qed.

Lemma files_limit_files (c : Compliance) (k : key) :
  files (get (limit_files c) k) = slice0 8 (files (get c k)).
Proof. destruct k; reflexivity. Qed.

Lemma notes_limit_files (c : Compliance) (k : key) :
  notes (get (limit_files c) k) = notes (get c k).
Proof. destruct k; reflexivity. Qed.

Lemma files_scan_result (matched : list string) (k : key) :
  files (get (scan_result repoPath relative matched) k) =
  firstn 8 (files (get (scan_files repoPath relative matched) k)).
Proof.
  unfold scan_result. now rewrite files_limit_files, files_add_notes.
Qed.

Lemma files_initial (k : key) : files (get initial k) = [].
Proof. now destruct k. Qed.

End Facts.

Lemma existsb_same_elements {A} (p : A -> bool) (l l' : list A) :
  (forall x, In x l <-> In x l') -> existsb p l = existsb p l'.
Proof.
  intros H. apply eq_true_iff_eq. rewrite !existsb_exists.
  split; intros (x & Hin & Hp); exists x; (split; [now apply H | exact Hp]).
Qed.

End EvidenceFacts.

Module EvidenceClaims.
Import JsString Path JsArray JsNumber Host Compliance Samples.
Import ListFacts TallyFacts ChurnFacts ComplianceFacts EvidenceFacts.
Local Open Scope list_scope.

(** X13.  The evidence list of every compliance category holds at most
    eight paths, none twice; each is the relative path of a matched file
    attributed to the category; a category is found exactly when its
    list is not empty; and only age verification ever carries a note. *)
Theorem evidence_files
        (repoPath : string) (relative : string -> string -> string)
        (matched : list string) (k : key) :
  let i := get (scan_result repoPath relative matched) k in
  (List.length (files i) <= 8)%nat /\
  NoDup (files i) /\
  (forall f, In f (files i) ->
     exists file, In file matched /\ attributed k file = true /\
                  f = relative repoPath file) /\
  (found i = true <-> files i <> []) /\
  (k <> AgeVerification -> notes i = []).
Proof.
  intros i. unfold i.
  rewrite files_scan_result, found_scan_result.
  set (all := files (get (scan_files repoPath relative matched) k)).
  assert (Hall : forall f, In f all <->
            exists file, In file matched /\ attributed k file = true /\
                         relative repoPath file = f).
  { intros f. unfold all, scan_files. rewrite files_fold_In, files_initial.
    simpl. tauto. }
  split; [|split; [|split; [|split]]].
  - apply firstn_le_length.
  - apply NoDup_firstn'. unfold all, scan_files. apply files_fold_NoDup.
    rewrite files_initial. constructor.
  - intros f Hin.
    assert (Hin' : In f all).
    { rewrite <- (firstn_skipn 8 all). apply in_or_app. now left. }
    apply Hall in Hin' as (file & H1 & H2 & H3). now exists file.
  - rewrite existsb_exists. split.
    + intros (file & Hin & Ha) E.
      assert (Hin' : In (relative repoPath file) all) by (apply Hall; now exists file).
      destruct all; [contradiction | discriminate].
    + intros Hne. destruct all as [|f rest] eqn:E; [now contradiction Hne|].
      destruct (proj1 (Hall f) (or_introl eq_refl)) as (file & H1 & H2 & _).
      now exists file.
  - intros Hk. unfold scan_result.
    rewrite notes_limit_files, notes_add_notes by exact Hk.
    unfold scan_files. rewrite notes_fold. now destruct k.
Qed.

(** X14.  Which categories are found, and so the score, depends only on
    which files the search matched, not on their order or on
    repetitions. *)
Theorem score_order_independent
        (repoPath : string) (relative : string -> string -> string)
        (matched matched' : list string) :
  (forall f, In f matched <-> In f matched') ->
  (forall k, found (get (scan_result repoPath relative matched) k) =
             found (get (scan_result repoPath relative matched') k)) /\
  complianceScore (Some (scan_result repoPath relative matched)) =
  complianceScore (Some (scan_result repoPath relative matched')).
Proof.
  intros H.
  assert (Hk : forall k, found (get (scan_result repoPath relative matched) k) =
                         found (get (scan_result repoPath relative matched') k)).
  { intros k. rewrite !found_scan_result. now apply existsb_same_elements. }
  split; [exact Hk|].
  unfold complianceScore, passedChecks, complianceItems, item_found, compliance_object.
  rewrite (filter_ext _ _ Hk). reflexivity.
Qed.

Lemma score_order_independent_witness :
  complianceScore (Some (scan_result "/r" under ["/r/api/payout.ts"; "/r/web/kyc.vue"])) =
  complianceScore (Some (scan_result "/r" under
                           ["/r/web/kyc.vue"; "/r/api/payout.ts"; "/r/web/kyc.vue"])).
Proof.
  refine (proj2 (score_order_independent "/r" under
                   ["/r/api/payout.ts"; "/r/web/kyc.vue"]
                   ["/r/web/kyc.vue"; "/r/api/payout.ts"; "/r/web/kyc.vue"] _)).
  intros f. simpl. tauto.
Defined.

End EvidenceClaims.

(** ** The export and orphan scans *)

Module ExportFacts.
Import JsString Path JsArray Host DeadCode DeadCodeSpec ExportShape.
Import ListFacts StringFacts TallyFacts DeadCodeFacts.
Local Open Scope list_scope.

Lemma strip_prefix_spec (p s r : list ascii) :
  strip_prefix p s = Some r -> s = p ++ r.
Proof.
  revert s. induction p as [|a p IH]; intros [|b s]; simpl; try congruence.
  destruct (Ascii.eqb_spec a b); [|discriminate].
  intros H. subst. f_equal. now apply IH.
Qed.

Lemma strip_prefix_app (p s : list ascii) : strip_prefix p (p ++ s) = Some s.
Proof.
  induction p as [|a p IH]; simpl; [now destruct s|].
  now rewrite Ascii.eqb_refl.
Qed.

Lemma keyword_at_spec (s kw rest : list ascii) :
  keyword_at s = Some (kw, rest) -> s = kw ++ rest /\ is_keyword kw.
Proof.
  unfold keyword_at, is_keyword.
  destruct (strip_prefix (list_ascii_of_string "const") s) eqn:E1.
  { intros [= <- <-]. split; [now apply strip_prefix_spec | tauto]. }
  destruct (strip_prefix (list_ascii_of_string "function") s) eqn:E2.
  { intros [= <- <-]. split; [now apply strip_prefix_spec | tauto]. }
  destruct (strip_prefix (list_ascii_of_string "class") s) eqn:E3; [|discriminate].
  intros [= <- <-]. split; [now apply strip_prefix_spec | tauto].
Qed.

Lemma keyword_at_app (kw rest : list ascii) :
  is_keyword kw -> keyword_at (kw ++ rest) = Some (kw, rest).
Proof.
  intros [-> | [-> | ->]]; unfold keyword_at; cbn; now destruct rest.
Qed.

Lemma keyword_head (kw rest : list ascii) :
  is_keyword kw ->
  match kw ++ rest with [] => True | x :: _ => is_space x = false end.
Proof. intros [-> | [-> | ->]]; reflexivity. Qed.

Lemma is_word_not_space (c : ascii) : is_word c = true -> is_space c = false.
Proof.
  destruct c as [[] [] [] [] [] [] [] []]; vm_compute; congruence.
Qed.

Lemma export_at_spec (s m nm : list ascii) :
  export_at s = Some (m, nm) -> export_shape m nm /\ exists rest, s = m ++ rest.
Proof.
  unfold export_at.
  destruct (strip_prefix (list_ascii_of_string "export") s) as [s1|] eqn:E0; [|discriminate].
  destruct (takeWhile is_space s1) as [|w1 ws1] eqn:E1; [discriminate|].
  destruct (keyword_at (dropWhile is_space s1)) as [[kw s3]|] eqn:E2; [|discriminate].
  destruct (takeWhile is_space s3) as [|w2 ws2] eqn:E3; [discriminate|].
  destruct (takeWhile is_word (dropWhile is_space s3)) as [|n nm'] eqn:E4; [discriminate|].
  intros [= <- <-].
  apply keyword_at_spec in E2 as [E2 Hkw].
  split.
  - exists (w1 :: ws1), kw, (w2 :: ws2).
    split; [reflexivity|].
    split; [discriminate|].
    split; [rewrite <- E1; apply takeWhile_forallb|].
    split; [exact Hkw|].
    split; [discriminate|].
    split; [rewrite <- E3; apply takeWhile_forallb|].
    split; [discriminate|].
    rewrite <- E4. apply takeWhile_forallb.
  - exists (dropWhile is_word (dropWhile is_space s3)).
    apply strip_prefix_spec in E0. rewrite E0.
    rewrite (takeWhile_dropWhile is_space s1) at 1. rewrite E1, E2.
    rewrite (takeWhile_dropWhile is_space s3) at 1. rewrite E3.
    rewrite (takeWhile_dropWhile is_word (dropWhile is_space s3)) at 1. rewrite E4.
    change (list_ascii_of_string "export" ++ (w1 :: ws1) ++ kw ++ (w2 :: ws2) ++ (n :: nm')
              ++ dropWhile is_word (dropWhile is_space s3) =
            (list_ascii_of_string "export" ++ (w1 :: ws1) ++ kw ++ (w2 :: ws2) ++ (n :: nm'))
              ++ dropWhile is_word (dropWhile is_space s3)).
    now rewrite <- !app_assoc.
Qed.

(** A match of the export pattern, taken alone, matches the pattern
    again, with the same name. *)
Lemma export_at_self (m nm : list ascii) :
  export_shape m nm -> export_at m = Some (m, nm).
Proof.
  intros (ws1 & kw & ws2 & -> & H1 & S1 & Hkw & H2 & S2 & H3 & W).
  unfold export_at. rewrite strip_prefix_app.
  assert (Hnm : match nm with [] => True | x :: _ => is_space x = false end).
  { destruct nm as [|x nm]; [exact I|]. simpl in W.
    apply andb_true_iff in W as [W _]. now apply is_word_not_space. }
  rewrite (takeWhile_all is_space ws1 _ S1) by (apply keyword_head, Hkw).
  rewrite (dropWhile_all is_space ws1 _ S1).
  rewrite (dropWhile_id is_space (kw ++ ws2 ++ nm)) by (apply keyword_head, Hkw).
  rewrite (keyword_at_app kw _ Hkw).
  assert (T2 : takeWhile is_space (ws2 ++ nm) = ws2).
  { apply takeWhile_all; assumption. }
  assert (D2 : dropWhile is_space (ws2 ++ nm) = nm).
  { rewrite (dropWhile_all is_space ws2 _ S2). now apply dropWhile_id. }
  rewrite T2, D2.
  assert (T3 : takeWhile is_word nm = nm).
  { rewrite <- (app_nil_r nm) at 1. now apply takeWhile_all. }
  rewrite T3.
  destruct ws1; [congruence|]. destruct ws2; [congruence|]. destruct nm; [congruence|].
  reflexivity.
Qed.

Lemma export_name_in_head (s m nm : list ascii) :
  export_at s = Some (m, nm) -> export_name_in s = Some (string_of_list_ascii nm).
Proof.
  intros H. destruct s as [|a s]; [discriminate|].
  cbn [export_name_in]. now rewrite H.
Qed.

Lemma export_matches_from_In (s : list ascii) (skip : nat) (m : string) :
  In m (export_matches_from skip s) ->
  exists s' ml nm, export_at s' = Some (ml, nm) /\ m = string_of_list_ascii ml.
Proof.
  revert skip. induction s as [|a s IH]; intros skip; [contradiction|].
  cbn [export_matches_from]. destruct skip as [|k]; [|apply IH].
  destruct (export_at (a :: s)) as [[ml nm]|] eqn:E; [|apply IH].
  intros [<-|H]; [|now apply IH in H].
  now exists (a :: s), ml, nm.
Qed.

Lemma length_string_of_list (l : list ascii) :
  String.length (string_of_list_ascii l) = List.length l.
Proof. induction l as [|c l IH]; simpl; congruence. Qed.

Lemma string_of_list_app (a b : list ascii) :
  string_of_list_ascii (a ++ b) = (string_of_list_ascii a ++ string_of_list_ascii b)%string.
Proof. induction a as [|c a IH]; simpl; congruence. Qed.

Lemma includes_empty (sub : string) :
  includes EmptyString sub = false <-> sub <> EmptyString.
Proof. destruct sub; simpl; split; congruence. Qed.

End ExportFacts.

Module ExportClaims.
Import JsString Path JsArray Host DeadCode DeadCodeSpec Samples MoreSamples.
Import ListFacts StringFacts TallyFacts DeadCodeFacts ExportFacts.
Local Open Scope list_scope.

(** X15.  Every piece of text the export pattern extracts from a file
    matches the pattern that names the export: the name is captured, is
    not empty, consists of letters, digits and underscores, and ends the
    extracted text, which begins with [export]. *)
Theorem export_match_named (content m : string) :
  In m (export_matches content) ->
  exists nm pre,
    export_name m = Some nm /\
    (1 <= String.length nm)%nat /\
    forallb is_word (list_ascii_of_string nm) = true /\
    m = ("export" ++ pre ++ nm)%string.
Proof.
  intros H. apply export_matches_from_In in H as (s' & ml & nm & E & ->).
  apply export_at_spec in E as [Hshape _].
  pose proof (export_at_self ml nm Hshape) as Hself.
  destruct Hshape as (ws1 & kw & ws2 & -> & _ & _ & _ & _ & _ & Hnm & W).
  exists (string_of_list_ascii nm), (string_of_list_ascii (ws1 ++ kw ++ ws2)).
  split; [|split; [|split]].
  - unfold export_name. rewrite list_ascii_of_string_of_list_ascii.
    now apply export_name_in_head with (m := list_ascii_of_string "export" ++ ws1 ++ kw ++ ws2 ++ nm).
  - rewrite length_string_of_list. destruct nm; [congruence | simpl; lia].
  - now rewrite list_ascii_of_string_of_list_ascii.
  - rewrite <- (string_of_list_ascii_of_string "export") at 2.
    rewrite <- !string_of_list_app. now rewrite <- !app_assoc.
Qed.

Lemma export_match_named_witness :
  exists nm pre,
    export_name "export  function parseAmount" = Some nm /\
    (1 <= String.length nm)%nat /\
    forallb is_word (list_ascii_of_string nm) = true /\
    "export  function parseAmount"%string = ("export" ++ pre ++ nm)%string.
Proof.
  apply (export_match_named
           "import x from 'y'; export  function parseAmount(s) { return 1 }").
  vm_compute. now left.
Defined.

(** X16.  An unused-export finding never names a composable (a name
    beginning with [use]) nor a name of fewer than four characters; the
    name is absent from the import index, and so is the base name of the
    file, which is a listed candidate that could be read, is none of the
    entry points, and holds an export of that name. *)
Theorem export_findings_sound
        (repoPath : string) (relative : string -> string -> string) (w : World) :
  let allImports := output_or w (grep_imports_cmd repoPath) EmptyString in
  exists out,
    scan_exports repoPath relative w = Value out /\
    forall e, In e out ->
      startsWith (ue_export e) "use" = false /\
      (4 <= String.length (ue_export e))%nat /\
      includes allImports (ue_export e) = false /\
      exists f content m,
        In f (listed w (find_ts_cmd repoPath)) /\
        ue_path e = relative repoPath f /\ ue_file e = basename f /\
        mem (toLowerCase (basename_ext f (extname f))) entry_points = false /\
        includes allImports (basename_ext f (extname f)) = false /\
        readFileSync w f = Some content /\
        In m (export_matches content) /\ export_name m = Some (ue_export e).
Proof.
  intros allImports. rewrite scan_exports_value. fold allImports.
  eexists. split; [reflexivity|]. intros e He.
  assert (He' : In e (flat_map (file_findings repoPath relative w allImports)
                        (slice0 30 (listed w (find_ts_cmd repoPath))))).
  { rewrite <- (firstn_skipn 20 (flat_map _ _)). apply in_or_app. now left. }
  apply in_flat_map in He' as (f & Hf & Hin).
  assert (Hf' : In f (listed w (find_ts_cmd repoPath))).
  { rewrite <- (firstn_skipn 30 (listed _ _)). apply in_or_app. now left. }
  unfold file_findings in Hin.
  destruct (mem (toLowerCase (basename_ext f (extname f))) entry_points) eqn:Hentry;
    [contradiction|].
  destruct (readFileSync w f) as [content|] eqn:Hread; [|contradiction].
  apply filter_some_In, in_map_iff in Hin as (m & Hfind & Hm).
  assert (Hm' : In m (export_matches content)).
  { rewrite <- (firstn_skipn 5 (export_matches content)). apply in_or_app. now left. }
  unfold export_finding in Hfind.
  destruct (export_name m) as [exportName|] eqn:Hname; [|discriminate].
  destruct (startsWith exportName "use") eqn:Huse; [discriminate|].
  destruct (Nat.ltb_spec (String.length exportName) 4) as [Hlen|Hlen]; [discriminate|].
  destruct (includes allImports exportName) eqn:Hi1; [discriminate|].
  destruct (includes allImports (basename_ext f (extname f))) eqn:Hi2; [discriminate|].
  cbn [negb andb] in Hfind. injection Hfind as <-. cbn [ue_export ue_path ue_file].
  split; [exact Huse|]. split; [exact Hlen|]. split; [exact Hi1|].
  exists f, content, m. repeat split; assumption.
Qed.

(** X17.  An orphaned-file finding always comes from a listed candidate
    whose base name is not on the skip-list, does not begin with an
    underscore and occurs nowhere in the reference index.  When the
    search that builds the index fails, the index is empty: with at most
    twenty candidates, every candidate that passes the skip-list and the
    underscore test and has a non-empty base name is then reported. *)
Theorem orphans_reported
        (repoPath : string) (relative : string -> string -> string) (w : World) :
  let allRefs := output_or w (grep_refs_cmd repoPath) EmptyString in
  let srcFiles := listed w (find_src_cmd repoPath) in
  let base f := basename_ext f (extname f) in
  let finding f := mkUnusedFile (relative repoPath f) (basename f) in
  exists out,
    scan_orphans repoPath relative w = Value out /\
    (forall e, In e out ->
       exists f, In f srcFiles /\ e = finding f /\
         mem (toLowerCase (base f)) orphan_skip = false /\
         startsWith (base f) "_" = false /\
         includes allRefs (base f) = false) /\
    (execSync w (grep_refs_cmd repoPath) = None ->
     (List.length srcFiles <= 20)%nat ->
     forall f, In f srcFiles ->
       mem (toLowerCase (base f)) orphan_skip = false ->
       startsWith (base f) "_" = false ->
       base f <> EmptyString ->
       In (finding f) out).
Proof.
  intros allRefs srcFiles base finding. rewrite scan_orphans_value.
  fold allRefs. fold srcFiles.
  eexists. split; [reflexivity|]. split.
  - intros e He.
    assert (He' : In e (filter_some (map (orphan_finding repoPath relative allRefs) srcFiles))).
    { rewrite <- (firstn_skipn 20 (filter_some _)). apply in_or_app. now left. }
    apply filter_some_In, in_map_iff in He' as (f & Hfind & Hf).
    exists f. split; [exact Hf|].
    unfold orphan_finding in Hfind. fold (base f) in Hfind.
    destruct (mem (toLowerCase (base f)) orphan_skip); [discriminate|].
    destruct (startsWith (base f) "_"); [discriminate|].
    destruct (includes allRefs (base f)); [discriminate|].
    cbn [negb] in Hfind. injection Hfind as <-. repeat split.
  - intros Hfail Hlen f Hf Hskip Hunder Hbase.
    unfold slice0. rewrite firstn_all2.
    + apply filter_some_In, in_map_iff. exists f. split; [|exact Hf].
      unfold orphan_finding. fold (base f). rewrite Hskip, Hunder.
      unfold allRefs, output_or. rewrite Hfail.
      now rewrite (proj2 (includes_empty (base f)) Hbase).
    + etransitivity; [apply filter_some_length|]. now rewrite length_map.
Qed.

Lemma orphans_reported_witness :
  exists out,
    scan_orphans "/r" under world_no_index = Value out /\
    In (mkUnusedFile "src/lib/money.ts" "money.ts") out.
Proof.
  destruct (orphans_reported "/r" under world_no_index) as (out & E & _ & H).
  exists out. split; [exact E|].
  apply (H eq_refl) with (f := "/r/src/lib/money.ts"%string).
  - vm_compute. lia.
  - vm_compute. now left.
  - reflexivity.
  - reflexivity.
  - discriminate.
Defined.

End ExportClaims.

(** ** The command line and the JSON view *)

Module ArgsFacts.
Import JsString JsArray Host Args.
Import TallyFacts.
Local Open Scope list_scope.

Lemma indexOf_nth (x : string) (args : list string) (i : nat) :
  indexOf x args = Some i -> nth_error args i = Some x.
Proof.
  revert i. induction args as [|a r IH]; intros i; simpl; [discriminate|].
  destruct (String.eqb_spec a x) as [->|_].
  - now intros [= <-].
  - destruct (indexOf x r) as [j|]; simpl; [|discriminate].
    intros [= <-]. now apply IH.
Qed.

Lemma value_after_In (flag : string) (args : list string) (v : string) :
  value_after flag args = Some v -> In v args.
Proof.
  unfold value_after. destruct (indexOf flag args) as [i|]; [|discriminate].
  intros H. exact (nth_error_In _ _ H).
Qed.

Lemma flag_values_In (cloneUrl aiProvider : option string) (a : string) :
  truthy a = true -> (cloneUrl = Some a \/ aiProvider = Some a) ->
  In a (flag_values cloneUrl aiProvider).
Proof.
  intros Ht H. unfold flag_values. apply filter_In. split; [|exact Ht].
  destruct H as [-> | ->]; simpl; [now left|].
  destruct cloneUrl; simpl; auto.
Qed.

End ArgsFacts.

Module HtmlFacts.
Import Html.

Lemma append_assoc (a b c : string) : ((a ++ b) ++ c = a ++ (b ++ c))%string.
Proof. induction a as [|x a IH]; simpl; congruence. Qed.

Lemma replace_char_app (c : ascii) (by_ s1 s2 : string) :
  replace_char c by_ (s1 ++ s2) = (replace_char c by_ s1 ++ replace_char c by_ s2)%string.
Proof.
  induction s1 as [|x s1 IH]; [reflexivity|]. simpl.
  destruct (Ascii.eqb x c); simpl; rewrite IH; [|reflexivity].
  now rewrite append_assoc.
Qed.

(** The three replacements do not interfere: the result is the input
    escaped character by character. *)
Lemma escapeHtml_cons (c : ascii) (r : string) :
  escapeHtml (String c r) = (escape_char c ++ escapeHtml r)%string.
Proof.
  unfold escapeHtml, escape_char. cbn [replace_char].
  destruct (Ascii.eqb_spec c "&") as [->|Hamp]; [reflexivity|].
  cbn [replace_char].
  destruct (Ascii.eqb_spec c "<") as [->|Hlt]; [reflexivity|].
  cbn [replace_char].
  destruct (Ascii.eqb_spec c ">") as [->|Hgt]; reflexivity.
Qed.

Lemma escape_char_plain (c : ascii) :
  special c = false -> escape_char c = String c EmptyString.
Proof.
  unfold special, escape_char.
  destruct (Ascii.eqb c "&"), (Ascii.eqb c "<"), (Ascii.eqb c ">"); simpl; congruence.
Qed.

Lemma escape_char_special (c : ascii) :
  special c = true ->
  (c = "&"%char /\ escape_char c = "&amp;"%string) \/
  (c = "<"%char /\ escape_char c = "&lt;"%string) \/
  (c = ">"%char /\ escape_char c = "&gt;"%string).
Proof.
  unfold special, escape_char.
  destruct (Ascii.eqb_spec c "&") as [->|_]; [auto|].
  destruct (Ascii.eqb_spec c "<") as [->|_]; [auto|].
  destruct (Ascii.eqb_spec c ">") as [->|_]; [auto|].
  discriminate.
Qed.

Lemma special_amp (c : ascii) : special c = false -> c <> "&"%char.
Proof. intros H ->. discriminate. Qed.

End HtmlFacts.

Module FrontClaims.
Import JsString JsArray Host Args Html Samples.
Import TallyFacts ArgsFacts HtmlFacts.
Local Open Scope list_scope.

(** X18.  The repository path read off the command line is never empty
    and never begins with a dash; it is either [.] or an argument that is
    neither the value given to [--clone] nor the value given to [--ai];
    and it is [.] when every argument begins with a dash. *)
Theorem repo_path_choice (args : list string) :
  let p := parse args in
  repoPath p <> EmptyString /\
  startsWith (repoPath p) "-" = false /\
  (repoPath p = "."%string \/
   (In (repoPath p) args /\
    cloneUrl p <> Some (repoPath p) /\ aiProvider p <> Some (repoPath p))) /\
  ((forall a, In a args -> startsWith a "-" = true) -> repoPath p = "."%string).
Proof.
  intros p. unfold p, parse. cbn [repoPath cloneUrl aiProvider].
  set (cu := value_after "--clone" args). set (ai := value_after "--ai" args).
  destruct (find _ args) as [a|] eqn:E.
  - apply find_some in E as [Hin Ha].
    apply andb_true_iff in Ha as [Hdash Hval].
    apply negb_true_iff in Hdash. apply negb_true_iff in Hval.
    destruct (truthy a) eqn:Ht.
    + split; [now destruct a|]. split; [exact Hdash|]. split.
      * right. split; [exact Hin|].
        apply mem_false in Hval.
        split; intros Heq; apply Hval; apply flag_values_In; auto.
      * intros Hall. rewrite (Hall a Hin) in Hdash. discriminate.
    + split; [discriminate|]. split; [reflexivity|]. split; [now left|reflexivity].
  - split; [discriminate|]. split; [reflexivity|]. split; [now left|reflexivity].
Qed.

Lemma repo_path_choice_witness :
  repoPath (parse ["--watch"; "--interval=4"]) = "."%string.
Proof.
  refine (proj2 (proj2 (proj2 (repo_path_choice ["--watch"; "--interval=4"]))) _).
  intros a [<-|[<-|[]]]; reflexivity.
Defined.

(** X19.  With [--help] or [-h] anywhere on the command line the script
    ends with exit status 0, whatever the other arguments and whatever
    the machine answers. *)
Theorem help_wins (args : list string) (clonePath outputDir : string)
        (monthWindows : list (string * string))
        (join relative : string -> string -> string) (w : World) :
  In "--help"%string args \/ In "-h"%string args ->
  Run.main (config_of (parse args) clonePath outputDir monthWindows) join relative w
  = Exit 0.
Proof.
  intros H. unfold Run.main, config_of, parse. cbn [Run.helpFlag helpFlag].
  assert (E : mem "--help" args || mem "-h" args = true).
  { apply orb_true_iff. destruct H; [left | right]; now apply mem_In. }
  rewrite E. reflexivity.
Qed.

Lemma help_wins_witness :
  Run.main (config_of (parse ["/r"; "--clone"; "-h"]) "/tmp/c" "/out" [])
           join_plain under world_down = Exit 0.
Proof. apply help_wins. right. simpl. tauto. Defined.

(** X20.  [escapeHtml] leaves no [<] and no [>] in its result, loses
    nothing (different texts stay different), and returns a text without
    [&], [<] and [>] as it is. *)
Theorem escape_html (s : string) :
  (forall c, In c (list_ascii_of_string (escapeHtml s)) ->
     c <> "<"%char /\ c <> ">"%char) /\
  (forall s', escapeHtml s = escapeHtml s' -> s = s') /\
  (forallb (fun c => negb (special c)) (list_ascii_of_string s) = true ->
   escapeHtml s = s).
Proof.
  split; [|split].
  - induction s as [|x s IH]; [contradiction|].
    rewrite escapeHtml_cons. intros c Hc.
    destruct (special x) eqn:Hx.
    + destruct (escape_char_special x Hx) as [[_ E]|[[_ E]|[_ E]]]; rewrite E in Hc;
        cbn in Hc;
        repeat (destruct Hc as [<-|Hc]; [split; discriminate|]);
        now apply IH.
    + rewrite (escape_char_plain x Hx) in Hc. cbn in Hc.
      destruct Hc as [<-|Hc]; [|now apply IH].
      unfold special in Hx.
      split; intros ->; discriminate.
  - induction s as [|x s IH]; intros [|y s'].
    + reflexivity.
    + rewrite escapeHtml_cons. unfold escape_char.
      destruct (Ascii.eqb y "&"), (Ascii.eqb y "<"), (Ascii.eqb y ">"); discriminate.
    + rewrite escapeHtml_cons. unfold escape_char.
      destruct (Ascii.eqb x "&"), (Ascii.eqb x "<"), (Ascii.eqb x ">"); discriminate.
    + rewrite !escapeHtml_cons.
      destruct (special x) eqn:Hx, (special y) eqn:Hy.
      * destruct (escape_char_special x Hx) as [[-> E]|[[-> E]|[-> E]]];
        destruct (escape_char_special y Hy) as [[-> E']|[[-> E']|[-> E']]];
        rewrite ?E, ?E'; cbn; intros H; try discriminate;
        injection H as H; f_equal; now apply IH.
      * rewrite (escape_char_plain y Hy).
        destruct (escape_char_special x Hx) as [[-> E]|[[-> E]|[-> E]]];
        rewrite ?E; cbn; intros H; injection H as H1 H2;
        subst y; discriminate.
      * rewrite (escape_char_plain x Hx).
        destruct (escape_char_special y Hy) as [[-> E]|[[-> E]|[-> E]]];
        rewrite ?E; cbn; intros H; injection H as H1 H2;
        subst x; discriminate.
      * rewrite (escape_char_plain x Hx), (escape_char_plain y Hy). cbn.
        intros [= -> H]. f_equal. now apply IH.
  - induction s as [|x s IH]; [reflexivity|].
    cbn [list_ascii_of_string forallb]. intros H.
    apply andb_true_iff in H as [Hx H]. apply negb_true_iff in Hx.
    rewrite escapeHtml_cons, (escape_char_plain x Hx). cbn. f_equal. now apply IH.
Qed.

End FrontClaims.

(** ** The technology stack *)

Module TechFacts.
Import JsString JsArray Tech.
Import TallyFacts.
Local Open Scope list_scope.

Lemma found_addTech (name type : string) (st : TechState) (x : string) :
  In x (foundTech (addTech name type st)) <-> In x (foundTech st) \/ x = name.
Proof.
  unfold addTech. destruct (mem name (foundTech st)) eqn:E; cbn [negb foundTech].
  - apply mem_In in E. split; [tauto|]. intros [H| ->]; assumption.
  - rewrite in_app_iff. simpl. split; [intros [H|[H|[]]]; auto | intros [H|H]; auto].
Qed.

Lemma in_step_addTech (name type : string) (st : TechState) :
  in_step st -> in_step (addTech name type st).
Proof.
  intros [E N]. unfold addTech, in_step.
  destruct (mem name (foundTech st)) eqn:Hm; cbn [negb foundTech techStack]; [now split|].
  apply mem_false in Hm. split.
  - now rewrite map_app, E.
  - apply (Permutation_NoDup (Permutation_cons_append (foundTech st) name)).
    now constructor.
Qed.

Lemma in_step_add_all (reqs : list (string * string)) (st : TechState) :
  in_step st -> in_step (add_all reqs st).
Proof.
  revert st. induction reqs as [|r reqs IH]; intros st H; [exact H|].
  apply IH. now apply in_step_addTech.
Qed.

Lemma found_add_all (reqs : list (string * string)) (st : TechState) (x : string) :
  In x (foundTech (add_all reqs st)) <-> In x (foundTech st) \/ In x (map fst reqs).
Proof.
  revert st. induction reqs as [|r reqs IH]; intros st; cbn [add_all fold_left map].
  - simpl. tauto.
  - fold (add_all reqs (addTech (fst r) (snd r) st)).
    rewrite IH, found_addTech. simpl. split.
    + intros [[H|H]|H]; auto.
    + intros [H|[H|H]]; auto.
Qed.

(** The entry listed for a name is the first request made for it. *)
Lemma first_request (reqs : list (string * string)) (st : TechState) (n t : string) :
  In (n, t) (techStack (add_all reqs st)) ->
  In (n, t) (techStack st) \/
  (~ In n (foundTech st) /\
   exists pre post, reqs = pre ++ (n, t) :: post /\ ~ In n (map fst pre)).
Proof.
  revert st. induction reqs as [|r reqs IH]; intros st; cbn [add_all fold_left].
  - now left.
  - fold (add_all reqs (addTech (fst r) (snd r) st)). intros H.
    destruct r as [rn rt]. cbn [fst snd] in *.
    apply IH in H as [H|(Hn & pre & post & -> & Hpre)].
    + unfold addTech in H.
      destruct (mem rn (foundTech st)) eqn:Hm; cbn [negb techStack] in H; [now left|].
      apply in_app_iff in H as [H|[H|[]]]; [now left|].
      right. apply mem_false in Hm. injection H as -> ->.
      split; [exact Hm|]. exists [], reqs. split; [reflexivity | simpl; tauto].
    + right.
      assert (Hn' : ~ In n (foundTech st) /\ n <> rn).
      { split; intros Hc; apply Hn; apply found_addTech; auto. }
      destruct Hn' as [Hn1 Hn2]. split; [exact Hn1|].
      exists ((rn, rt) :: pre), post. split; [reflexivity|].
      simpl. intros [Hc|Hc]; [congruence | contradiction].
Qed.

Lemma fold_filter {A S : Type} (p : A -> bool) (f : S -> A -> S) (l : list A) (s : S) :
  fold_left (fun s a => if p a then f s a else s) l s = fold_left f (filter p l) s.
Proof.
  revert s. induction l as [|a l IH]; intros s; [reflexivity|]. simpl.
  destruct (p a); simpl; apply IH.
Qed.

Lemma fold_map {A B S : Type} (g : A -> B) (f : S -> B -> S) (l : list A) (s : S) :
  fold_left (fun s a => f s (g a)) l s = fold_left f (map g l) s.
Proof.
  revert s. induction l as [|a l IH]; intros s; [reflexivity|]. simpl. apply IH.
Qed.

Lemma scan_deps_asked (deps : string -> bool) (st : TechState) :
  scan_deps deps st = add_all (asked deps) st.
Proof.
  unfold scan_deps, add_all, asked.
  rewrite (fold_filter (fun rule => existsb deps (fst rule))
             (fun st rule => addTech (fst (snd rule)) (snd (snd rule)) st)).
  now rewrite <- (fold_map snd (fun st r => addTech (fst r) (snd r) st)).
Qed.

Lemma scan_packages_requests (pkgs : list (option (string -> bool))) (st : TechState) :
  scan_packages pkgs st = add_all (requests_of pkgs) st.
Proof.
  revert st. induction pkgs as [|pkg pkgs IH]; intros st; [reflexivity|].
  cbn [scan_packages fold_left requests_of flat_map].
  fold (scan_packages pkgs). fold (requests_of pkgs).
  unfold add_all. rewrite fold_left_app. fold (add_all (requests_of pkgs)).
  rewrite IH. destruct pkg as [deps|]; [|reflexivity].
  now rewrite scan_deps_asked.
Qed.

Lemma rule_names_NoDup : NoDup (map fst (map snd dependency_rules)).
Proof.
  apply (NoDup_count_occ' string_dec). intros x Hx.
  simpl in Hx. repeat (destruct Hx as [<-|Hx]; [reflexivity|]). contradiction.
Qed.

Lemma NoDup_fst_functional {A B} (l : list (A * B)) (a : A) (b b' : B) :
  NoDup (map fst l) -> In (a, b) l -> In (a, b') l -> b = b'.
Proof.
  induction l as [|[x y] l IH]; [contradiction|]. simpl.
  intros N [H|H] [H'|H']; inversion N as [|? ? Hx Hl]; subst.
  - congruence.
  - injection H as -> ->. exfalso. apply Hx. now apply (in_map fst) in H'.
  - injection H' as -> ->. exfalso. apply Hx. now apply (in_map fst) in H.
  - now apply IH.
Qed.

Lemma asked_rule (deps : string -> bool) (tech : string * string) :
  In tech (asked deps) -> In tech (map snd dependency_rules).
Proof.
  unfold asked. rewrite !in_map_iff. intros (r & <- & H).
  apply filter_In in H as [H _]. now exists r.
Qed.

End TechFacts.

Module TechClaims.
Import JsString JsArray Tech.
Import TallyFacts TechFacts.
Local Open Scope list_scope.

(** X21.  However [addTech] is called, no name is listed twice, a name
    is listed exactly when it was asked for, and the entry listed for a
    name is the one of the first call made for it. *)
Theorem add_tech_once (requests : list (string * string)) :
  let st := add_all requests no_tech in
  NoDup (map fst (techStack st)) /\
  (forall n, In n (map fst (techStack st)) <-> In n (map fst requests)) /\
  (forall n t, In (n, t) (techStack st) ->
     exists pre post, requests = pre ++ (n, t) :: post /\ ~ In n (map fst pre)).
Proof.
  intros st.
  assert (Hstep : in_step st) by (apply in_step_add_all; split; constructor).
  destruct Hstep as [E N].
  split; [now rewrite <- E|]. split.
  - intros n. rewrite <- E. unfold st. rewrite found_add_all. simpl. tauto.
  - intros n t H. apply first_request in H as [[]|(_ & H)]. exact H.
Qed.

(** X22.  After the package files of a repository are scanned, root
    first, a technology is listed exactly when one of the files that
    could be parsed has one of its dependency keys; none is listed
    twice, whatever the number of files that name it, and at most 19
    are. *)
Theorem packages_scanned (pkgs : list (option (string -> bool))) :
  let st := scan_packages pkgs no_tech in
  NoDup (map fst (techStack st)) /\
  (List.length (techStack st) <= 19)%nat /\
  (forall tech, In tech (techStack st) <->
     exists deps, In (Some deps) pkgs /\ In tech (asked deps)).
Proof.
  intros st. unfold st. rewrite scan_packages_requests.
  set (reqs := requests_of pkgs).
  assert (Hreq : forall tech, In tech reqs <->
            exists deps, In (Some deps) pkgs /\ In tech (asked deps)).
  { intros tech. unfold reqs, requests_of. rewrite in_flat_map. split.
    - intros ([deps|] & Hin & H); [|contradiction]. now exists deps.
    - intros (deps & Hin & H). now exists (Some deps). }
  assert (Hstep : in_step (add_all reqs no_tech))
    by (apply in_step_add_all; split; constructor).
  destruct Hstep as [E N]. rewrite E in N.
  assert (Hsub : forall tech, In tech (techStack (add_all reqs no_tech)) -> In tech reqs).
  { intros [n t] H. apply first_request in H as [[]|(_ & pre & post & -> & _)].
    apply in_or_app. right. now left. }
  split; [exact N|]. split.
  - rewrite <- (length_map fst).
    change 19%nat with (List.length (map fst (map snd dependency_rules))).
    apply NoDup_incl_length; [exact N|].
    intros n Hn. apply in_map_iff in Hn as (tech & <- & Hin).
    apply Hsub, Hreq in Hin as (deps & _ & Hin).
    apply in_map. now apply asked_rule in Hin.
  - intros [n t]. rewrite <- Hreq. split; [apply Hsub|].
    intros Hin.
    assert (Hn : In n (map fst (techStack (add_all reqs no_tech)))).
    { rewrite <- E. apply found_add_all. right. now apply (in_map fst) in Hin. }
    apply in_map_iff in Hn as ([n' t'] & Hn' & Hin'). cbn [fst] in Hn'. subst n'.
    assert (Ht : t' = t).
    { apply (NoDup_fst_functional (map snd dependency_rules) n);
        [apply rule_names_NoDup | |].
      - apply Hsub, Hreq in Hin' as (deps & _ & H). now apply asked_rule in H.
      - apply Hreq in Hin as (deps & _ & H). now apply asked_rule in H. }
    now subst t'.
Qed.

End TechClaims.

(** ** Modules and environment variables *)

Module DedupeFacts.
Import JsString JsArray Dedupe.
Import TallyFacts ChurnFacts.
Local Open Scope list_scope.

Lemma NoDup_snoc {A} (l : list A) (x : A) : NoDup l -> ~ In x l -> NoDup (l ++ [x]).
Proof.
  intros N H. apply (Permutation_NoDup (Permutation_cons_append l x)). now constructor.
Qed.

Lemma map_set_keys {A} (k : string) (v : A) (m : list (string * A)) :
  map fst (map_set k v m) = if mem k (map fst m) then map fst m else map fst m ++ [k].
Proof.
  induction m as [|[k' v'] m IH]; [reflexivity|]. cbn [map_set map fst mem existsb].
  fold (mem k (map fst m)). rewrite (String.eqb_sym k k').
  destruct (String.eqb_spec k' k) as [->|_]; [reflexivity|].
  cbn [map fst orb]. rewrite IH. now destruct (mem k (map fst m)).
Qed.

Lemma map_set_In {A} (k : string) (v : A) (m : list (string * A)) (k' : string) (v' : A) :
  NoDup (map fst m) ->
  In (k', v') (map_set k v m) ->
  (k' = k /\ v' = v) \/ (k' <> k /\ In (k', v') m).
Proof.
  induction m as [|[k0 v0] m IH]; cbn [map_set map fst]; intros N.
  - intros [[= <- <-]|[]]. now left.
  - inversion N as [|? ? Hk0 Hm]; subst.
    destruct (String.eqb_spec k0 k) as [->|Hne].
    + intros [[= <- <-]|H]; [now left|].
      right. split; [|now right].
      intros ->. apply Hk0. now apply (in_map fst) in H.
    + intros [[= <- <-]|H].
      * right. split; [exact Hne | now left].
      * apply (IH Hm) in H as [H|[H1 H2]]; [now left|].
        right. split; [exact H1 | now right].
Qed.

Lemma new_Map_snoc {A} (entries : list (string * A)) (e : string * A) :
  new_Map (entries ++ [e]) = map_set (fst e) (snd e) (new_Map entries).
Proof. unfold new_Map. now rewrite fold_left_app. Qed.

(** What [new Map(entries)] holds: every key once, with the value of
    its last entry. *)
Lemma new_Map_spec {A} (entries : list (string * A)) :
  NoDup (map fst (new_Map entries)) /\
  (forall k, In k (map fst (new_Map entries)) <-> In k (map fst entries)) /\
  (forall k v, In (k, v) (new_Map entries) ->
     exists pre post, entries = pre ++ (k, v) :: post /\ ~ In k (map fst post)).
Proof.
  induction entries as [|[k v] entries (N & K & L)] using rev_ind.
  - split; [constructor|]. split; [tauto|]. intros k v [].
  - rewrite new_Map_snoc. cbn [fst snd]. split; [|split].
    + rewrite map_set_keys. destruct (mem k (map fst (new_Map entries))) eqn:E; [exact N|].
      apply NoDup_snoc; [exact N | now apply mem_false].
    + intros k'. rewrite map_set_keys, map_app, in_app_iff. cbn [map fst In].
      destruct (mem k (map fst (new_Map entries))) eqn:E.
      * apply mem_In in E. rewrite K. split; [tauto|].
        intros [H|[<-|[]]]; [exact H | now apply K].
      * rewrite in_app_iff, K. simpl. tauto.
    + intros k' v' H. apply (map_set_In _ _ _ _ _ N) in H as [[-> ->]|[Hne H]].
      * exists entries, []. split; [reflexivity | simpl; tauto].
      * destruct (L _ _ H) as (pre & post & -> & Hpost).
        exists pre, (post ++ [(k, v)]). split; [now rewrite <- app_assoc|].
        rewrite map_app, in_app_iff. simpl. intros [Hc|[Hc|[]]]; [contradiction | congruence].
Qed.

Lemma by_name_names (modules : list Module_) :
  map m_name (by_name modules) = map fst (new_Map (map (fun m => (m_name m, m)) modules)).
Proof.
  unfold by_name. rewrite map_map. apply map_ext_in. intros [k m] H.
  destruct (new_Map_spec (map (fun m => (m_name m, m)) modules)) as (_ & _ & L).
  destruct (L _ _ H) as (pre & post & E & _).
  apply map_eq_app in E as (pre' & rest & _ & _ & E).
  apply map_eq_cons in E as (m' & post' & _ & E & _).
  now injection E as <- <-.
Qed.

(** Set insertion, one item after the other. *)
Lemma set_fold_In (items s : list string) (x : string) :
  In x (fold_left (fun s x => if mem x s then s else s ++ [x]) items s) <->
  In x s \/ In x items.
Proof.
  revert s. induction items as [|y items IH]; intros s; cbn [fold_left].
  - simpl. tauto.
  - rewrite IH. destruct (mem y s) eqn:E.
    + apply mem_In in E. simpl. split; [tauto|]. intros [H|[<-|H]]; auto.
    + rewrite in_app_iff. simpl. tauto.
Qed.

Lemma set_fold_NoDup (items s : list string) :
  NoDup s -> NoDup (fold_left (fun s x => if mem x s then s else s ++ [x]) items s).
Proof.
  revert s. induction items as [|y items IH]; intros s N; cbn [fold_left]; [exact N|].
  apply IH. destruct (mem y s) eqn:E; [exact N|].
  apply NoDup_snoc; [exact N | now apply mem_false].
Qed.

Lemma set_fold_prefix (items s : list string) :
  exists t, fold_left (fun s x => if mem x s then s else s ++ [x]) items s = s ++ t.
Proof.
  revert s. induction items as [|y items IH]; intros s; cbn [fold_left].
  - exists []. now rewrite app_nil_r.
  - destruct (mem y s).
    + apply IH.
    + destruct (IH (s ++ [y])) as [t E]. exists (y :: t). rewrite E.
      now rewrite <- app_assoc.
Qed.

Lemma set_fold_fresh (items s : list string) :
  NoDup (s ++ items) ->
  fold_left (fun s x => if mem x s then s else s ++ [x]) items s = s ++ items.
Proof.
  revert s. induction items as [|y items IH]; intros s N; cbn [fold_left].
  - now rewrite app_nil_r.
  - assert (E : mem y s = false).
    { apply mem_false. intros H. apply NoDup_remove_2 in N. apply N.
      apply in_or_app. now left. }
    rewrite E. rewrite IH; rewrite <- app_assoc; [reflexivity | exact N].
Qed.

Lemma new_Set_app (acc items : list string) :
  NoDup acc ->
  new_Set (acc ++ items) =
  fold_left (fun s x => if mem x s then s else s ++ [x]) items acc.
Proof.
  intros N. unfold new_Set. rewrite fold_left_app. f_equal.
  now apply (set_fold_fresh acc []).
Qed.

(** One file of the loop: the names kept so far stay where they are. *)
Lemma add_env_spec (acc matches : list string) :
  NoDup acc -> (List.length acc <= 20)%nat ->
  NoDup (add_env acc matches) /\ (List.length (add_env acc matches) <= 20)%nat /\
  (forall v, In v (add_env acc matches) -> In v acc \/ In v matches) /\
  exists rest, add_env acc matches = acc ++ rest.
Proof.
  intros N Hlen. unfold add_env, slice0. rewrite (new_Set_app acc matches N).
  split; [apply NoDup_firstn', set_fold_NoDup, N|].
  split; [apply firstn_le_length|]. split.
  - intros v Hin. apply (set_fold_In matches acc v).
    rewrite <- (firstn_skipn 20 (fold_left _ matches acc)). apply in_or_app. now left.
  - destruct (set_fold_prefix matches acc) as [t ->].
    rewrite firstn_app, (firstn_all2 acc) by exact Hlen. now eexists.
Qed.

Lemma env_fold_spec (files : list (option (list string))) (acc : list string) :
  NoDup acc -> (List.length acc <= 20)%nat ->
  let out := fold_left
               (fun envVars file => match file with
                                    | Some matches => add_env envVars matches
                                    | None => envVars
                                    end) files acc in
  NoDup out /\ (List.length out <= 20)%nat /\
  (forall v, In v out ->
     In v acc \/ exists matches, In (Some matches) files /\ In v matches) /\
  exists rest, out = acc ++ rest.
Proof.
  revert acc. induction files as [|file files IH]; intros acc N Hlen; cbn [fold_left].
  - split; [exact N|]. split; [exact Hlen|]. split; [now left|].
    exists []. now rewrite app_nil_r.
  - destruct file as [matches|].
    + destruct (add_env_spec acc matches N Hlen) as (N' & L' & I' & rest' & E').
      destruct (IH _ N' L') as (N2 & L2 & I2 & rest2 & E2).
      split; [exact N2|]. split; [exact L2|]. split.
      * intros v Hv. apply I2 in Hv as [Hv|(ms & Hms & Hv)].
        -- apply I' in Hv as [Hv|Hv]; [now left|].
           right. exists matches. split; [now left | exact Hv].
        -- right. exists ms. split; [now right | exact Hv].
      * exists (rest' ++ rest2). rewrite E2, E'. now rewrite <- app_assoc.
    + destruct (IH _ N Hlen) as (N2 & L2 & I2 & rest2 & E2).
      split; [exact N2|]. split; [exact L2|]. split; [|now exists rest2].
      intros v Hv. apply I2 in Hv as [Hv|(ms & Hms & Hv)]; [now left|].
      right. exists ms. split; [now right | exact Hv].
Qed.

End DedupeFacts.

Module DedupeClaims.
Import JsString JsArray Dedupe.
Import TallyFacts ChurnFacts DedupeFacts.
Local Open Scope list_scope.

(** X23.  The list of modules names no module twice and has at most 20
    entries; the entry kept for a name is the last module found under
    that name; and with at most 20 modules found, every name found is
    listed. *)
Theorem modules_deduped (modules : list Module_) :
  let out := dedupe_modules modules in
  NoDup (map m_name out) /\
  (List.length out <= 20)%nat /\
  (forall m, In m out ->
     exists pre post, modules = pre ++ m :: post /\ ~ In (m_name m) (map m_name post)) /\
  ((List.length modules <= 20)%nat ->
   forall m, In m modules -> In (m_name m) (map m_name out)).
Proof.
  intros out. unfold out, dedupe_modules, slice0.
  set (entries := map (fun m => (m_name m, m)) modules).
  destruct (new_Map_spec entries) as (N & K & L).
  assert (Hkeys : map fst entries = map m_name modules).
  { unfold entries. rewrite map_map. reflexivity. }
  split; [|split; [|split]].
  - rewrite <- firstn_map, by_name_names. now apply NoDup_firstn'.
  - apply firstn_le_length.
  - intros m Hm.
    assert (Hm' : In m (by_name modules)).
    { rewrite <- (firstn_skipn 20 (by_name modules)). apply in_or_app. now left. }
    unfold by_name in Hm'. apply in_map_iff in Hm' as ([k m'] & E & Hin).
    cbn [snd] in E. subst m'.
    destruct (L _ _ Hin) as (pre & post & E & Hpost).
    unfold entries in E.
    apply map_eq_app in E as (pre' & rest & -> & _ & E).
    apply map_eq_cons in E as (m' & post' & -> & E & <-).
    injection E as <- <-.
    exists pre', post'. split; [reflexivity|].
    now rewrite map_map in Hpost.
  - intros Hlen m Hm.
    assert (Hle : (List.length (by_name modules) <= 20)%nat).
    { rewrite <- (length_map m_name), by_name_names. fold entries.
      etransitivity; [|exact Hlen].
      rewrite <- (length_map m_name modules), <- Hkeys.
      apply NoDup_incl_length; [exact N|]. intros k. apply K. }
    rewrite firstn_all2 by exact Hle.
    rewrite by_name_names. fold entries. apply K. rewrite Hkeys. now apply in_map.
Qed.

Lemma modules_deduped_witness :
  In "core"%string
     (map m_name (dedupe_modules [mkModule "core" "py/core" "python-package";
                                  mkModule "api" "py/api" "python-package";
                                  mkModule "core" "rs/core" "rust-module"])).
Proof.
  refine (proj2 (proj2 (proj2 (modules_deduped _))) _
                (mkModule "core" "py/core" "python-package") _).
  - simpl. lia.
  - now left.
Defined.

(** X24.  The list of environment variables holds no name twice and at
    most 20 names; every name in it was matched in one of the files that
    could be read; and names taken from earlier files keep their place
    whatever later files bring. *)
Theorem env_vars_kept (files : list (option (list string))) :
  let out := envVars_of files in
  NoDup out /\
  (List.length out <= 20)%nat /\
  (forall v, In v out -> exists matches, In (Some matches) files /\ In v matches) /\
  (forall more, exists rest, envVars_of (files ++ more) = out ++ rest).
Proof.
  intros out. unfold out, envVars_of.
  destruct (env_fold_spec files [] (NoDup_nil _) (Nat.le_0_l _)) as (N & Hlen & Hin & _).
  cbv zeta in N, Hlen, Hin.
  split; [exact N|]. split; [exact Hlen|]. split.
  - intros v Hv. apply Hin in Hv as [[]|Hv]. exact Hv.
  - intros more. rewrite fold_left_app.
    destruct (env_fold_spec more _ N Hlen) as (_ & _ & _ & rest & E).
    exists rest. exact E.
Qed.

End DedupeClaims.

(** ** Sensitive files *)

Module ExposureClaims.
Import JsString JsArray Host Exposure Samples.
Import ListFacts ContributorFacts DeadCodeFacts.
Local Open Scope list_scope.

Lemma exposure_value (repoPath : string) (relative : string -> string -> string)
      (w : World) (file : string) :
  exposure repoPath relative file w =
  Value (match located w file with
         | Some found =>
             if unignored repoPath relative w found
             then [mkWarning (file ++ " may be committed to repo")
                             (relative repoPath found)]
             else []
         | None => []
         end).
Proof.
  unfold exposure, located, unignored, try_catch, bind, exec.
  destruct (execSync w (Site ("sensitive: " ++ file))) as [out|]; [|reflexivity].
  destruct (truthy (trim out)); [|reflexivity].
  rewrite git_value. unfold ContributorSpec.git_output.
  destruct (execSync w (Git (check_ignore_args repoPath relative (trim out)))) as [o|];
    [destruct (truthy (trim o)) |]; reflexivity.
Qed.

(** X25.  The scan for exposed files never fails and gives at most six
    warnings; a sensitive file is warned about exactly when the search
    finds it and [git check-ignore] prints nothing for it or cannot
    run. *)
Theorem exposure_warnings
        (repoPath : string) (relative : string -> string -> string) (w : World) :
  exists ws,
    warnings repoPath relative w = Value ws /\
    (List.length ws <= 6)%nat /\
    forall e, In e ws <->
      exists file found,
        In file Run.sensitiveFiles /\ located w file = Some found /\
        unignored repoPath relative w found = true /\
        e = mkWarning (file ++ " may be committed to repo") (relative repoPath found).
Proof.
  set (g := fun file =>
              match located w file with
              | Some found =>
                  if unignored repoPath relative w found
                  then [mkWarning (file ++ " may be committed to repo")
                                  (relative repoPath found)]
                  else []
              | None => []
              end).
  exists (flat_map g Run.sensitiveFiles). split; [|split].
  - unfold warnings, try_catch.
    rewrite (concatM_value (exposure repoPath relative) g w); [reflexivity|].
    intros file. apply exposure_value.
  - change 6%nat with (List.length Run.sensitiveFiles * 1)%nat.
    apply flat_map_length_le. intros file. unfold g.
    destruct (located w file); [destruct (unignored _ _ _ _)|]; simpl; lia.
  - intros e. rewrite in_flat_map. split.
    + intros (file & Hfile & He). unfold g in He.
      destruct (located w file) as [found|] eqn:El; [|contradiction].
      destruct (unignored repoPath relative w found) eqn:Eu; [|contradiction].
      destruct He as [<-|[]]. now exists file, found.
    + intros (file & found & Hfile & El & Eu & ->).
      exists file. split; [exact Hfile|]. unfold g. rewrite El, Eu. now left.
Qed.

End ExposureClaims.

(** ** Kebab-case names *)

Module KebabClaims.
Import JsString Path DeadCode.
Local Open Scope list_scope.

Lemma lower_char_not_upper (c : ascii) : is_upper (lower_char c) = false.
Proof. destruct c as [[] [] [] [] [] [] [] []]; reflexivity. Qed.

Lemma toLowerCase_not_upper (s : string) :
  forallb (fun c => negb (is_upper c)) (list_ascii_of_string (toLowerCase s)) = true.
Proof.
  induction s as [|c s IH]; [reflexivity|]. simpl.
  now rewrite lower_char_not_upper, IH.
Qed.

Lemma toLowerCase_id (s : string) :
  forallb (fun c => negb (is_upper c)) (list_ascii_of_string s) = true ->
  toLowerCase s = s.
Proof.
  induction s as [|c s IH]; [reflexivity|]. simpl. intros H.
  apply andb_true_iff in H as [Hc H]. apply negb_true_iff in Hc.
  unfold lower_char. rewrite Hc. f_equal. now apply IH.
Qed.

Lemma dash_capitals_id (s : string) :
  forallb (fun c => negb (is_upper c)) (list_ascii_of_string s) = true ->
  dash_capitals s = s.
Proof.
  induction s as [|c s IH]; [reflexivity|]. simpl. intros H.
  apply andb_true_iff in H as [Hc H]. apply negb_true_iff in Hc.
  rewrite Hc. f_equal. now apply IH.
Qed.

(** X26.  The kebab-case variant of a component name holds no upper-case
    letter; a name without upper-case letters that does not begin with a
    dash is its own variant, so that the usage check then looks for the
    one name only. *)
Theorem kebab_lower_case (componentName : string) :
  forallb (fun c => negb (is_upper c)) (list_ascii_of_string (kebab componentName)) = true /\
  (forallb (fun c => negb (is_upper c)) (list_ascii_of_string componentName) = true ->
   startsWith componentName "-" = false ->
   kebab componentName = componentName /\
   forall allUsages f,
     basename_ext f (extname f) = componentName ->
     component_used allUsages f = includes allUsages componentName).
Proof.
  split.
  - unfold kebab.
    pose proof (toLowerCase_not_upper (dash_capitals componentName)) as H.
    destruct (toLowerCase (dash_capitals componentName)) as [|c r]; [reflexivity|].
    unfold drop_leading_dash.
    destruct c as [[] [] [] [] [] [] [] []]; exact H.
  - intros Hlow Hdash.
    assert (E : kebab componentName = componentName).
    { unfold kebab. rewrite (dash_capitals_id _ Hlow), (toLowerCase_id _ Hlow).
      destruct componentName as [|c r]; [reflexivity|].
      unfold drop_leading_dash.
      destruct c as [[] [] [] [] [] [] [] []]; try reflexivity.
      cbn in Hdash. destruct r; discriminate. }
    split; [exact E|].
    intros allUsages f Hf. unfold component_used. rewrite Hf, E.
    apply orb_diag.
Qed.

Lemma kebab_lower_case_witness :
  kebab "navbar" = "navbar"%string /\
  forall allUsages f,
    basename_ext f (extname f) = "navbar"%string ->
    component_used allUsages f = includes allUsages "navbar".
Proof.
  apply (proj2 (kebab_lower_case "navbar")); reflexivity.
Defined.

End KebabClaims.
